(** * Navigation tools of [lib/matplotlib/backend_tools.py]

    A shallow embedding of the two toggle tools [ToolZoom] and [ToolPan]
    together with the collaborators they talk to (the figure's axes, the
    navigation object with its locks and view stack, the canvas callback
    registry), and of the keyboard tools that act on the surfaces
    themselves ([ToolEnableAllNavigation], [ToolEnableNavigation] and the
    two scale toggles), followed by the properties of the zoom and pan
    gestures and of those tools.

    Conventions of the embedding.
    - Floating point numbers are exact rationals ([Q]).  A division whose
      divisor is zero yields a non-finite float in the program; here it
      yields [0] ([Qdiv]); every statement that depends on the value of a
      quotient carries the hypotheses that make the divisor non-zero.
    - Python objects that are shared and mutated (the axes of the figure)
      live in a store, [figure : list Axes]; a reference to an axes object
      is its position in that list, which is also the index that
      [enumerate(self.figure.get_axes())] hands out.  In the program a
      reference always has its object; a handler of the model that meets a
      reference without one passes it over.
    - A handler takes the tool instance ([self]) and the world, and returns
      an outcome together with the new [self] and the new world; a raised
      exception keeps the mutations done before it.
    - Calls to collaborators are recorded in [trace], newest first. *)

From Stdlib Require Import QArith Qabs Lqa ZArith String.
From stdpp Require Import base option list.

(** ** Numbers, boxes, axes *)

Definition Point : Type := (Q * Q)%type.
Definition Interval : Type := (Q * Q)%type.

(** Python's [min(a, b)] and [max(a, b)]: the first argument wins ties. *)
Definition py_min (a b : Q) : Q := if Qlt_le_dec b a then b else a.
Definition py_max (a b : Q) : Q := if Qlt_le_dec a b then b else a.

(** [matplotlib.transforms.Bbox], by its four extents. *)
Record Bbox := mkBbox { bb_x0 : Q; bb_y0 : Q; bb_x1 : Q; bb_y1 : Q }.

Definition extents (b : Bbox) : Q * Q * Q * Q :=
  (bb_x0 b, bb_y0 b, bb_x1 b, bb_y1 b).
Definition intervalx (b : Bbox) : Interval := (bb_x0 b, bb_x1 b).
Definition intervaly (b : Bbox) : Interval := (bb_y0 b, bb_y1 b).

Inductive Scale := LinearScale | LogScale.

Definition is_log (s : Scale) : bool :=
  match s with LogScale => true | LinearScale => false end.

(** Modelled from the spec: the plot area (NavigableSurface), which is not
    part of this file of the repository.  It has a value range per axis
    ([viewLim]), a scale kind per axis, a pixel bounding box, a
    navigation-enabled flag, the zoom and pan capabilities, the groups of
    shared x and shared y axes it belongs to ([None]: no group), and the
    start reference of a pan session. *)
Record Axes := mkAxes {
  viewLim : Bbox;
  bbox : Bbox;
  get_xscale : Scale;
  get_yscale : Scale;
  get_navigate : bool;
  can_zoom : bool;
  can_pan : bool;
  shared_x_axes : option nat;
  shared_y_axes : option nat;
  _pan_start : option (Q * Q * Bbox)
}.

Definition get_xlim (a : Axes) : Interval := intervalx (viewLim a).
Definition get_ylim (a : Axes) : Interval := intervaly (viewLim a).

Definition with_viewLim (b : Bbox) (a : Axes) : Axes :=
  {| viewLim := b; bbox := bbox a;
     get_xscale := get_xscale a; get_yscale := get_yscale a;
     get_navigate := get_navigate a;
     can_zoom := can_zoom a; can_pan := can_pan a;
     shared_x_axes := shared_x_axes a; shared_y_axes := shared_y_axes a;
     _pan_start := _pan_start a |}.

Definition with_xlim (v : Interval) (a : Axes) : Axes :=
  with_viewLim
    {| bb_x0 := fst v; bb_y0 := bb_y0 (viewLim a);
       bb_x1 := snd v; bb_y1 := bb_y1 (viewLim a) |} a.

Definition with_ylim (v : Interval) (a : Axes) : Axes :=
  with_viewLim
    {| bb_x0 := bb_x0 (viewLim a); bb_y0 := fst v;
       bb_x1 := bb_x1 (viewLim a); bb_y1 := snd v |} a.

(** Modelled from the spec: [Grouper.joined], the shared-axis group
    membership query.  Two surfaces are joined when both belong to the same
    group. *)
Definition joined (g h : option nat) : bool :=
  match g, h with
  | Some i, Some j => Nat.eqb i j
  | _, _ => false
  end.

(** A reference to an axes object of the figure. *)
Abbreviation AxesRef := nat (only parsing).

(** Modelled from the spec: [Axes.set_xlim] and [Axes.set_ylim], the
    range-setting operations.  Twin axes share one axis's data range, so
    the new range reaches the target and every surface joined with it;
    [group] is the group membership of the axis and [upd] stores the range
    in one surface. *)
Definition set_lim (group : Axes -> option nat) (upd : Interval -> Axes -> Axes)
    (a : AxesRef) (v : Interval) (fig : list Axes) : list Axes :=
  match fig !! a with
  | None => fig
  | Some ax =>
      imap (fun j other =>
              if Nat.eqb j a || joined (group ax) (group other)
              then upd v other else other) fig
  end.

Definition set_xlim : AxesRef -> Interval -> list Axes -> list Axes :=
  set_lim shared_x_axes with_xlim.
Definition set_ylim : AxesRef -> Interval -> list Axes -> list Axes :=
  set_lim shared_y_axes with_ylim.

(** ** Events *)

(** The event record delivered by the canvas.  Mouse events always carry
    pixel coordinates, so the guards [x is not None and y is not None] of
    the handlers hold. *)
Record Event := mkEvent {
  event_button : option Z;
  event_key : option string;
  event_x : Q;
  event_y : Q
}.

(** Modelled from the spec: [Axes.in_axes], the pixel-bounding-box query. *)
Definition in_axes (a : Axes) (event : Event) : bool :=
  Qle_bool (bb_x0 (bbox a)) (event_x event) &&
  Qle_bool (event_x event) (bb_x1 (bbox a)) &&
  Qle_bool (bb_y0 (bbox a)) (event_y event) &&
  Qle_bool (event_y event) (bb_y1 (bbox a)).

(** [k == s] for an optional key and a string literal. *)
Definition key_is (k : option string) (s : string) : bool :=
  match k with
  | Some k' => String.eqb k' s
  | None => false
  end.

(** [b == n] for an optional button and an integer literal. *)
Definition button_is (b : option Z) (n : Z) : bool :=
  match b with
  | Some b' => Z.eqb b' n
  | None => false
  end.

(** ** The collaborators that are only used through their interface *)

(** The numeric and geometric primitives the tools call but do not define:
    the surface's pixel-to-data transform, numpy's logarithm, [pow], and the
    surface's own pan primitives. *)
Class Backend := {
  (** a frozen [matplotlib.transforms.Transform] *)
  Transform : Type;
  (** [a.transData], as it stands for the current state of the surface *)
  transData : Axes -> Transform;
  (** [t.inverted().transform_point(p)] *)
  inverted_transform_point : Transform -> Point -> Point;
  np_log : Q -> Q;
  pow : Q -> Q -> Q;
  start_pan : Axes -> Q -> Q -> option Z -> Axes;
  drag_pan : Axes -> option Z -> option string -> Q -> Q -> Axes;
  end_pan : Axes -> Axes
}.

(** ** Locks *)

Inductive Owner := Zoom | Pan | Widget (n : nat).

#[global] Instance Owner_eq_dec : EqDecision Owner.
Proof. solve_decision. Defined.

Inductive Error :=
| LockContention (holder : Owner)
| TypeError.

Inductive Outcome := Done | Raised (e : Error).

(** Modelled from the spec: ExclusiveLock.  It holds at most one owner;
    acquiring it while a different owner holds it fails with
    [LockContention] naming the holder; releasing it clears the ownership
    only when the caller is the holder and is a no-op otherwise. *)
Definition Lock : Type := option Owner.

Definition lock_acquire (o : Owner) (l : Lock) : Error + Lock :=
  match l with
  | None => inr (Some o)
  | Some h => if decide (h = o) then inr (Some o) else inl (LockContention h)
  end.

Definition lock_release (o : Owner) (l : Lock) : Lock :=
  match l with
  | Some h => if decide (h = o) then None else Some h
  | None => None
  end.

(** ** View stack *)

(** One snapshot group: the x-range and y-range of every surface. *)
Definition View : Type := list (Interval * Interval).

(** Modelled from the spec: ViewStack, an ordered sequence of snapshot
    groups plus a cursor ([pos] is [0] while the stack is empty). *)
Record Stack := mkStack { elements : list View; pos : nat }.

Definition empty (s : Stack) : bool :=
  match elements s with [] => true | _ => false end.

(** [push] truncates the forward history, appends after the cursor and
    advances the cursor. *)
Definition push (v : View) (s : Stack) : Stack :=
  let kept := if empty s then [] else take (S (pos s)) (elements s) in
  {| elements := kept ++ [v]; pos := length kept |}.

(** ** The world the tools act on *)

(** Calls made to collaborators, in the order of the program text. *)
Inductive Call :=
| call_set_xlim (a : AxesRef) (v : Interval)
| call_set_ylim (a : AxesRef) (v : Interval)
| call_start_pan (a : AxesRef) (x y : Q) (button : option Z)
| call_drag_pan (a : AxesRef) (button : option Z) (key : option string) (x y : Q)
| call_end_pan (a : AxesRef)
| call_push_current
| call_draw
| call_draw_rubberband (x y lastx lasty : Q)
| call_dynamic_update
| call_navigation_press
| call_navigation_release.

(** The handlers the zoom tool connects to the canvas. *)
Inductive Handler := _switch_on_zoom_mode_cb | _switch_off_zoom_mode_cb.

Record Navigation := mkNavigation {
  canvaslock : Lock;
  presslock : Lock;
  releaselock : Lock;
  movelock : Lock;
  keypresslock : Lock;
  views : Stack
}.

Record World := mkWorld {
  figure : list Axes;
  navigation : Navigation;
  (** the canvas callback registry: connection id, event name, handler *)
  callbacks : list (nat * string * Handler);
  next_cid : nat;
  trace : list Call
}.

Definition with_figure (f : list Axes) (w : World) : World :=
  {| figure := f; navigation := navigation w; callbacks := callbacks w;
     next_cid := next_cid w; trace := trace w |}.

Definition with_navigation (n : Navigation) (w : World) : World :=
  {| figure := figure w; navigation := n; callbacks := callbacks w;
     next_cid := next_cid w; trace := trace w |}.

Definition record (c : Call) (w : World) : World :=
  {| figure := figure w; navigation := navigation w; callbacks := callbacks w;
     next_cid := next_cid w; trace := c :: trace w |}.

Definition with_canvaslock (l : Lock) (n : Navigation) : Navigation :=
  {| canvaslock := l; presslock := presslock n; releaselock := releaselock n;
     movelock := movelock n; keypresslock := keypresslock n; views := views n |}.
Definition with_presslock (l : Lock) (n : Navigation) : Navigation :=
  {| canvaslock := canvaslock n; presslock := l; releaselock := releaselock n;
     movelock := movelock n; keypresslock := keypresslock n; views := views n |}.
Definition with_releaselock (l : Lock) (n : Navigation) : Navigation :=
  {| canvaslock := canvaslock n; presslock := presslock n; releaselock := l;
     movelock := movelock n; keypresslock := keypresslock n; views := views n |}.
Definition with_movelock (l : Lock) (n : Navigation) : Navigation :=
  {| canvaslock := canvaslock n; presslock := presslock n;
     releaselock := releaselock n;
     movelock := l; keypresslock := keypresslock n; views := views n |}.
Definition with_views (s : Stack) (n : Navigation) : Navigation :=
  {| canvaslock := canvaslock n; presslock := presslock n;
     releaselock := releaselock n;
     movelock := movelock n; keypresslock := keypresslock n; views := s |}.

(** Modelled from the spec: [connect(eventType, handler) -> subscriptionId]
    and [disconnect(subscriptionId)] of the drawing surface. *)
Definition mpl_connect (name : string) (h : Handler) (w : World) : nat * World :=
  (next_cid w,
   {| figure := figure w; navigation := navigation w;
      callbacks := (next_cid w, name, h) :: callbacks w;
      next_cid := S (next_cid w); trace := trace w |}).

Definition mpl_disconnect (cid : nat) (w : World) : World :=
  {| figure := figure w; navigation := navigation w;
     callbacks := filter (fun c => c.1.1 ≠ cid) (callbacks w);
     next_cid := next_cid w; trace := trace w |}.

(** Modelled from the spec: [pushCurrent()] snapshots the current ranges of
    all surfaces and pushes them on the view stack. *)
Definition current_view (fig : list Axes) : View :=
  map (fun a => (get_xlim a, get_ylim a)) fig.

Definition push_current (w : World) : World :=
  record call_push_current
    (with_navigation
       (with_views (push (current_view (figure w)) (views (navigation w)))
          (navigation w)) w).

(** Modelled from the spec: [draw()] triggers a redraw without changing
    ranges; the controller's [press], [release] and [draw_rubberband] hooks
    only give feedback. *)
Definition navigation_draw (w : World) : World := record call_draw w.
Definition navigation_press (event : Event) (w : World) : World :=
  record call_navigation_press w.
Definition navigation_release (event : Event) (w : World) : World :=
  record call_navigation_release w.
Definition draw_rubberband (event : Event) (x y lastx lasty : Q) (w : World) : World :=
  record (call_draw_rubberband x y lastx lasty) w.

(** ** ToolZoom *)

Module ToolZoom.
Section WithBackend.
Context `{B : Backend}.

(** One entry of [self._xypress]:
    [(x, y, a, i, a.viewLim.frozen(), a.transData.frozen())]. *)
Definition XYPress : Type := (Q * Q * AxesRef * nat * Bbox * Transform)%type.

(** The attributes of the tool instance. *)
Record t := mk {
  _ids_zoom : list nat;
  _button_pressed : option Z;
  _xypress : option (list XYPress);
  _zoom_mode : option string
}.

(** [__init__]; [_zoom_mode] is first assigned by [press] and is not read
    before. *)
Definition init : t :=
  {| _ids_zoom := []; _button_pressed := None; _xypress := None;
     _zoom_mode := None |}.

Definition activate (event : Event) (self : t) (w : World) : Outcome * t * World :=
  let n := navigation w in
  match lock_acquire Zoom (canvaslock n) with
  | inl e => (Raised e, self, w)
  | inr l1 =>
      let n := with_canvaslock l1 n in
      match lock_acquire Zoom (presslock n) with
      | inl e => (Raised e, self, with_navigation n w)
      | inr l2 =>
          let n := with_presslock l2 n in
          match lock_acquire Zoom (releaselock n) with
          | inl e => (Raised e, self, with_navigation n w)
          | inr l3 => (Done, self, with_navigation (with_releaselock l3 n) w)
          end
      end
  end.

Definition deactivate (event : Event) (self : t) (w : World) : Outcome * t * World :=
  let n := navigation w in
  let n := with_canvaslock (lock_release Zoom (canvaslock n)) n in
  let n := with_presslock (lock_release Zoom (presslock n)) n in
  let n := with_releaselock (lock_release Zoom (releaselock n)) n in
  (Done, self, with_navigation n w).

Definition release_movelock (w : World) : World :=
  with_navigation
    (with_movelock (lock_release Zoom (movelock (navigation w))) (navigation w)) w.

(** [for zoom_id in self._ids_zoom: self.figure.canvas.mpl_disconnect(zoom_id)] *)
Definition disconnect_all (ids : list nat) (w : World) : World :=
  fold_left (fun w' zoom_id => mpl_disconnect zoom_id w') ids w.

(** The list built by the [enumerate] loop of [press], from index [i] on. *)
Fixpoint press_records_from (event : Event) (i : nat) (todo : list Axes)
  : list XYPress :=
  match todo with
  | [] => []
  | a :: rest =>
      if in_axes a event && get_navigate a && can_zoom a
      then (event_x event, event_y event, i, i, viewLim a, transData a)
             :: press_records_from event (S i) rest
      else press_records_from event (S i) rest
  end.

Definition press_records (event : Event) (fig : list Axes) : list XYPress :=
  press_records_from event 0 fig.

Definition press (event : Event) (self : t) (w : World) : Outcome * t * World :=
  match _ids_zoom self with
  | _ :: _ =>
      (* already in the middle of a zoom: pressing another button cancels *)
      let w := release_movelock w in
      let w := disconnect_all (_ids_zoom self) w in
      let w := navigation_release event w in
      let w := navigation_draw w in
      (Done,
       {| _ids_zoom := []; _button_pressed := None; _xypress := None;
          _zoom_mode := _zoom_mode self |}, w)
  | [] =>
      if button_is (event_button event) 1 || button_is (event_button event) 3
      then
        let pressed := if button_is (event_button event) 1 then Some 1%Z else Some 3%Z in
        (* push the current view to define home if stack is empty *)
        let w := if empty (views (navigation w)) then push_current w else w in
        let recs := press_records event (figure w) in
        match lock_acquire Zoom (movelock (navigation w)) with
        | inl e =>
            (Raised e,
             {| _ids_zoom := []; _button_pressed := pressed;
                _xypress := Some recs; _zoom_mode := _zoom_mode self |}, w)
        | inr l =>
            let w := with_navigation (with_movelock l (navigation w)) w in
            let (id2, w) := mpl_connect "key_press_event" _switch_on_zoom_mode_cb w in
            let (id3, w) := mpl_connect "key_release_event" _switch_off_zoom_mode_cb w in
            let w := navigation_press event w in
            (Done,
             {| _ids_zoom := [id2; id3]; _button_pressed := pressed;
                _xypress := Some recs; _zoom_mode := event_key event |}, w)
        end
      else
        (Done,
         {| _ids_zoom := []; _button_pressed := None;
            _xypress := _xypress self; _zoom_mode := _zoom_mode self |}, w)
  end.

(** The drag callback. *)
Definition mouse_move (event : Event) (self : t) (w : World) : Outcome * t * World :=
  match _xypress self with
  | Some ((lastx, lasty, a, _ind, _lim, _trans) :: _) =>
      match figure w !! a with
      | Some ax =>
          let x := event_x event in
          let y := event_y event in
          let '(x1, y1, x2, y2) := extents (bbox ax) in
          let (x, lastx) := (py_max (py_min x lastx) x1, py_min (py_max x lastx) x2) in
          let (y, lasty) := (py_max (py_min y lasty) y1, py_min (py_max y lasty) y2) in
          if key_is (_zoom_mode self) "x" then
            (Done, self, draw_rubberband event x y1 lastx y2 w)
          else if key_is (_zoom_mode self) "y" then
            (Done, self, draw_rubberband event x1 y x2 lasty w)
          else
            (Done, self, draw_rubberband event x y lastx lasty w)
      | None => (Done, self, w)
      end
  | _ => (Done, self, w)
  end.

Definition with_zoom_mode (m : option string) (self : t) : t :=
  {| _ids_zoom := _ids_zoom self; _button_pressed := _button_pressed self;
     _xypress := _xypress self; _zoom_mode := m |}.

Definition _switch_on_zoom_mode (event : Event) (self : t) (w : World)
  : Outcome * t * World :=
  mouse_move event (with_zoom_mode (event_key event) self) w.

Definition _switch_off_zoom_mode (event : Event) (self : t) (w : World)
  : Outcome * t * World :=
  mouse_move event (with_zoom_mode None self) w.

Local Open Scope Q_scope.

(** The new interval of one axis for a zoom to the rectangle: the interval
    between the two data points, ordered like the current range
    [(Xmin, Xmax)] and cut at its bounds. *)
Definition zoom_to_rect (Xmin Xmax x lastx : Q) : Interval :=
  if Qlt_le_dec Xmin Xmax then
    let (x0, x1) := if Qlt_le_dec x lastx then (x, lastx) else (lastx, x) in
    let x0 := if Qlt_le_dec x0 Xmin then Xmin else x0 in
    let x1 := if Qlt_le_dec Xmax x1 then Xmax else x1 in
    (x0, x1)
  else
    let (x0, x1) := if Qlt_le_dec lastx x then (x, lastx) else (lastx, x) in
    let x0 := if Qlt_le_dec Xmin x0 then Xmin else x0 in
    let x1 := if Qlt_le_dec x1 Xmax then Xmax else x1 in
    (x0, x1).

(** The range of one axis after a zoom out with button 3. *)
Definition zoom_out (scale : Scale) (Xmin Xmax x0 x1 : Q) : Interval :=
  if is_log scale then
    let alpha := np_log (Xmax / Xmin) / np_log (x1 / x0) in
    (pow (Xmin / x0) alpha * Xmin, pow (Xmax / x0) alpha * Xmin)
  else
    let alpha := (Xmax - Xmin) / (x1 - x0) in
    (alpha * (Xmin - x0) + Xmin, alpha * (Xmax - x0) + Xmin).

(** [abs(x - lastx) < 5 or abs(y - lasty) < 5] *)
Definition singular_click (event : Event) (lastx lasty : Q) : bool :=
  (if Qlt_le_dec (Qabs (event_x event - lastx)) 5 then true else false) ||
  (if Qlt_le_dec (Qabs (event_y event - lasty)) 5 then true else false).

(** Whether [a] is joined with one of the surfaces already handled. *)
Definition twin (group : Axes -> option nat) (fig : list Axes)
    (ax : Axes) (last_a : list AxesRef) : bool :=
  existsb (fun la => match fig !! la with
                     | Some lax => joined (group ax) (group lax)
                     | None => false
                     end) last_a.

(** The body of the loop of [release] after the threshold test, for the
    record of surface [a] whose object is [ax]. *)
Definition zoom_axes (event : Event) (self : t) (lastx lasty : Q)
    (a : AxesRef) (ax : Axes) (last_a : list AxesRef) (w : World) : World :=
  let inverse := transData ax in
  let (lastx, lasty) := inverted_transform_point inverse (lastx, lasty) in
  let (x, y) := inverted_transform_point inverse (event_x event, event_y event) in
  let (Xmin, Xmax) := get_xlim ax in
  let (Ymin, Ymax) := get_ylim ax in
  (* detect twinx,y axes and avoid double zooming *)
  let twinx := twin shared_x_axes (figure w) ax last_a in
  let twiny := twin shared_y_axes (figure w) ax last_a in
  let (x0, x1) := if twinx then (Xmin, Xmax) else zoom_to_rect Xmin Xmax x lastx in
  let (y0, y1) := if twiny then (Ymin, Ymax) else zoom_to_rect Ymin Ymax y lasty in
  let do_x (v : Interval) (w : World) :=
    record (call_set_xlim a v) (with_figure (set_xlim a v (figure w)) w) in
  let do_y (v : Interval) (w : World) :=
    record (call_set_ylim a v) (with_figure (set_ylim a v (figure w)) w) in
  let apply (vx vy : Interval) (w : World) :=
    if key_is (_zoom_mode self) "x" then do_x vx w
    else if key_is (_zoom_mode self) "y" then do_y vy w
    else do_y vy (do_x vx w) in
  if button_is (_button_pressed self) 1 then
    apply (x0, x1) (y0, y1) w
  else if button_is (_button_pressed self) 3 then
    apply (zoom_out (get_xscale ax) Xmin Xmax x0 x1)
          (zoom_out (get_yscale ax) Ymin Ymax y0 y1) w
  else w.

(** The [for cur_xypress in self._xypress] loop of [release].  The flag is
    [false] when the loop was left by the early return of a singular
    click; the surfaces handled before it keep their new ranges. *)
Fixpoint release_loop (event : Event) (self : t) (recs : list XYPress)
    (last_a : list AxesRef) (w : World) : bool * World :=
  match recs with
  | [] => (true, w)
  | (lastx, lasty, a, _ind, lim, _trans) :: rest =>
      (* ignore singular clicks - 5 pixels is a threshold *)
      if singular_click event lastx lasty then (false, w)
      else
        match figure w !! a with
        | Some ax =>
            release_loop event self rest (last_a ++ [a])
              (zoom_axes event self lastx lasty a ax last_a w)
        | None => release_loop event self rest last_a w
        end
  end.

(** The release mouse button callback in zoom to rect mode. *)
Definition release (event : Event) (self : t) (w : World) : Outcome * t * World :=
  let w := release_movelock w in
  let w := disconnect_all (_ids_zoom self) w in
  let self := {| _ids_zoom := []; _button_pressed := _button_pressed self;
                 _xypress := _xypress self; _zoom_mode := _zoom_mode self |} in
  match _xypress self with
  | None | Some [] => (Done, self, w)
  | Some recs =>
      match release_loop event self recs [] w with
      | (false, w) =>
          let w := navigation_release event w in
          let w := navigation_draw w in
          (Done,
           {| _ids_zoom := []; _button_pressed := _button_pressed self;
              _xypress := None; _zoom_mode := _zoom_mode self |}, w)
      | (true, w) =>
          let w := navigation_draw w in
          let w := push_current w in
          let w := navigation_release event w in
          (Done,
           {| _ids_zoom := []; _button_pressed := None; _xypress := None;
              _zoom_mode := None |}, w)
      end
  end.

End WithBackend.
End ToolZoom.

(** ** ToolPan *)

Module ToolPan.
Section WithBackend.
Context `{B : Backend}.

(** The attributes of the tool instance; an entry of [self._xypress] is
    [(a, i)]. *)
Record t := mk {
  _button_pressed : option Z;
  _xypress : option (list (AxesRef * nat))
}.

Definition init : t := {| _button_pressed := None; _xypress := None |}.

Definition activate (event : Event) (self : t) (w : World) : Outcome * t * World :=
  let n := navigation w in
  match lock_acquire Pan (canvaslock n) with
  | inl e => (Raised e, self, w)
  | inr l1 =>
      let n := with_canvaslock l1 n in
      match lock_acquire Pan (presslock n) with
      | inl e => (Raised e, self, with_navigation n w)
      | inr l2 =>
          let n := with_presslock l2 n in
          match lock_acquire Pan (releaselock n) with
          | inl e => (Raised e, self, with_navigation n w)
          | inr l3 => (Done, self, with_navigation (with_releaselock l3 n) w)
          end
      end
  end.

Definition deactivate (event : Event) (self : t) (w : World) : Outcome * t * World :=
  let n := navigation w in
  let n := with_canvaslock (lock_release Pan (canvaslock n)) n in
  let n := with_presslock (lock_release Pan (presslock n)) n in
  let n := with_releaselock (lock_release Pan (releaselock n)) n in
  (Done, self, with_navigation n w).

(** Replace the object behind reference [a]. *)
Definition update_axes (a : AxesRef) (f : Axes -> Axes) (w : World) : World :=
  with_figure (alter f a (figure w)) w.

(** The [enumerate] loop of [press]: it starts a pan session on every
    surface under the cursor and takes the move lock each time.  The
    result carries the records appended so far. *)
Fixpoint press_loop (event : Event) (i : nat) (todo : list Axes)
    (recs : list (AxesRef * nat)) (w : World)
  : Outcome * list (AxesRef * nat) * World :=
  match todo with
  | [] => (Done, recs, w)
  | a :: rest =>
      if in_axes a event && get_navigate a && can_pan a then
        let w := record (call_start_pan i (event_x event) (event_y event)
                           (event_button event))
                   (update_axes i
                      (fun ax => start_pan ax (event_x event) (event_y event)
                                   (event_button event)) w) in
        let recs := recs ++ [(i, i)] in
        match lock_acquire Pan (movelock (navigation w)) with
        | inl e => (Raised e, recs, w)
        | inr l =>
            press_loop event (S i) rest recs
              (with_navigation (with_movelock l (navigation w)) w)
        end
      else press_loop event (S i) rest recs w
  end.

Definition press (event : Event) (self : t) (w : World) : Outcome * t * World :=
  if button_is (event_button event) 1 || button_is (event_button event) 3
  then
    let pressed := if button_is (event_button event) 1 then Some 1%Z else Some 3%Z in
    (* push the current view to define home if stack is empty *)
    let w := if empty (views (navigation w)) then push_current w else w in
    match press_loop event 0 (figure w) [] w with
    | (Done, recs, w) =>
        (Done, {| _button_pressed := pressed; _xypress := Some recs |},
         navigation_press event w)
    | (Raised e, recs, w) =>
        (Raised e, {| _button_pressed := pressed; _xypress := Some recs |}, w)
    end
  else
    (Done, {| _button_pressed := None; _xypress := _xypress self |}, w).

(** [for a, _ind in self._xypress: a.end_pan()] *)
Definition end_pan_all (recs : list (AxesRef * nat)) (w : World) : World :=
  fold_left (fun w' (r : AxesRef * nat) =>
               record (call_end_pan r.1) (update_axes r.1 end_pan w')) recs w.

Definition release (event : Event) (self : t) (w : World) : Outcome * t * World :=
  match _button_pressed self with
  | None => (Done, self, w)
  | Some _ =>
      let w := with_navigation
                 (with_movelock (lock_release Pan (movelock (navigation w)))
                    (navigation w)) w in
      match _xypress self with
      | None => (Raised TypeError, self, w)   (* iterating over None *)
      | Some [] => (Done, self, w)
      | Some recs =>
          let w := end_pan_all recs w in
          let w := push_current w in
          let w := navigation_release event w in
          let w := navigation_draw w in
          (Done, {| _button_pressed := None; _xypress := Some [] |}, w)
      end
  end.

(** [for a, _ind in self._xypress: a.drag_pan(self._button_pressed, ...)] *)
Definition drag_pan_all (event : Event) (self : t) (recs : list (AxesRef * nat))
    (w : World) : World :=
  fold_left (fun w' (r : AxesRef * nat) =>
               (* safer to use the recorded button at the press than
                  current button *)
               record (call_drag_pan r.1 (_button_pressed self) (event_key event)
                         (event_x event) (event_y event))
                 (update_axes r.1
                    (fun ax => drag_pan ax (_button_pressed self) (event_key event)
                                 (event_x event) (event_y event)) w')) recs w.

Definition mouse_move (event : Event) (self : t) (w : World) : Outcome * t * World :=
  match _xypress self with
  | None => (Raised TypeError, self, w)   (* iterating over None *)
  | Some recs =>
      (Done, self, record call_dynamic_update (drag_pan_all event self recs w))
  end.

End WithBackend.
End ToolPan.

(** ** The keyboard tools *)

(** A key event as the one-shot tools see it: the event record with its
    [inaxes] attribute, the surface under the cursor when there is one.
    The tools look at the position only after they have found [inaxes]
    set, and an event with a surface under the cursor carries pixel
    coordinates, so their guards [event.x is not None and event.y is not
    None] hold. *)
Record KeyEvent := mkKeyEvent {
  located : Event;
  inaxes : option AxesRef
}.

(** Modelled from the spec: [Axes.set_navigate], the setter of the
    navigation-enabled flag of the plot area. *)
Definition set_navigate (b : bool) (a : Axes) : Axes :=
  {| viewLim := viewLim a; bbox := bbox a;
     get_xscale := get_xscale a; get_yscale := get_yscale a;
     get_navigate := b;
     can_zoom := can_zoom a; can_pan := can_pan a;
     shared_x_axes := shared_x_axes a; shared_y_axes := shared_y_axes a;
     _pan_start := _pan_start a |}.

Module ToolEnableAllNavigation.

Definition activate (event : KeyEvent) (w : World) : World :=
  match inaxes event with
  | None => w
  | Some _ =>
      with_figure
        (map (fun a => if in_axes a (located event) then set_navigate true a else a)
             (figure w)) w
  end.

End ToolEnableAllNavigation.

Module ToolEnableNavigation.

(** What [int(event.key)] raises: [TypeError] without a key, [ValueError]
    for a key that is no integer literal. *)
Inductive IntError := IntTypeError | IntValueError.

Section WithInt.
(** Python's [int] on a string; [None] stands for its [ValueError]. *)
Variable int : string -> option Z.

Definition activate (event : KeyEvent) (w : World) : IntError + World :=
  match inaxes event with
  | None => inr w
  | Some _ =>
      match event_key (located event) with
      | None => inl IntTypeError
      | Some key =>
          match int key with
          | None => inl IntValueError
          | Some k =>
              let n := (k - 1)%Z in
              inr (with_figure
                     (imap (fun i a =>
                              (* consider axes, in which the event was raised *)
                              if in_axes a (located event)
                              then set_navigate (Z.eqb (Z.of_nat i) n) a
                              else a) (figure w)) w)
          end
      end
  end.

End WithInt.
End ToolEnableNavigation.

(** The scale interface of the surface under the cursor: the name of the
    scale of each axis, as [get_xscale()] and [get_yscale()] return it, and
    its setters. *)
Class ScaledAxes (A : Type) := {
  xscale : A -> string;
  set_xscale : string -> A -> A;
  yscale : A -> string;
  set_yscale : string -> A -> A
}.

(** The scale toggles take the surface under the cursor and give it back
    together with the number of calls of [ax.figure.canvas.draw()]. *)
Module ToolToggleYScale.
Section WithAxes.
Context {A : Type} `{ScaledAxes A}.

Definition activate (ax : option A) : option A * nat :=
  match ax with
  | None => (None, 0%nat)
  | Some ax =>
      let scale := yscale ax in
      if String.eqb scale "log" then (Some (set_yscale "linear" ax), 1%nat)
      else if String.eqb scale "linear" then (Some (set_yscale "log" ax), 1%nat)
      else (Some ax, 0%nat)
  end.

End WithAxes.
End ToolToggleYScale.

Module ToolToggleXScale.
Section WithAxes.
Context {A : Type} `{ScaledAxes A}.

Definition activate (ax : option A) : option A * nat :=
  match ax with
  | None => (None, 0%nat)
  | Some ax =>
      let scalex := xscale ax in
      if String.eqb scalex "log" then (Some (set_xscale "linear" ax), 1%nat)
      else if String.eqb scalex "linear" then (Some (set_xscale "log" ax), 1%nat)
      else (Some ax, 0%nat)
  end.

End WithAxes.
End ToolToggleXScale.

(** ** A backend for linear axes *)

Section Linear.
Local Open Scope Q_scope.

(** Modelled from the spec: the pixel-to-data transform of a linear axis,
    the affine map that takes the pixel interval [(b0, b1)] of the
    surface's bounding box onto its range [(lo, hi)]. *)
Definition pixel_to_data (b0 b1 lo hi p : Q) : Q :=
  lo + (p - b0) / (b1 - b0) * (hi - lo).

Definition linear_point (box lim : Bbox) (p : Point) : Point :=
  (pixel_to_data (bb_x0 box) (bb_x1 box) (bb_x0 lim) (bb_x1 lim) (fst p),
   pixel_to_data (bb_y0 box) (bb_y1 box) (bb_y0 lim) (bb_y1 lim) (snd p)).

Definition with_pan_start (s : option (Q * Q * Bbox)) (a : Axes) : Axes :=
  {| viewLim := viewLim a; bbox := bbox a;
     get_xscale := get_xscale a; get_yscale := get_yscale a;
     get_navigate := get_navigate a;
     can_zoom := can_zoom a; can_pan := can_pan a;
     shared_x_axes := shared_x_axes a; shared_y_axes := shared_y_axes a;
     _pan_start := s |}.

(** Modelled from the spec: the pan session of a surface.  [start_pan]
    records the start reference, [end_pan] drops it, and [drag_pan] with
    button 1 moves the recorded range by the data distance dragged. *)
Definition linear_drag_pan (a : Axes) (button : option Z) (key : option string)
    (x y : Q) : Axes :=
  match _pan_start a with
  | Some (sx, sy, lim) =>
      if button_is button 1 then
        let (dx, dy) := linear_point (bbox a) lim (sx, sy) in
        let (ex, ey) := linear_point (bbox a) lim (x, y) in
        with_viewLim
          {| bb_x0 := bb_x0 lim - (ex - dx); bb_y0 := bb_y0 lim - (ey - dy);
             bb_x1 := bb_x1 lim - (ex - dx); bb_y1 := bb_y1 lim - (ey - dy) |} a
      else a
  | None => a
  end.

(** The backend of a figure whose axes are all linear; the logarithm and
    the power are not consulted for such axes and are left trivial. *)
Definition linear_backend : Backend :=
  {| Transform := (Bbox * Bbox)%type;
     transData := fun a => (bbox a, viewLim a);
     inverted_transform_point := fun t p => linear_point (fst t) (snd t) p;
     np_log := fun _ => 0;
     pow := fun _ _ => 0;
     start_pan := fun a x y _ => with_pan_start (Some (x, y, viewLim a)) a;
     drag_pan := linear_drag_pan;
     end_pan := with_pan_start None |}.

End Linear.

(** ** Vocabulary of the statements *)

(** [w'] has the trace of [w] extended by calls that all satisfy [P]. *)
Definition trace_extends (P : Call -> Prop) (w w' : World) : Prop :=
  exists new, trace w' = new ++ trace w /\ Forall P new.

(** The two axes of a surface, for the axis-constrained zoom modes. *)
Inductive AxisName := XAxis | YAxis.

(** The key that constrains the zoom to the axis. *)
Definition axis_key (c : AxisName) : string :=
  match c with XAxis => "x" | YAxis => "y" end.

(** The range of the axis that the constraint [c] leaves out. *)
Definition unconstrained_lim (c : AxisName) (a : Axes) : Interval :=
  match c with XAxis => get_ylim a | YAxis => get_xlim a end.

(** The call sets the range of the axis that the constraint [c] leaves out. *)
Definition sets_unconstrained (c : AxisName) (call : Call) : Prop :=
  match c, call with
  | XAxis, call_set_ylim _ _ => True
  | YAxis, call_set_xlim _ _ => True
  | _, _ => False
  end.

(** The call sets a range. *)
Definition sets_range (call : Call) : Prop :=
  match call with
  | call_set_xlim _ _ | call_set_ylim _ _ => True
  | _ => False
  end.

(** The events the canvas delivers to the armed zoom tool between the
    press and the release: motion goes to [mouse_move] while the tool holds
    the move lock, key events go to the two connected handlers. *)
Inductive Motion :=
| MouseMove (event : Event)
| KeyPress (event : Event)
| KeyRelease (event : Event).

Section Gesture.
Context `{B : Backend}.

Definition deliver (m : Motion) (self : ToolZoom.t) (w : World)
  : Outcome * ToolZoom.t * World :=
  match m with
  | MouseMove event => ToolZoom.mouse_move event self w
  | KeyPress event => ToolZoom._switch_on_zoom_mode event self w
  | KeyRelease event => ToolZoom._switch_off_zoom_mode event self w
  end.

Fixpoint drag (ms : list Motion) (self : ToolZoom.t) (w : World)
  : ToolZoom.t * World :=
  match ms with
  | [] => (self, w)
  | m :: rest => let '(_, self, w) := deliver m self w in drag rest self w
  end.

(** Two lists of press records that differ at most in the frozen
    transforms. *)
Definition same_but_transform (recs1 recs2 : list ToolZoom.XYPress) : Prop :=
  Forall2 (fun r1 r2 : ToolZoom.XYPress => r1.1 = r2.1) recs1 recs2.

End Gesture.

(** The owner holds none of the five channel locks. *)
Definition holds_no_lock (o : Owner) (n : Navigation) : Prop :=
  canvaslock n <> Some o /\ presslock n <> Some o /\ releaselock n <> Some o /\
  movelock n <> Some o /\ keypresslock n <> Some o.

(** The call is a [drag_pan] that was given the button [b]. *)
Definition drags_with (b : option Z) (call : Call) : Prop :=
  match call with
  | call_drag_pan _ b' _ _ _ => b' = b
  | call_dynamic_update => True
  | _ => False
  end.

Section Intervals.
Local Open Scope Q_scope.

(** [x] lies strictly between the two ends of the range, whichever way the
    range is oriented. *)
Definition strictly_inside (lim : Interval) (x : Q) : Prop :=
  (fst lim < x /\ x < snd lim) \/ (snd lim < x /\ x < fst lim).

(** [x] lies between the two ends of the range, ends included. *)
Definition within (lim : Interval) (x : Q) : Prop :=
  (fst lim <= x /\ x <= snd lim) \/ (snd lim <= x /\ x <= fst lim).

(** [v] is the interval spanned by the data points [p] and [q], it lies
    within the range [lim] and it is oriented like [lim]. *)
Definition spans (lim : Interval) (p q : Q) (v : Interval) : Prop :=
  (v = (p, q) \/ v = (q, p)) /\
  within lim (fst v) /\ within lim (snd v) /\
  (fst lim < snd lim -> fst v <= snd v) /\
  (snd lim < fst lim -> snd v <= fst v).

(** Equality of intervals as rational numbers. *)
Definition interval_eq (u v : Interval) : Prop :=
  fst u == fst v /\ snd u == snd v.

End Intervals.

(** The part of a surface that no range-setting operation changes. *)
Definition static (a : Axes) : Axes := with_viewLim (mkBbox 0 0 0 0) a.

(** The two surfaces share neither their x axis nor their y axis. *)
Definition not_joined (ax other : Axes) : Prop :=
  joined (shared_x_axes ax) (shared_x_axes other) = false /\
  joined (shared_y_axes ax) (shared_y_axes other) = false.

(** The surface behind reference [j], when there is one, shares no axis
    with [ax]. *)
Definition isolated_from (fig : list Axes) (ax : Axes) (j : AxesRef) : Prop :=
  forall ax', fig !! j = Some ax' -> not_joined ax ax'.

(** All surfaces joined with [a] on the axis of [group], and [a] itself,
    have the range [v] on that axis; [g] is the group of [a]. *)
Definition group_holds (group : Axes -> option nat) (get : Axes -> Interval)
    (a : AxesRef) (g : option nat) (v : Interval) (fig : list Axes) : Prop :=
  (exists axa, fig !! a = Some axa /\ group axa = g /\ get axa = v) /\
  (forall m axm, fig !! m = Some axm -> joined g (group axm) = true -> get axm = v).

(** A surface recorded after [ax] may share an axis with it, provided
    that axis is linear on it as well: a [twinx] or [twiny] surface drawn
    on top of [ax]. *)
Definition linear_twin (ax other : Axes) : Prop :=
  (joined (shared_x_axes ax) (shared_x_axes other) = true ->
   get_xscale other = LinearScale) /\
  (joined (shared_y_axes ax) (shared_y_axes other) = true ->
   get_yscale other = LinearScale).

Definition linear_twin_at (fig : list Axes) (ax : Axes) (j : AxesRef) : Prop :=
  forall axj, fig !! j = Some axj -> linear_twin ax axj.

(** [group_holds] up to equality of rationals. *)
Definition group_holds_eq (group : Axes -> option nat) (get : Axes -> Interval)
    (a : AxesRef) (g : option nat) (v : Interval) (fig : list Axes) : Prop :=
  exists v', interval_eq v' v /\ group_holds group get a g v' fig.

Section Records.
Context `{B : Backend}.

(** The surface and the press point of a press record. *)
Definition record_ref (r : ToolZoom.XYPress) : AxesRef := r.1.1.1.2.
Definition record_point (r : ToolZoom.XYPress) : Point := r.1.1.1.1.

(** The release at [event] is not a singular click for this record. *)
Definition passes_threshold (event : Event) (r : ToolZoom.XYPress) : Prop :=
  ToolZoom.singular_click event (fst (record_point r)) (snd (record_point r))
  = false.

End Records.

(** The event [e] with its button replaced. *)
Definition with_button (b : Z) (e : Event) : Event :=
  {| event_button := Some b; event_key := event_key e;
     event_x := event_x e; event_y := event_y e |}.

(** The test of the [enumerate] loop of the zoom press: the surface is
    under the cursor, enabled for navigation and able to zoom. *)
Definition recorded (event : Event) (a : Axes) : bool :=
  in_axes a event && get_navigate a && can_zoom a.

Section Gestures.
Context `{B : Backend}.

(** A whole zoom gesture with button [b]: the press at the point of [e0],
    then the release at [e1]. *)
Definition zoom_gesture (b : Z) (e0 e1 : Event) (sw : ToolZoom.t * World)
  : ToolZoom.t * World :=
  let '(_, self, w) := ToolZoom.press (with_button b e0) sw.1 sw.2 in
  let '(_, self, w) := ToolZoom.release e1 self w in
  (self, w).

(** The backend maps pixels to data on a linear axis by the affine map
    that takes the bounding box onto the current range. *)
Definition linear_transform : Prop :=
  forall (ax : Axes) (p : Point),
    (get_xscale ax = LinearScale ->
     fst (inverted_transform_point (transData ax) p)
     = pixel_to_data (bb_x0 (bbox ax)) (bb_x1 (bbox ax))
         (bb_x0 (viewLim ax)) (bb_x1 (viewLim ax)) (fst p)) /\
    (get_yscale ax = LinearScale ->
     snd (inverted_transform_point (transData ax) p)
     = pixel_to_data (bb_y0 (bbox ax)) (bb_y1 (bbox ax))
         (bb_y0 (viewLim ax)) (bb_y1 (viewLim ax)) (snd p)).

End Gestures.

(** The test of the [enumerate] loop of the pan press: the surface is
    under the cursor, enabled for navigation and able to pan. *)
Definition pan_recorded (event : Event) (a : Axes) : bool :=
  in_axes a event && get_navigate a && can_pan a.

(** The calls the dispatcher can make on the pan tool. *)
Inductive PanInput :=
| PanActivate (event : Event)
| PanDeactivate (event : Event)
| PanPress (event : Event)
| PanRelease (event : Event)
| PanMouseMove (event : Event).

Section PanGesture.
Context `{B : Backend}.

Definition pan_deliver (i : PanInput) (self : ToolPan.t) (w : World)
  : Outcome * ToolPan.t * World :=
  match i with
  | PanActivate event => ToolPan.activate event self w
  | PanDeactivate event => ToolPan.deactivate event self w
  | PanPress event => ToolPan.press event self w
  | PanRelease event => ToolPan.release event self w
  | PanMouseMove event => ToolPan.mouse_move event self w
  end.

(** A run of the tool; a raised exception ends the handler, not the
    program, and the next call finds the state the handler left. *)
Fixpoint pan_run (ins : list PanInput) (self : ToolPan.t) (w : World)
  : ToolPan.t * World :=
  match ins with
  | [] => (self, w)
  | i :: rest => let '(_, self, w) := pan_deliver i self w in pan_run rest self w
  end.


(** The surface after the press loop has passed it. *)
Definition started (event : Event) (ax : Axes) : Axes :=
  if pan_recorded event ax
  then start_pan ax (event_x event) (event_y event) (event_button event)
  else ax.

(** The records are there whenever the button is, and whenever the tool
    holds the move lock. *)
Definition pan_records_present (self : ToolPan.t) (w : World) : Prop :=
  (ToolPan._button_pressed self <> None -> ToolPan._xypress self <> None) /\
  (movelock (navigation w) = Some Pan -> ToolPan._xypress self <> None).

End PanGesture.

(** The axis constraint a key event leaves behind: a key press sets it to
    its key, a key release clears it, whatever the key. *)
Definition mode_after (mode : option string) (m : Motion) : option string :=
  match m with
  | MouseMove _ => mode
  | KeyPress event => event_key event
  | KeyRelease _ => None
  end.

Section RecordPairs.
Context `{B : Backend}.

(** Two lists of press records that agree on the press points and the
    surfaces. *)
Definition same_point_and_surface (recs1 recs2 : list ToolZoom.XYPress) : Prop :=
  Forall2 (fun r1 r2 : ToolZoom.XYPress =>
             record_point r1 = record_point r2 /\ record_ref r1 = record_ref r2)
          recs1 recs2.

End RecordPairs.

(** The range of the axis that the constraint [c] names. *)
Definition constrained_lim (c : AxisName) (a : Axes) : Interval :=
  match c with XAxis => get_xlim a | YAxis => get_ylim a end.

(** The coordinate of a data point on the axis that the constraint [c]
    names. *)
Definition coordinate (c : AxisName) (p : Point) : Q :=
  match c with XAxis => fst p | YAxis => snd p end.

(** ** Sample figures *)

Section Samples.
Local Open Scope Q_scope.

(** A linear surface with both ranges [(0, 10)] drawn on the pixel square
    [(0, 100)]. *)
Definition sample_axes : Axes :=
  {| viewLim := mkBbox 0 0 10 10; bbox := mkBbox 0 0 100 100;
     get_xscale := LinearScale; get_yscale := LinearScale;
     get_navigate := true; can_zoom := true; can_pan := true;
     shared_x_axes := None; shared_y_axes := None; _pan_start := None |}.

Definition idle_navigation : Navigation :=
  {| canvaslock := None; presslock := None; releaselock := None;
     movelock := None; keypresslock := None;
     views := {| elements := []; pos := 0 |} |}.

Definition sample_world : World :=
  {| figure := [sample_axes]; navigation := idle_navigation;
     callbacks := []; next_cid := 0; trace := [] |}.

(** A mouse event without a key. *)
Definition mouse (b : Z) (x y : Q) : Event :=
  {| event_button := Some b; event_key := None; event_x := x; event_y := y |}.

(** The zoom tool and the world after a button-1 press at pixel
    [(20, 20)]. *)
Definition armed : ToolZoom.t (B := linear_backend) * World :=
  let '(_, self, w) :=
    ToolZoom.press (B := linear_backend) (mouse 1 20 20) ToolZoom.init sample_world in
  (self, w).

(** The same, with the x key held. *)
Definition armed_x : ToolZoom.t (B := linear_backend) * World :=
  (ToolZoom.with_zoom_mode (Some "x"%string) armed.1, armed.2).

(** The world of [armed] after something else has set the x-range of the
    surface to [(0, 20)] between the press and the release. *)
Definition armed_moved : ToolZoom.t (B := linear_backend) * World :=
  (armed.1, with_figure (set_xlim 0 (0, 20) (figure armed.2)) armed.2).

(** The tool of [armed] with another frozen transform in its press
    record. *)
Definition armed_refrozen : ToolZoom.t (B := linear_backend) :=
  {| ToolZoom._ids_zoom := [0; 1]%nat;
     ToolZoom._button_pressed := Some 1%Z;
     ToolZoom._xypress :=
       Some [(20, 20, 0%nat, 0%nat, viewLim sample_axes,
              ((mkBbox 0 0 50 50, mkBbox 0 0 1 1) : @Transform linear_backend))];
     ToolZoom._zoom_mode := None |}.

(** The pan tool and the world after a button-1 press at pixel
    [(20, 20)]. *)
Definition panning : ToolPan.t * World :=
  let '(_, self, w) :=
    ToolPan.press (B := linear_backend) (mouse 1 20 20) ToolPan.init sample_world in
  (self, w).

(** Two surfaces that share their x axis; the second one is twice as wide
    on the canvas. *)
Definition twin_first : Axes :=
  {| viewLim := mkBbox 0 0 10 10; bbox := mkBbox 0 0 100 100;
     get_xscale := LinearScale; get_yscale := LinearScale;
     get_navigate := true; can_zoom := true; can_pan := true;
     shared_x_axes := Some 0%nat; shared_y_axes := None; _pan_start := None |}.

Definition twin_second : Axes :=
  {| viewLim := mkBbox 0 0 10 10; bbox := mkBbox 0 0 200 100;
     get_xscale := LinearScale; get_yscale := LinearScale;
     get_navigate := true; can_zoom := true; can_pan := true;
     shared_x_axes := Some 0%nat; shared_y_axes := None; _pan_start := None |}.

Definition twin_world : World :=
  {| figure := [twin_first; twin_second]; navigation := idle_navigation;
     callbacks := []; next_cid := 0; trace := [] |}.

Definition twin_armed : ToolZoom.t (B := linear_backend) * World :=
  let '(_, self, w) :=
    ToolZoom.press (B := linear_backend) (mouse 1 20 20) ToolZoom.init twin_world in
  (self, w).

End Samples.

Section MoreSamples.
Local Open Scope Q_scope.

(** A key event at a pixel position. *)
Definition key_at (key : string) (x y : Q) (a : option AxesRef) : KeyEvent :=
  {| located := {| event_button := None; event_key := Some key;
                   event_x := x; event_y := y |};
     inaxes := a |}.

(** [int] on the keys of the keymap of [ToolEnableNavigation], the digits
    from 1 to 9. *)
Definition int_of_digit (key : string) : option Z :=
  match key with
  | String c EmptyString =>
      let n := Ascii.nat_of_ascii c in
      if (49 <=? n)%nat && (n <=? 57)%nat then Some (Z.of_nat (n - 48)) else None
  | _ => None
  end.

(** A surface that is nothing but its two scale names. *)
Definition scale_names : ScaledAxes (string * string) :=
  {| xscale := fst; set_xscale := fun s a => (s, snd a);
     yscale := snd; set_yscale := fun s a => (fst a, s) |}.

End MoreSamples.

(** ** Tactics *)

(** Case analysis on every comparison of rationals in the goal. *)
Ltac split_comparisons :=
  repeat match goal with
         | |- context [Qlt_le_dec ?a ?b] => destruct (Qlt_le_dec a b)
         end.

(** Case analysis on the pairs and the tests of the loop body of the zoom
    release. *)
Ltac split_zoom_axes :=
  unfold ToolZoom.zoom_axes;
  repeat match goal with
         | |- context [let (_, _) := ?p in _] => destruct p
         | |- context [if ?b then _ else _] => destruct b
         end.

(** * Properties *)

(** ** What the bookkeeping helpers leave alone *)

Section Helpers.

Lemma figure_disconnect_all ids w :
  figure (ToolZoom.disconnect_all ids w) = figure w.
Proof.
  revert w. induction ids as [|cid ids IH]; intros w; [reflexivity|].
  simpl. rewrite IH. reflexivity.
Qed.

Lemma navigation_disconnect_all ids w :
  navigation (ToolZoom.disconnect_all ids w) = navigation w.
Proof.
  revert w. induction ids as [|cid ids IH]; intros w; [reflexivity|].
  simpl. rewrite IH. reflexivity.
Qed.

Lemma trace_disconnect_all ids w :
  trace (ToolZoom.disconnect_all ids w) = trace w.
Proof.
  revert w. induction ids as [|cid ids IH]; intros w; [reflexivity|].
  simpl. rewrite IH. reflexivity.
Qed.

(** After the loop of disconnections a callback is still registered exactly
    when it was registered before and its id is not among the given ones. *)
Lemma callbacks_disconnect_all ids w c :
  c ∈ callbacks (ToolZoom.disconnect_all ids w) ↔
  c ∈ callbacks w ∧ c.1.1 ∉ ids.
Proof.
  revert w. induction ids as [|cid ids IH]; intros w; simpl.
  - split; [intros H; split; [exact H | apply not_elem_of_nil] | tauto].
  - rewrite IH. unfold mpl_disconnect; simpl.
    rewrite list_elem_of_filter, not_elem_of_cons. tauto.
Qed.

Lemma lock_release_not_owner o l : lock_release o l ≠ Some o.
Proof.
  destruct l as [h|]; simpl; [|discriminate].
  destruct (decide (h = o)); congruence.
Qed.

End Helpers.

(** ** Cancelling an armed zoom *)

Section ZoomCancel.
Context `{B : Backend}.
Import ToolZoom.

(** C8.  A press that arrives while the zoom tool is armed (its key
    listeners are registered), whatever its button, cancels the gesture:
    the move lock is released, the listeners are disconnected, the press
    records, the recorded button and the listener ids are back at their
    idle values, and no range and no view is touched. *)
Theorem press_while_armed_cancels (event : Event) (self : t) (w : World) :
  _ids_zoom self ≠ [] →
  ∃ self' w',
    press event self w = (Done, self', w') ∧
    movelock (navigation w') = lock_release Zoom (movelock (navigation w)) ∧
    movelock (navigation w') ≠ Some Zoom ∧
    (∀ c, c ∈ callbacks w' → c ∈ callbacks w ∧ c.1.1 ∉ _ids_zoom self) ∧
    _xypress self' = None ∧ _button_pressed self' = None ∧
    _ids_zoom self' = [] ∧
    figure w' = figure w ∧
    views (navigation w') = views (navigation w).
Proof.
  intros Harmed. unfold press.
  destruct (_ids_zoom self) as [|cid ids] eqn:Hids; [congruence|].
  eexists _, _. split; [reflexivity|].
  simpl. rewrite !navigation_disconnect_all, !figure_disconnect_all. simpl.
  repeat split; try reflexivity.
  - apply lock_release_not_owner.
  - apply (callbacks_disconnect_all (cid :: ids)) in H. apply H.
  - apply (callbacks_disconnect_all (cid :: ids)) in H. apply H.
Qed.

End ZoomCancel.

(** ** The loop of the zoom release *)

Section ZoomLoop.
Context `{B : Backend}.
Import ToolZoom.

Lemma trace_extends_refl P w : trace_extends P w w.
Proof. exists []. split; [reflexivity | constructor]. Qed.

Lemma trace_extends_trans P w1 w2 w3 :
  trace_extends P w1 w2 → trace_extends P w2 w3 → trace_extends P w1 w3.
Proof.
  intros (n1 & E1 & F1) (n2 & E2 & F2). exists (n2 ++ n1). split.
  - rewrite E2, E1. apply app_assoc.
  - apply Forall_app; split; assumption.
Qed.

Lemma trace_extends_record (P : Call -> Prop) c w :
  P c → trace_extends P w (record c w).
Proof. intros H. exists [c]. split; [reflexivity | repeat constructor; exact H]. Qed.

Lemma trace_extends_with_figure P f w : trace_extends P w (with_figure f w).
Proof. exists []. split; [reflexivity | constructor]. Qed.

Lemma lookup_set_lim group upd a v fig i :
  set_lim group upd a v fig !! i =
  match fig !! a with
  | Some ax =>
      (fun other =>
         if Nat.eqb i a || joined (group ax) (group other)
         then upd v other else other) <$> fig !! i
  | None => fig !! i
  end.
Proof.
  unfold set_lim. destruct (fig !! a); [apply list_lookup_imap | reflexivity].
Qed.

(** A property of worlds that every pass through the loop body keeps is
    kept by the whole loop. *)
Lemma release_loop_preserves (P : World -> Prop) event self :
  (∀ lastx lasty a ax last_a w,
      P w → P (zoom_axes event self lastx lasty a ax last_a w)) →
  ∀ recs last_a w, P w → P (release_loop event self recs last_a w).2.
Proof.
  intros Hbody. induction recs as [|r recs IH]; intros last_a w Hw; [exact Hw|].
  destruct r as [[[[[lastx lasty] a] i] lim] tr]. simpl.
  destruct (singular_click event lastx lasty); [exact Hw|].
  destruct (figure w !! a) as [ax|]; [|apply IH; exact Hw].
  apply IH, Hbody, Hw.
Qed.

(** The loop body only sets ranges: it leaves the navigation object and
    the canvas alone and adds only range-setting calls to the trace. *)
Lemma navigation_zoom_axes event self lastx lasty a ax last_a w :
  navigation (zoom_axes event self lastx lasty a ax last_a w) = navigation w.
Proof.
  split_zoom_axes; reflexivity.
Qed.

Lemma trace_zoom_axes event self lastx lasty a ax last_a w :
  trace_extends sets_range w (zoom_axes event self lastx lasty a ax last_a w).
Proof.
  split_zoom_axes;
    repeat first
      [ apply trace_extends_refl
      | eapply trace_extends_trans;
        [| apply trace_extends_record; exact I ]
      | apply trace_extends_with_figure ].
Qed.

Lemma navigation_release_loop event self recs last_a w :
  navigation (release_loop event self recs last_a w).2 = navigation w.
Proof.
  apply (release_loop_preserves (fun w' => navigation w' = navigation w));
    [|reflexivity].
  intros. rewrite navigation_zoom_axes. assumption.
Qed.

End ZoomLoop.

(** ** Releases that change nothing *)

Section ZoomAbort.
Context `{B : Backend}.
Import ToolZoom.
Local Open Scope Q_scope.

Lemma singular_click_iff event lastx lasty :
  singular_click event lastx lasty = true ↔
  Qabs (event_x event - lastx) < 5 ∨ Qabs (event_y event - lasty) < 5.
Proof.
  unfold singular_click.
  destruct (Qlt_le_dec (Qabs (event_x event - lastx)) 5) as [Hx|Hx];
    destruct (Qlt_le_dec (Qabs (event_y event - lasty)) 5) as [Hy|Hy];
    simpl; split; intros H; try tauto; try discriminate.
  destruct H as [H|H]; [apply Qlt_not_le in H | apply Qlt_not_le in H];
    contradiction.
Qed.

(** The release of a gesture whose first record is below the threshold:
    the early return inside the loop. *)
Lemma release_singular event self w lastx lasty a i lim tr rest :
  _xypress self = Some ((lastx, lasty, a, i, lim, tr) :: rest) →
  singular_click event lastx lasty = true →
  release event self w =
    (Done,
     {| _ids_zoom := []; _button_pressed := _button_pressed self;
        _xypress := None; _zoom_mode := _zoom_mode self |},
     navigation_draw
       (navigation_release event
          (disconnect_all (_ids_zoom self) (release_movelock w)))).
Proof.
  intros Hrecs Hclick. unfold release. rewrite Hrecs. simpl.
  rewrite Hclick. reflexivity.
Qed.

(** The release of a gesture without press records: the early return
    before the loop. *)
Lemma release_no_records event self w :
  _xypress self = None ∨ _xypress self = Some [] →
  release event self w =
    (Done,
     {| _ids_zoom := []; _button_pressed := _button_pressed self;
        _xypress := _xypress self; _zoom_mode := _zoom_mode self |},
     disconnect_all (_ids_zoom self) (release_movelock w)).
Proof.
  intros [H|H]; unfold release; rewrite H; reflexivity.
Qed.

(** C10.  The threshold test is a disjunction: when the x pixel delta or
    the y pixel delta between the press point and the release point is
    below 5, the release returns early, whatever the zoom mode and the
    button: no range is set, the surfaces and the view stack are as
    before, and the press records are dropped. *)
Theorem release_below_threshold_on_either_axis
    (event : Event) (self : t) (w : World) (recs : list XYPress) (px py : Q) :
  _xypress self = Some recs →
  Forall (fun r : XYPress => record_point r = (px, py)) recs →
  Qabs (event_x event - px) < 5 ∨ Qabs (event_y event - py) < 5 →
  ∃ self' w',
    release event self w = (Done, self', w') ∧
    figure w' = figure w ∧
    views (navigation w') = views (navigation w) ∧
    trace_extends (fun c => ¬ sets_range c ∧ c ≠ call_push_current) w w'.
Proof.
  intros Hrecs Hpoint Hclose.
  destruct recs as [|[[[[[lastx lasty] a] i] lim] tr] rest].
  - rewrite release_no_records by (right; exact Hrecs).
    eexists _, _. split; [reflexivity|].
    rewrite figure_disconnect_all, navigation_disconnect_all. simpl.
    split; [reflexivity|]. split; [reflexivity|].
    exists []. split; [rewrite trace_disconnect_all; reflexivity | constructor].
  - apply Forall_cons in Hpoint as [Hp _]. unfold record_point in Hp.
    simpl in Hp. inversion Hp; subst.
    rewrite (release_singular _ _ _ _ _ _ _ _ _ _ Hrecs)
      by (apply singular_click_iff; exact Hclose).
    eexists _, _. split; [reflexivity|]. simpl.
    rewrite figure_disconnect_all, navigation_disconnect_all. simpl.
    split; [reflexivity|]. split; [reflexivity|].
    exists [call_draw; call_navigation_release].
    split; [simpl; rewrite trace_disconnect_all; reflexivity|].
    repeat constructor; simpl; try tauto; discriminate.
Qed.

End ZoomAbort.

Section ReleaseWithoutPress.
Context `{B : Backend}.

(** C9.  A release that finds no press record is a no-op on the program
    state: for the zoom tool when [_xypress] is absent or empty, for the
    pan tool when no button is recorded as pressed or the record list is
    empty.  The handler returns normally, no surface changes, no view is
    pushed and no collaborator is called. *)
Theorem release_without_press_is_noop
    (event : Event) (z : ToolZoom.t) (p : ToolPan.t) (w : World) :
  ToolZoom._xypress z = None ∨ ToolZoom._xypress z = Some [] →
  ToolPan._button_pressed p = None ∨ ToolPan._xypress p = Some [] →
  (∃ z' w',
      ToolZoom.release event z w = (Done, z', w') ∧
      figure w' = figure w ∧
      views (navigation w') = views (navigation w) ∧
      trace w' = trace w) ∧
  (∃ p' w',
      ToolPan.release event p w = (Done, p', w') ∧
      figure w' = figure w ∧
      views (navigation w') = views (navigation w) ∧
      trace w' = trace w).
Proof.
  intros Hz Hp. split.
  - rewrite release_no_records by exact Hz.
    eexists _, _. split; [reflexivity|].
    rewrite figure_disconnect_all, navigation_disconnect_all,
      trace_disconnect_all.
    repeat split.
  - unfold ToolPan.release.
    destruct (ToolPan._button_pressed p) as [b|] eqn:Hb.
    + destruct Hp as [Hp|Hp]; [discriminate|]. rewrite Hp.
      eexists _, _. split; [reflexivity|]. repeat split.
    + eexists _, _. split; [reflexivity|]. repeat split.
Qed.

End ReleaseWithoutPress.

(** ** The singular click *)

Section SingularClick.
Context `{B : Backend}.
Import ToolZoom.
Local Open Scope Q_scope.

Lemma press_records_from_point event i todo :
  Forall (fun r : XYPress => record_point r = (event_x event, event_y event))
         (press_records_from event i todo).
Proof.
  revert i. induction todo as [|a rest IH]; intros i; simpl; [constructor|].
  destruct (in_axes a event && get_navigate a && can_zoom a);
    [constructor; [reflexivity|] |]; apply IH.
Qed.

(** What an arming press leaves behind. *)
Lemma press_arms event self w o self1 w1 :
  _ids_zoom self = [] →
  button_is (event_button event) 1 || button_is (event_button event) 3 = true →
  press event self w = (o, self1, w1) →
  _xypress self1 = Some (press_records event (figure w)) ∧
  figure w1 = figure w ∧
  views (navigation w1) =
    (if empty (views (navigation w))
     then push (current_view (figure w)) (views (navigation w))
     else views (navigation w)).
Proof.
  intros Hidle Hbutton. unfold press. rewrite Hidle, Hbutton.
  destruct (empty (views (navigation w))); simpl;
    match goal with
    | |- context [lock_acquire ?o ?l] => destruct (lock_acquire o l)
    end; simpl; intros [= <- <- <-]; simpl; repeat split.
Qed.

(** Motion and key events between press and release change neither the
    surfaces, nor the navigation object, nor the press records. *)
Lemma deliver_frame m self w :
  figure (deliver m self w).2 = figure w ∧
  navigation (deliver m self w).2 = navigation w ∧
  _xypress (deliver m self w).1.2 = _xypress self ∧
  _button_pressed (deliver m self w).1.2 = _button_pressed self.
Proof.
  assert (Hmove : ∀ event s,
             figure (mouse_move event s w).2 = figure w ∧
             navigation (mouse_move event s w).2 = navigation w ∧
             (mouse_move event s w).1.2 = s).
  { intros event s. unfold mouse_move.
    destruct (_xypress s) as [[|[[[[[lastx lasty] a] i] lim] tr] rest]|];
      simpl; try (repeat split; reflexivity).
    destruct (figure w !! a) as [ax|]; simpl; [|repeat split].
    destruct (key_is (_zoom_mode s) "x"); [repeat split|].
    destruct (key_is (_zoom_mode s) "y"); repeat split. }
  destruct m as [event|event|event]; simpl;
    unfold _switch_on_zoom_mode, _switch_off_zoom_mode;
    match goal with
    | |- context [mouse_move ?e ?s w] =>
        destruct (Hmove e s) as (Hf & Hn & Hs); rewrite Hf, Hn, ?Hs
    end; repeat split.
Qed.

Lemma drag_frame ms self w :
  figure (drag ms self w).2 = figure w ∧
  navigation (drag ms self w).2 = navigation w ∧
  _xypress (drag ms self w).1 = _xypress self ∧
  _button_pressed (drag ms self w).1 = _button_pressed self.
Proof.
  revert self w. induction ms as [|m ms IH]; intros self w; simpl;
    [repeat split|].
  destruct (deliver_frame m self w) as (Hf & Hn & Hx & Hb).
  destruct (deliver m self w) as [[o self'] w']. simpl in *.
  destruct (IH self' w') as (Hf' & Hn' & Hx' & Hb').
  rewrite Hf', Hn', Hx', Hb', Hf, Hn, Hx, Hb. repeat split.
Qed.

(** C5.  A zoom gesture (an arming press, any motion and key events, the
    release) whose release point is less than 5 pixels away from the press
    point in x and in y is a singular click: the release sets no range and
    pushes no view; the surfaces are those from before the press, and so
    is the view stack unless it was empty, in which case it holds the home
    view that the press pushed. *)
Theorem singular_click_keeps_view
    (e0 e1 : Event) (ms : list Motion) (self self1 : t) (w w1 : World) :
  _ids_zoom self = [] →
  button_is (event_button e0) 1 || button_is (event_button e0) 3 = true →
  press e0 self w = (Done, self1, w1) →
  Qabs (event_x e1 - event_x e0) < 5 →
  Qabs (event_y e1 - event_y e0) < 5 →
  ∃ self3 w3,
    release e1 (drag ms self1 w1).1 (drag ms self1 w1).2 = (Done, self3, w3) ∧
    figure w3 = figure w ∧
    views (navigation w3) = views (navigation w1) ∧
    (empty (views (navigation w)) = false →
     views (navigation w3) = views (navigation w)) ∧
    trace_extends (fun c => ¬ sets_range c ∧ c ≠ call_push_current)
      (drag ms self1 w1).2 w3.
Proof.
  intros Hidle Hbutton Hpress Hdx Hdy.
  destruct (press_arms _ _ _ _ _ _ Hidle Hbutton Hpress) as (Hrecs & Hfig & Hviews).
  destruct (drag_frame ms self1 w1) as (Hf & Hn & Hx & _).
  destruct (drag ms self1 w1) as [self2 w2]. simpl in *.
  rewrite Hrecs in Hx.
  assert (Hstack : empty (views (navigation w)) = false →
                   views (navigation w1) = views (navigation w)).
  { intros He. rewrite Hviews, He. reflexivity. }
  pose proof (press_records_from_point e0 0 (figure w)) as Hpoint.
  fold (press_records e0 (figure w)) in Hpoint.
  destruct (press_records e0 (figure w))
    as [|[[[[[lastx lasty] a] i] lim] tr] rest].
  - rewrite release_no_records by (right; exact Hx).
    eexists _, _. split; [reflexivity|].
    rewrite figure_disconnect_all, navigation_disconnect_all. simpl.
    rewrite Hf, Hn, Hfig.
    split; [reflexivity|]. split; [reflexivity|]. split; [exact Hstack|].
    exists []. split; [rewrite trace_disconnect_all; reflexivity | constructor].
  - apply Forall_cons in Hpoint as [Hp _]. unfold record_point in Hp.
    simpl in Hp. inversion Hp; subst.
    rewrite (release_singular _ _ _ _ _ _ _ _ _ _ Hx)
      by (apply singular_click_iff; left; exact Hdx).
    eexists _, _. split; [reflexivity|]. simpl.
    rewrite figure_disconnect_all, navigation_disconnect_all. simpl.
    rewrite Hf, Hn, Hfig.
    split; [reflexivity|]. split; [reflexivity|]. split; [exact Hstack|].
    exists [call_draw; call_navigation_release].
    split; [simpl; rewrite trace_disconnect_all; reflexivity|].
    repeat constructor; simpl; try tauto; discriminate.
Qed.

End SingularClick.

(** ** Axis-constrained zoom *)

Section Constrained.
Context `{B : Backend}.
Import ToolZoom.

Lemma get_ylim_set_xlim a v fig i :
  get_ylim <$> set_xlim a v fig !! i = get_ylim <$> fig !! i.
Proof.
  unfold set_xlim. rewrite lookup_set_lim.
  destruct (fig !! a) as [ax|]; [|reflexivity].
  destruct (fig !! i) as [other|]; [|reflexivity]. simpl.
  destruct (Nat.eqb i a || joined (shared_x_axes ax) (shared_x_axes other));
    reflexivity.
Qed.

Lemma get_xlim_set_ylim a v fig i :
  get_xlim <$> set_ylim a v fig !! i = get_xlim <$> fig !! i.
Proof.
  unfold set_ylim. rewrite lookup_set_lim.
  destruct (fig !! a) as [ax|]; [|reflexivity].
  destruct (fig !! i) as [other|]; [|reflexivity]. simpl.
  destruct (Nat.eqb i a || joined (shared_y_axes ax) (shared_y_axes other));
    reflexivity.
Qed.

(** One pass through the loop body under an axis constraint. *)
Lemma zoom_axes_constrained c event self lastx lasty a ax last_a w :
  _zoom_mode self = Some (axis_key c) →
  (∀ i, unconstrained_lim c
          <$> figure (zoom_axes event self lastx lasty a ax last_a w) !! i
        = unconstrained_lim c <$> figure w !! i) ∧
  trace_extends (fun call => ¬ sets_unconstrained c call) w
    (zoom_axes event self lastx lasty a ax last_a w).
Proof.
  intros Hmode. unfold zoom_axes. rewrite Hmode.
  repeat match goal with
         | |- context [let (_, _) := ?p in _] => destruct p
         end.
  destruct c; simpl;
    repeat match goal with
           | |- context [if ?b then _ else _] => destruct b
           end;
    (split;
     [ intros i; simpl; first [apply get_ylim_set_xlim | apply get_xlim_set_ylim | reflexivity]
     | first [ apply trace_extends_refl
             | eapply trace_extends_trans;
               [apply trace_extends_with_figure
               | apply trace_extends_record; simpl; tauto] ] ]).
Qed.

(** C6.  A zoom release under the x constraint sets no y-range, and one
    under the y constraint sets no x-range, for either button: the range
    of the unconstrained axis of every surface is as before the release
    and no call that sets it is made.  The drag callback changes no
    surface at all. *)
Theorem constrained_zoom_keeps_other_axis
    (c : AxisName) (event : Event) (self : t) (w : World) :
  _zoom_mode self = Some (axis_key c) →
  (∀ i, unconstrained_lim c <$> figure (release event self w).2 !! i
        = unconstrained_lim c <$> figure w !! i) ∧
  trace_extends (fun call => ¬ sets_unconstrained c call) w
    (release event self w).2 ∧
  figure (mouse_move event self w).2 = figure w.
Proof.
  intros Hmode.
  set (Q := fun call => ¬ sets_unconstrained c call).
  set (w0 := disconnect_all (_ids_zoom self) (release_movelock w)).
  assert (Hw0 : (∀ i, unconstrained_lim c <$> figure w0 !! i
                      = unconstrained_lim c <$> figure w !! i) ∧
                trace_extends Q w w0).
  { unfold w0. rewrite figure_disconnect_all. split; [reflexivity|].
    exists []. split; [rewrite trace_disconnect_all; reflexivity | constructor]. }
  assert (Hmove : figure (mouse_move event self w).2 = figure w).
  { destruct (deliver_frame (MouseMove event) self w) as [H _]. exact H. }
  assert (Hrel : (∀ i, unconstrained_lim c <$> figure (release event self w).2 !! i
                       = unconstrained_lim c <$> figure w !! i) ∧
                 trace_extends Q w (release event self w).2);
    [|destruct Hrel; repeat split; assumption].
  unfold release. fold w0.
  cbn [_xypress].
  destruct (_xypress self) as [[|r recs]|]; try exact Hw0.
  set (self0 := {| _ids_zoom := []; _button_pressed := _button_pressed self;
                   _xypress := Some (r :: recs); _zoom_mode := _zoom_mode self |}).
  assert (Hloop :
    (∀ i, unconstrained_lim c
            <$> figure (release_loop event self0 (r :: recs) [] w0).2 !! i
          = unconstrained_lim c <$> figure w !! i) ∧
    trace_extends Q w (release_loop event self0 (r :: recs) [] w0).2).
  { apply (release_loop_preserves
             (fun w' => (∀ i, unconstrained_lim c <$> figure w' !! i
                              = unconstrained_lim c <$> figure w !! i) ∧
                        trace_extends Q w w')); [|exact Hw0].
    intros lastx lasty a ax last_a w' [Hfig Htr].
    destruct (zoom_axes_constrained c event self0 lastx lasty a ax last_a w' Hmode)
      as [Hfig' Htr'].
    split.
    - intros i. rewrite Hfig'. apply Hfig.
    - eapply trace_extends_trans; [exact Htr | exact Htr']. }
  destruct (release_loop event self0 (r :: recs) [] w0) as [[|] wl];
    destruct Hloop as [Hfig Htr]; simpl in *.
  - split; [exact Hfig|].
    eapply trace_extends_trans; [exact Htr|].
    exists [call_navigation_release; call_push_current; call_draw].
    split; [reflexivity|]. unfold Q.
    repeat constructor; destruct c; simpl; tauto.
  - split; [exact Hfig|].
    eapply trace_extends_trans; [exact Htr|].
    exists [call_draw; call_navigation_release].
    split; [reflexivity|]. unfold Q.
    repeat constructor; destruct c; simpl; tauto.
Qed.

End Constrained.

(** ** Panning *)

Section PanMove.
Context `{B : Backend}.
Import ToolPan.

Lemma trace_drag_pan_all event self recs w :
  trace_extends (drags_with (_button_pressed self)) w
    (drag_pan_all event self recs w).
Proof.
  revert w. induction recs as [|r recs IH]; intros w; simpl.
  - apply trace_extends_refl.
  - eapply trace_extends_trans; [|apply IH].
    exists [call_drag_pan r.1 (_button_pressed self) (event_key event)
              (event_x event) (event_y event)].
    split; [reflexivity|]. repeat constructor.
Qed.

(** C7.  While panning, every [drag_pan] call receives the button that was
    recorded at press time, and the button carried by the move event plays
    no part: two move events that agree on key and position give the same
    outcome, the same tool state and the same world, calls included. *)
Theorem pan_move_uses_recorded_button (e1 e2 : Event) (self : t) (w : World) :
  event_key e1 = event_key e2 →
  event_x e1 = event_x e2 →
  event_y e1 = event_y e2 →
  mouse_move e1 self w = mouse_move e2 self w ∧
  trace_extends (drags_with (_button_pressed self)) w (mouse_move e1 self w).2.
Proof.
  intros Hk Hx Hy. split.
  - unfold mouse_move, drag_pan_all. rewrite Hk, Hx, Hy. reflexivity.
  - unfold mouse_move. destruct (_xypress self) as [recs|]; simpl.
    + eapply trace_extends_trans; [apply trace_drag_pan_all|].
      apply trace_extends_record. exact I.
    + apply trace_extends_refl.
Qed.

End PanMove.

(** ** Locks at deactivation *)

Section Deactivate.
Context `{B : Backend}.

(** C4, as the code has it.  Deactivating a toggle tool releases the three
    locks that its activation takes (canvas, press, release): afterwards
    the tool holds none of them.  The move lock and the key-press lock are
    left as they are; the move lock that a press took is given back by the
    release of the gesture or by a cancelling press. *)
Theorem deactivate_releases_activation_locks
    (event : Event) (z : ToolZoom.t) (p : ToolPan.t) (w : World) :
  (∃ w',
      ToolZoom.deactivate event z w = (Done, z, w') ∧
      canvaslock (navigation w') ≠ Some Zoom ∧
      presslock (navigation w') ≠ Some Zoom ∧
      releaselock (navigation w') ≠ Some Zoom ∧
      movelock (navigation w') = movelock (navigation w) ∧
      keypresslock (navigation w') = keypresslock (navigation w)) ∧
  (∃ w',
      ToolPan.deactivate event p w = (Done, p, w') ∧
      canvaslock (navigation w') ≠ Some Pan ∧
      presslock (navigation w') ≠ Some Pan ∧
      releaselock (navigation w') ≠ Some Pan ∧
      movelock (navigation w') = movelock (navigation w) ∧
      keypresslock (navigation w') = keypresslock (navigation w)).
Proof.
  split; eexists; (split; [reflexivity|]); simpl;
    repeat split; apply lock_release_not_owner.
Qed.

End Deactivate.

(** ** The frozen transform of a press record *)

Section FrozenTransform.
Context `{B : Backend}.
Import ToolZoom.

Lemma release_loop_same_but_transform event self1 self2 recs1 recs2 last_a w :
  _button_pressed self1 = _button_pressed self2 →
  _zoom_mode self1 = _zoom_mode self2 →
  same_but_transform recs1 recs2 →
  release_loop event self1 recs1 last_a w = release_loop event self2 recs2 last_a w.
Proof.
  intros Hb Hm Hrecs. revert last_a w.
  induction Hrecs as [|r1 r2 recs1 recs2 Hr _ IH]; intros last_a w;
    [reflexivity|].
  destruct r1 as [[[[[lastx lasty] a] i] lim] tr1], r2 as [p2 tr2].
  simpl in Hr. subst p2. simpl.
  destruct (singular_click event lastx lasty); [reflexivity|].
  destruct (figure w !! a) as [ax|]; [|apply IH].
  rewrite IH. f_equal. unfold zoom_axes. rewrite Hb, Hm. reflexivity.
Qed.

(** C3, as the code has it.  The release converts the press point and the
    release point with the surface's own [transData] as it stands when the
    surface is handled; the frozen transform of the press record is not
    consulted.  Two tool states that differ only in the frozen transforms
    of their press records give the same outcome, the same tool state and
    the same world. *)
Theorem release_ignores_frozen_transform
    (event : Event) (self1 self2 : t) (recs1 recs2 : list XYPress) (w : World) :
  _ids_zoom self1 = _ids_zoom self2 →
  _button_pressed self1 = _button_pressed self2 →
  _zoom_mode self1 = _zoom_mode self2 →
  _xypress self1 = Some recs1 →
  _xypress self2 = Some recs2 →
  same_but_transform recs1 recs2 →
  release event self1 w = release event self2 w.
Proof.
  intros Hids Hb Hm H1 H2 Hrecs.
  unfold release. rewrite H1, H2, Hids. cbn [_xypress _button_pressed _zoom_mode].
  destruct Hrecs as [|r1 r2 recs1 recs2 Hr Hrecs]; [rewrite Hb, Hm; reflexivity|].
  rewrite (release_loop_same_but_transform event
             {| _ids_zoom := []; _button_pressed := _button_pressed self1;
                _xypress := Some (r1 :: recs1); _zoom_mode := _zoom_mode self1 |}
             {| _ids_zoom := []; _button_pressed := _button_pressed self2;
                _xypress := Some (r2 :: recs2); _zoom_mode := _zoom_mode self2 |}
             (r1 :: recs1) (r2 :: recs2) [] _ Hb Hm)
    by (constructor; assumption).
  rewrite Hb, Hm. reflexivity.
Qed.

End FrozenTransform.

(** ** The arithmetic of one axis *)

Section OneAxis.
Context `{B : Backend}.
Import ToolZoom.
Local Open Scope Q_scope.

Lemma zoom_to_rect_spans Xmin Xmax x lastx :
  strictly_inside (Xmin, Xmax) x -> strictly_inside (Xmin, Xmax) lastx ->
  spans (Xmin, Xmax) lastx x (zoom_to_rect Xmin Xmax x lastx).
Proof.
  unfold strictly_inside, spans, within, zoom_to_rect. simpl.
  intros Hx Hl.
  destruct (Qlt_le_dec Xmin Xmax).
  - destruct (Qlt_le_dec x lastx); simpl;
    split_comparisons; simpl;
    try (exfalso; lra); repeat split; try tauto; try lra.
  - destruct (Qlt_le_dec lastx x); simpl;
    split_comparisons; simpl;
    try (exfalso; lra); repeat split; try tauto; try lra.
Qed.

(** Two points within the range are only sorted, never cut. *)
Lemma zoom_to_rect_within Xmin Xmax x lastx :
  within (Xmin, Xmax) x -> within (Xmin, Xmax) lastx -> ~ Xmin == Xmax ->
  zoom_to_rect Xmin Xmax x lastx =
    if Qlt_le_dec Xmin Xmax
    then (if Qlt_le_dec x lastx then (x, lastx) else (lastx, x))
    else (if Qlt_le_dec lastx x then (x, lastx) else (lastx, x)).
Proof.
  unfold within, zoom_to_rect. simpl. intros Hx Hl Hne.
  destruct (Qlt_le_dec Xmin Xmax).
  - destruct (Qlt_le_dec x lastx); simpl;
    split_comparisons; simpl;
    try (exfalso; lra); reflexivity.
  - destruct (Qlt_le_dec lastx x); simpl;
    split_comparisons; simpl;
    try (exfalso; lra); reflexivity.
Qed.

(** The pixel interval [(b0, b1)] of the bounding box. *)
Variables b0 b1 : Q.
Hypothesis Hb : b0 < b1.

Lemma frac_bounds p : b0 <= p -> p <= b1 -> 0 <= (p - b0) / (b1 - b0) /\ (p - b0) / (b1 - b0) <= 1.
Proof.
  intros H0 H1. split.
  - apply Qle_shift_div_l; lra.
  - apply Qle_shift_div_r; lra.
Qed.

Lemma frac_lt pa pb : pa < pb -> (pa - b0) / (b1 - b0) < (pb - b0) / (b1 - b0).
Proof.
  intros H. unfold Qdiv. apply Qmult_lt_compat_r; [|lra].
  apply Qinv_lt_0_compat. lra.
Qed.

Lemma pixel_to_data_within lo hi p :
  b0 <= p -> p <= b1 -> within (lo, hi) (pixel_to_data b0 b1 lo hi p).
Proof.
  intros H0 H1. destruct (frac_bounds p H0 H1) as [Hf0 Hf1].
  unfold within, pixel_to_data. simpl.
  set (f := (p - b0) / (b1 - b0)) in *.
  destruct (Qlt_le_dec lo hi); [left | right]; split; nra.
Qed.

Lemma pixel_to_data_order lo hi pa pb :
  pa < pb ->
  (lo < hi -> pixel_to_data b0 b1 lo hi pa < pixel_to_data b0 b1 lo hi pb) /\
  (hi < lo -> pixel_to_data b0 b1 lo hi pb < pixel_to_data b0 b1 lo hi pa).
Proof.
  intros H. pose proof (frac_lt pa pb H) as Hf.
  unfold pixel_to_data.
  set (fa := (pa - b0) / (b1 - b0)) in *. set (fb := (pb - b0) / (b1 - b0)) in *.
  split; intros; nra.
Qed.

Lemma zoom_to_rect_pixels lo hi pa pb :
  ~ lo == hi -> b0 <= pa -> pa < pb -> pb <= b1 ->
  zoom_to_rect lo hi (pixel_to_data b0 b1 lo hi pa) (pixel_to_data b0 b1 lo hi pb)
    = (pixel_to_data b0 b1 lo hi pa, pixel_to_data b0 b1 lo hi pb) /\
  zoom_to_rect lo hi (pixel_to_data b0 b1 lo hi pb) (pixel_to_data b0 b1 lo hi pa)
    = (pixel_to_data b0 b1 lo hi pa, pixel_to_data b0 b1 lo hi pb).
Proof.
  intros Hne Ha Hab Hb1.
  assert (Hwa := pixel_to_data_within lo hi pa ltac:(lra) ltac:(lra)).
  assert (Hwb := pixel_to_data_within lo hi pb ltac:(lra) ltac:(lra)).
  destruct (pixel_to_data_order lo hi pa pb Hab) as [Hinc Hdec].
  rewrite !zoom_to_rect_within by assumption.
  destruct (Qlt_le_dec lo hi) as [Hlt|Hge].
  - specialize (Hinc Hlt).
    split_comparisons;
      try (exfalso; lra); split; reflexivity.
  - assert (Hgt : hi < lo) by (destruct (Qlt_le_dec hi lo); [assumption | exfalso; apply Hne; lra]).
    specialize (Hdec Hgt).
    split_comparisons;
      try (exfalso; lra); split; reflexivity.
Qed.

Lemma zoom_out_inverts lo hi pa pb :
  ~ lo == hi -> pa < pb ->
  let lo' := pixel_to_data b0 b1 lo hi pa in
  let hi' := pixel_to_data b0 b1 lo hi pb in
  let v := zoom_out LinearScale lo' hi'
             (pixel_to_data b0 b1 lo' hi' pa) (pixel_to_data b0 b1 lo' hi' pb) in
  fst v == lo /\ snd v == hi.
Proof.
  intros Hne Hab. unfold zoom_out, pixel_to_data. simpl.
  assert (Hnz : forall e : Q, e == (pb - pa) * ((pb - pa) * (hi - lo)) -> ~ e == 0).
  { intros e He H0. rewrite He in H0.
    apply Qmult_integral in H0 as [H0|H0]; [lra|].
    apply Qmult_integral in H0 as [H0|H0]; [lra|]. apply Hne. lra. }
  split; field; repeat split; try lra; apply Hnz; ring.
Qed.

End OneAxis.

(** ** Shared axes and the zoom loop *)

Section Sharing.
Context `{B : Backend}.
Import ToolZoom.

Lemma joined_sym g h : joined g h = joined h g.
Proof. destruct g, h; simpl; try reflexivity. apply Nat.eqb_sym. Qed.

Lemma joined_trans g h k : joined g h = true → joined h k = true → joined g k = true.
Proof.
  destruct g, h, k; simpl; try discriminate.
  intros H1 H2. apply Nat.eqb_eq in H1, H2. apply Nat.eqb_eq. congruence.
Qed.

Lemma set_lim_target group upd a v fig ax :
  fig !! a = Some ax → set_lim group upd a v fig !! a = Some (upd v ax).
Proof.
  intros H. rewrite lookup_set_lim, H. simpl.
  rewrite Nat.eqb_refl. reflexivity.
Qed.

Lemma set_lim_untouched group upd j v fig a axj ax :
  fig !! j = Some axj → fig !! a = Some ax → a ≠ j →
  joined (group axj) (group ax) = false →
  set_lim group upd j v fig !! a = Some ax.
Proof.
  intros Hj Ha Hne Hnj. rewrite lookup_set_lim, Hj, Ha. simpl.
  apply Nat.eqb_neq in Hne. rewrite Hne, Hnj. reflexivity.
Qed.

Lemma static_set_lim group upd a v fig m :
  (∀ o, static (upd v o) = static o) →
  static <$> set_lim group upd a v fig !! m = static <$> fig !! m.
Proof.
  intros Hupd. rewrite lookup_set_lim.
  destruct (fig !! a) as [ax|]; [|reflexivity].
  destruct (fig !! m) as [other|]; [|reflexivity]. simpl.
  destruct (Nat.eqb m a || joined (group ax) (group other));
    [rewrite Hupd|]; reflexivity.
Qed.

Lemma static_with_xlim v o : static (with_xlim v o) = static o.
Proof. reflexivity. Qed.
Lemma static_with_ylim v o : static (with_ylim v o) = static o.
Proof. reflexivity. Qed.

Lemma static_set_xlim a v fig m :
  static <$> set_xlim a v fig !! m = static <$> fig !! m.
Proof. apply static_set_lim, static_with_xlim. Qed.
Lemma static_set_ylim a v fig m :
  static <$> set_ylim a v fig !! m = static <$> fig !! m.
Proof. apply static_set_lim, static_with_ylim. Qed.

Lemma static_zoom_axes event self lastx lasty a ax last_a w m :
  static <$> figure (zoom_axes event self lastx lasty a ax last_a w) !! m
  = static <$> figure w !! m.
Proof.
  split_zoom_axes; simpl;
    rewrite ?static_set_ylim, ?static_set_xlim; reflexivity.
Qed.

Lemma zoom_axes_untouched event self lastx lasty j axj last_a w a ax :
  figure w !! j = Some axj → figure w !! a = Some ax → a ≠ j →
  not_joined ax axj →
  figure (zoom_axes event self lastx lasty j axj last_a w) !! a = Some ax.
Proof.
  intros Hj Ha Hne [Hx Hy].
  rewrite joined_sym in Hx. rewrite joined_sym in Hy.
  assert (Hxs : ∀ v fig, fig !! j = Some axj -> fig !! a = Some ax -> set_xlim j v fig !! a = Some ax).
  { intros. eapply set_lim_untouched; eauto. }
  assert (Hys : ∀ v fig axj', fig !! j = Some axj' -> shared_y_axes axj' = shared_y_axes axj -> fig !! a = Some ax -> set_ylim j v fig !! a = Some ax).
  { intros v fig axj' H1 H2 H3. eapply set_lim_untouched; eauto. rewrite H2. exact Hy. }
  split_zoom_axes; simpl; auto.
  all: try (eapply Hys; [ | | apply Hxs; eassumption]; [apply set_lim_target; eassumption | reflexivity]).
  all: try (eapply Hys; eauto).
Qed.

Lemma twin_false group fig ax last_a :
  (∀ la lax, la ∈ last_a → fig !! la = Some lax → joined (group ax) (group lax) = false) →
  twin group fig ax last_a = false.
Proof.
  intros H. unfold twin. apply not_true_is_false. intros Hex.
  apply existsb_exists in Hex as (la & Hin & Hj).
  apply list_elem_of_In in Hin.
  destruct (fig !! la) as [lax|] eqn:E; [|discriminate].
  rewrite (H la lax Hin E) in Hj. discriminate.
Qed.

Lemma twin_true group fig ax last_a la lax :
  la ∈ last_a → fig !! la = Some lax → joined (group ax) (group lax) = true →
  twin group fig ax last_a = true.
Proof.
  intros Hin Hl Hj. unfold twin. apply existsb_exists. exists la.
  split; [apply list_elem_of_In; exact Hin|]. rewrite Hl. exact Hj.
Qed.

Lemma not_joined_static ax o1 o2 :
  static o1 = static o2 → not_joined ax o1 → not_joined ax o2.
Proof.
  intros Hs [Hx Hy].
  assert (Ex : shared_x_axes o1 = shared_x_axes o2)
    by exact (f_equal shared_x_axes Hs).
  assert (Ey : shared_y_axes o1 = shared_y_axes o2)
    by exact (f_equal shared_y_axes Hs).
  split; [rewrite <- Ex | rewrite <- Ey]; assumption.
Qed.

Lemma isolated_from_static fig fig' ax j :
  (∀ m, static <$> fig' !! m = static <$> fig !! m) →
  isolated_from fig ax j → isolated_from fig' ax j.
Proof.
  intros Hs H ax' Hl. specialize (Hs j). rewrite Hl in Hs.
  destruct (fig !! j) as [ax0|] eqn:E; [|discriminate].
  change (Some (static ax') = Some (static ax0)) in Hs.
  apply (inj Some) in Hs.
  apply (not_joined_static ax ax0 ax'); [symmetry; exact Hs | apply H; exact E].
Qed.

Lemma release_loop_completes event self recs last_a w :
  Forall (passes_threshold event) recs →
  (release_loop event self recs last_a w).1 = true.
Proof.
  intros H. revert last_a w.
  induction H as [|r recs Hr _ IH]; intros last_a w; [reflexivity|].
  destruct r as [[[[[lastx lasty] j] i] lim] tr].
  unfold passes_threshold, record_point in Hr. simpl in *. rewrite Hr.
  destruct (figure w !! j); apply IH.
Qed.

(** Records of surfaces that share no axis with [a] leave it alone; the
    surfaces they add to [last_a] share no axis with it either. *)
Lemma release_loop_isolated event self a ax pre :
  ∀ last_a w rest,
    Forall (fun r' => record_ref r' ≠ a ∧ isolated_from (figure w) ax (record_ref r')) pre →
    Forall (passes_threshold event) pre →
    figure w !! a = Some ax →
    ∃ last_a' w',
      release_loop event self (pre ++ rest) last_a w
        = release_loop event self rest last_a' w' ∧
      figure w' !! a = Some ax ∧
      (∀ m, static <$> figure w' !! m = static <$> figure w !! m) ∧
      (∀ la, la ∈ last_a' → la ∈ last_a ∨ isolated_from (figure w') ax la).
Proof.
  induction pre as [|r pre IH]; intros last_a w rest Hiso Hpass Ha.
  - exists last_a, w. simpl. split; [reflexivity|]. split; [exact Ha|].
    split; [reflexivity|]. auto.
  - destruct r as [[[[[lastx lasty] j] i] lim] tr].
    apply Forall_cons in Hiso as [[Hne Hj] Hiso].
    apply Forall_cons in Hpass as [Hr Hpass].
    unfold passes_threshold, record_point, record_ref in Hr, Hne, Hj.
    simpl in Hr, Hne, Hj. simpl. rewrite Hr.
    destruct (figure w !! j) as [axj|] eqn:Ej.
    + set (w1 := zoom_axes event self lastx lasty j axj last_a w).
      assert (Hst : ∀ m, static <$> figure w1 !! m = static <$> figure w !! m)
        by (intros m; apply static_zoom_axes).
      destruct (IH (last_a ++ [j]) w1 rest) as (last_a' & w' & E & Ha' & Hst' & Hl').
      * eapply Forall_impl; [exact Hiso|]. intros r' [H1 H2]. split; [exact H1|].
        eapply isolated_from_static; [exact Hst | exact H2].
      * exact Hpass.
      * apply zoom_axes_untouched; auto.
      * exists last_a', w'. split; [exact E|]. split; [exact Ha'|].
        split; [intros m; rewrite Hst'; apply Hst|].
        intros la Hin. destruct (Hl' la Hin) as [Hold|Hnew]; [|right; exact Hnew].
        apply elem_of_app in Hold as [Hold|Hold]; [left; exact Hold|].
        apply list_elem_of_singleton in Hold. subst la. right.
        eapply isolated_from_static; [exact Hst'|].
        eapply isolated_from_static; [exact Hst | exact Hj].
    + apply IH; auto.
Qed.

Section Groups.
Variables (group : Axes -> option nat) (get : Axes -> Interval)
          (upd : Interval -> Axes -> Axes).
Hypothesis get_upd : ∀ v o, get (upd v o) = v.
Hypothesis group_upd : ∀ v o, group (upd v o) = group o.

Lemma group_holds_established a v fig ax :
  fig !! a = Some ax →
  group_holds group get a (group ax) v (set_lim group upd a v fig).
Proof.
  intros Ha. split.
  - exists (upd v ax). split; [apply set_lim_target; exact Ha|]. auto.
  - intros m axm Hm Hj. rewrite lookup_set_lim, Ha in Hm.
    destruct (fig !! m) as [o|]; [|discriminate]. simpl in Hm.
    destruct (Nat.eqb m a || joined (group ax) (group o)) eqn:Ht;
      injection Hm as <-; [apply get_upd|].
    rewrite Hj in Ht. rewrite orb_true_r in Ht. discriminate.
Qed.

Lemma group_holds_twin a g v fig j axj :
  group_holds group get a g v fig →
  fig !! j = Some axj → joined (group axj) g = true →
  group_holds group get a g v (set_lim group upd j v fig).
Proof.
  intros [(axa & Ha & Hg & Hv) Hall] Hj Hjg. split.
  - rewrite lookup_set_lim, Hj, Ha. simpl.
    destruct (Nat.eqb a j || joined (group axj) (group axa));
      eexists; (split; [reflexivity|]); rewrite ?group_upd, ?get_upd; auto.
  - intros m axm Hm Hjm. rewrite lookup_set_lim, Hj in Hm.
    destruct (fig !! m) as [o|] eqn:Em; [|discriminate]. simpl in Hm.
    destruct (Nat.eqb m j || joined (group axj) (group o));
      injection Hm as <-; [apply get_upd|].
    apply (Hall m o Em Hjm).
Qed.

Lemma group_holds_other a g v fig j axj v' :
  group_holds group get a g v fig →
  fig !! j = Some axj → a ≠ j → joined (group axj) g = false →
  group_holds group get a g v (set_lim group upd j v' fig).
Proof.
  intros [(axa & Ha & Hg & Hv) Hall] Hj Hne Hjg. split.
  - exists axa. split; [|auto].
    eapply set_lim_untouched; eauto. rewrite Hg. exact Hjg.
  - intros m axm Hm Hjm. rewrite lookup_set_lim, Hj in Hm.
    destruct (fig !! m) as [o|] eqn:Em; [|discriminate]. simpl in Hm.
    destruct (Nat.eqb m j) eqn:Emj.
    + apply Nat.eqb_eq in Emj. subst m. rewrite Hj in Em. injection Em as <-.
      simpl in Hm. injection Hm as <-. rewrite group_upd in Hjm.
      rewrite joined_sym, Hjm in Hjg. discriminate.
    + simpl in Hm. destruct (joined (group axj) (group o)) eqn:Ejo.
      * injection Hm as <-. rewrite group_upd in Hjm.
        rewrite joined_sym in Hjm.
        rewrite (joined_trans _ _ _ Ejo Hjm) in Hjg. discriminate.
      * injection Hm as <-. apply (Hall m o Em Hjm).
Qed.

Variables (group' : Axes -> option nat) (upd' : Interval -> Axes -> Axes).
Hypothesis get_upd' : ∀ v o, get (upd' v o) = get o.
Hypothesis group_upd' : ∀ v o, group (upd' v o) = group o.

Lemma group_holds_other_axis a g v fig j v' :
  group_holds group get a g v fig →
  group_holds group get a g v (set_lim group' upd' j v' fig).
Proof.
  intros [(axa & Ha & Hg & Hv) Hall]. split.
  - rewrite lookup_set_lim, Ha. destruct (fig !! j) as [axj|]; simpl.
    + destruct (Nat.eqb a j || joined (group' axj) (group' axa));
        eexists; (split; [reflexivity|]); rewrite ?group_upd', ?get_upd'; auto.
    + exists axa. auto.
  - intros m axm Hm Hjm. rewrite lookup_set_lim in Hm.
    destruct (fig !! j) as [axj|]; [|apply (Hall m axm Hm Hjm)].
    destruct (fig !! m) as [o|] eqn:Em; [|discriminate]. simpl in Hm.
    destruct (Nat.eqb m j || joined (group' axj) (group' o));
      injection Hm as <-; [|apply (Hall m o Em Hjm)].
    rewrite get_upd'. rewrite group_upd' in Hjm. apply (Hall m o Em Hjm).
Qed.

End Groups.

Lemma figure_zoom_in event self lastx lasty a ax last_a w :
  button_is (_button_pressed self) 1 = true →
  key_is (_zoom_mode self) "x" = false →
  key_is (_zoom_mode self) "y" = false →
  let p := inverted_transform_point (transData ax) (lastx, lasty) in
  let q := inverted_transform_point (transData ax) (event_x event, event_y event) in
  figure (zoom_axes event self lastx lasty a ax last_a w) =
    set_ylim a
      (if twin shared_y_axes (figure w) ax last_a then get_ylim ax
       else zoom_to_rect (fst (get_ylim ax)) (snd (get_ylim ax)) (snd q) (snd p))
      (set_xlim a
         (if twin shared_x_axes (figure w) ax last_a then get_xlim ax
          else zoom_to_rect (fst (get_xlim ax)) (snd (get_xlim ax)) (fst q) (fst p))
         (figure w)).
Proof.
  intros Hb Hx Hy p q. unfold zoom_axes. rewrite Hb, Hx, Hy.
  subst p q.
  destruct (inverted_transform_point (transData ax) (lastx, lasty)) as [px py].
  destruct (inverted_transform_point (transData ax) (event_x event, event_y event))
    as [qx qy].
  simpl.
  destruct (twin shared_x_axes (figure w) ax last_a);
    destruct (twin shared_y_axes (figure w) ax last_a);
    repeat match goal with
           | |- context [zoom_to_rect ?a ?b ?c ?d] =>
               destruct (zoom_to_rect a b c d)
           end; reflexivity.
Qed.

Lemma figure_zoom_out event self lastx lasty a ax last_a w :
  button_is (_button_pressed self) 1 = false →
  button_is (_button_pressed self) 3 = true →
  key_is (_zoom_mode self) "x" = false →
  key_is (_zoom_mode self) "y" = false →
  let p := inverted_transform_point (transData ax) (lastx, lasty) in
  let q := inverted_transform_point (transData ax) (event_x event, event_y event) in
  let vx := if twin shared_x_axes (figure w) ax last_a then get_xlim ax
            else zoom_to_rect (fst (get_xlim ax)) (snd (get_xlim ax)) (fst q) (fst p) in
  let vy := if twin shared_y_axes (figure w) ax last_a then get_ylim ax
            else zoom_to_rect (fst (get_ylim ax)) (snd (get_ylim ax)) (snd q) (snd p) in
  figure (zoom_axes event self lastx lasty a ax last_a w) =
    set_ylim a
      (zoom_out (get_yscale ax) (fst (get_ylim ax)) (snd (get_ylim ax)) (fst vy) (snd vy))
      (set_xlim a
         (zoom_out (get_xscale ax) (fst (get_xlim ax)) (snd (get_xlim ax)) (fst vx) (snd vx))
         (figure w)).
Proof.
  intros Hb1 Hb3 Hx Hy p q vx vy. unfold zoom_axes. rewrite Hb1, Hb3, Hx, Hy.
  subst vx vy p q.
  destruct (inverted_transform_point (transData ax) (lastx, lasty)) as [px py].
  destruct (inverted_transform_point (transData ax) (event_x event, event_y event))
    as [qx qy].
  simpl.
  destruct (twin shared_x_axes (figure w) ax last_a);
    destruct (twin shared_y_axes (figure w) ax last_a);
    repeat match goal with
           | |- context [zoom_to_rect ?a ?b ?c ?d] =>
               destruct (zoom_to_rect a b c d)
           end; reflexivity.
Qed.

Lemma get_xlim_with_xlim v o : get_xlim (with_xlim v o) = v.
Proof. destruct v; reflexivity. Qed.
Lemma get_ylim_with_ylim v o : get_ylim (with_ylim v o) = v.
Proof. destruct v; reflexivity. Qed.

(** One pass of a button-1 free zoom over another surface keeps the ranges
    of the group of [a]. *)
Lemma zoom_in_keeps_groups event self lastx lasty j axj last_a w a gx gy vx vy :
  button_is (_button_pressed self) 1 = true →
  key_is (_zoom_mode self) "x" = false →
  key_is (_zoom_mode self) "y" = false →
  a ∈ last_a → a ≠ j → figure w !! j = Some axj →
  group_holds shared_x_axes get_xlim a gx vx (figure w) →
  group_holds shared_y_axes get_ylim a gy vy (figure w) →
  group_holds shared_x_axes get_xlim a gx vx
    (figure (zoom_axes event self lastx lasty j axj last_a w)) ∧
  group_holds shared_y_axes get_ylim a gy vy
    (figure (zoom_axes event self lastx lasty j axj last_a w)).
Proof.
  intros Hb Hmx Hmy Hin Hne Hj Hgx Hgy.
  rewrite figure_zoom_in by assumption.
  set (tx := twin shared_x_axes (figure w) axj last_a).
  set (ty := twin shared_y_axes (figure w) axj last_a).
  set (zy := zoom_to_rect _ _ _ _). set (zx := zoom_to_rect _ _ _ _).
  assert (Hx1 : group_holds shared_x_axes get_xlim a gx vx
                  (set_xlim j (if tx then get_xlim axj else zx) (figure w))).
  { destruct (joined (shared_x_axes axj) gx) eqn:Ej.
    - destruct Hgx as [(axa & Ha & Hg & Hv) Hall].
      assert (Htx : tx = true).
      { apply (twin_true _ _ _ _ a axa); auto. rewrite Hg. exact Ej. }
      rewrite Htx. rewrite (Hall j axj Hj) by (rewrite joined_sym; exact Ej).
      apply group_holds_twin with (axj := axj); auto using get_xlim_with_xlim.
      split; [exists axa; auto | exact Hall].
    - apply group_holds_other with (axj := axj); auto using get_xlim_with_xlim. }
  assert (Hy1 : group_holds shared_y_axes get_ylim a gy vy
                  (set_xlim j (if tx then get_xlim axj else zx) (figure w))).
  { apply group_holds_other_axis; auto. }
  assert (Hj1 : set_xlim j (if tx then get_xlim axj else zx) (figure w) !! j
                = Some (with_xlim (if tx then get_xlim axj else zx) axj))
    by (apply set_lim_target; exact Hj).
  split.
  - apply group_holds_other_axis; auto.
  - destruct (joined (shared_y_axes axj) gy) eqn:Ej.
    + destruct Hgy as [(axa & Ha & Hg & Hv) Hall].
      assert (Hty : ty = true).
      { apply (twin_true _ _ _ _ a axa); auto. rewrite Hg. exact Ej. }
      rewrite Hty. rewrite (Hall j axj Hj) by (rewrite joined_sym; exact Ej).
      eapply group_holds_twin; eauto using get_ylim_with_ylim.
    + eapply group_holds_other; eauto using get_ylim_with_ylim.
Qed.

Lemma release_loop_keeps_groups event self a gx gy vx vy post :
  button_is (_button_pressed self) 1 = true →
  key_is (_zoom_mode self) "x" = false →
  key_is (_zoom_mode self) "y" = false →
  Forall (fun r' => record_ref r' ≠ a) post →
  ∀ last_a w,
    a ∈ last_a →
    group_holds shared_x_axes get_xlim a gx vx (figure w) →
    group_holds shared_y_axes get_ylim a gy vy (figure w) →
    group_holds shared_x_axes get_xlim a gx vx
      (figure (release_loop event self post last_a w).2) ∧
    group_holds shared_y_axes get_ylim a gy vy
      (figure (release_loop event self post last_a w).2).
Proof.
  intros Hb Hmx Hmy Hpost.
  induction Hpost as [|r post Hr _ IH]; intros last_a w Hin Hgx Hgy;
    [split; assumption|].
  destruct r as [[[[[lastx lasty] j] i] lim] tr].
  unfold record_ref in Hr. simpl in Hr. simpl.
  destruct (singular_click event lastx lasty); [split; assumption|].
  destruct (figure w !! j) as [axj|] eqn:Ej; [|apply IH; assumption].
  destruct (zoom_in_keeps_groups event self lastx lasty j axj last_a w
              a gx gy vx vy) as [Hgx' Hgy']; auto.
  apply IH; auto. apply elem_of_app. left; exact Hin.
Qed.

Lemma same_but_transform_refl (recs : list XYPress) : same_but_transform recs recs.
Proof. induction recs; constructor; auto. Qed.

(** The release of a gesture none of whose records is a singular click
    runs its loop to the end, pushes the new view and resets the tool. *)
Lemma release_completes event self w recs :
  _xypress self = Some recs → recs ≠ [] →
  Forall (passes_threshold event) recs →
  release event self w =
    (Done,
     {| _ids_zoom := []; _button_pressed := None; _xypress := None;
        _zoom_mode := None |},
     navigation_release event
       (push_current
          (navigation_draw
             (release_loop event self recs []
                (disconnect_all (_ids_zoom self) (release_movelock w))).2))).
Proof.
  intros Hrecs Hne Hpass. unfold release. rewrite Hrecs.
  cbn [_xypress _button_pressed _zoom_mode].
  destruct recs as [|r recs]; [congruence|].
  match goal with
  | |- context [release_loop event ?s0 (r :: recs) [] ?w0] =>
      rewrite (release_loop_same_but_transform event s0 self
                 (r :: recs) (r :: recs) [] w0 eq_refl eq_refl
                 (same_but_transform_refl _));
      pose proof (release_loop_completes event self (r :: recs) [] w0 Hpass) as Hflag;
      destruct (release_loop event self (r :: recs) [] w0) as [flag wl]
  end.
  simpl in Hflag. subst flag. reflexivity.
Qed.

Local Open Scope Q_scope.

(** C1, as the code has it.  In a button-1 release in free zoom mode that
    is not a singular click, take a recorded surface that is recorded once
    and shares no axis with a surface handled before it in the loop, and
    whose press and release points map (through its own [transData]) to
    data points strictly inside its x-range and its y-range.  After the
    release its x-range and its y-range are the intervals spanned by the
    two data points, within the former range and oriented like it, also
    when that range is inverted.  A surface that shares an axis with one
    handled before it keeps its current range on that axis instead. *)
Theorem zoom_in_sets_spanned_intervals
    (event : Event) (self : t) (w : World) (recs : list XYPress)
    (k : nat) (r : XYPress) (ax : Axes) :
  button_is (_button_pressed self) 1 = true →
  key_is (_zoom_mode self) "x" = false →
  key_is (_zoom_mode self) "y" = false →
  _xypress self = Some recs →
  Forall (passes_threshold event) recs →
  recs !! k = Some r →
  figure w !! record_ref r = Some ax →
  (∀ k' r', recs !! k' = Some r' → record_ref r' = record_ref r → k' = k) →
  (∀ k' r', (k' < k)%nat → recs !! k' = Some r' →
            isolated_from (figure w) ax (record_ref r')) →
  let p := inverted_transform_point (transData ax) (record_point r) in
  let q := inverted_transform_point (transData ax) (event_x event, event_y event) in
  strictly_inside (get_xlim ax) (fst p) →
  strictly_inside (get_xlim ax) (fst q) →
  strictly_inside (get_ylim ax) (snd p) →
  strictly_inside (get_ylim ax) (snd q) →
  ∃ self' w' ax',
    release event self w = (Done, self', w') ∧
    figure w' !! record_ref r = Some ax' ∧
    spans (get_xlim ax) (fst p) (fst q) (get_xlim ax') ∧
    spans (get_ylim ax) (snd p) (snd q) (get_ylim ax').
Proof.
  intros Hb Hmx Hmy Hrecs Hpass Hk Ha Honce Hbefore p q Hpx Hqx Hpy Hqy.
  set (w0 := disconnect_all (_ids_zoom self) (release_movelock w)).
  assert (Hfig0 : figure w0 = figure w)
    by (unfold w0; rewrite figure_disconnect_all; reflexivity).
  assert (Hloop : ∃ axa,
             figure (release_loop event self recs [] w0).2 !! record_ref r = Some axa ∧
             get_xlim axa
               = zoom_to_rect (fst (get_xlim ax)) (snd (get_xlim ax)) (fst q) (fst p) ∧
             get_ylim axa
               = zoom_to_rect (fst (get_ylim ax)) (snd (get_ylim ax)) (snd q) (snd p)).
  { set (a := record_ref r) in *.
    assert (Hsplit := take_drop_middle recs k r Hk).
    set (pre := take k recs) in *. set (post := drop (S k) recs) in *.
    assert (Hpre : Forall (fun r' => record_ref r' ≠ a ∧
                             isolated_from (figure w0) ax (record_ref r')) pre).
    { apply Forall_forall. intros r' Hin.
      apply list_elem_of_lookup in Hin as [k' Hk'].
      apply lookup_take_Some in Hk' as [Hk' Hlt].
      split.
      - intros Heq. apply (Honce k' r' Hk') in Heq. lia.
      - rewrite Hfig0. apply (Hbefore k' r' Hlt Hk'). }
    assert (Hpost : Forall (fun r' => record_ref r' ≠ a) post).
    { apply Forall_forall. intros r' Hin.
      apply list_elem_of_lookup in Hin as [i Hi].
      unfold post in Hi. rewrite lookup_drop in Hi.
      intros Heq. apply (Honce _ r' Hi) in Heq. lia. }
    rewrite <- Hsplit in Hpass.
    apply Forall_app in Hpass as [Hpass_pre Hpass_r].
    apply Forall_cons in Hpass_r as [Hpass_r _].
    destruct (release_loop_isolated event self a ax pre [] w0 (r :: post)
                Hpre Hpass_pre) as (last_a' & w' & E & Ha' & Hst & Hl').
    { rewrite Hfig0. exact Ha. }
    assert (Hiso : ∀ la, la ∈ last_a' → isolated_from (figure w') ax la).
    { intros la Hin. destruct (Hl' la Hin) as [Hnil|H]; [|exact H].
      apply not_elem_of_nil in Hnil. contradiction. }
    rewrite <- Hsplit, E.
    destruct r as [[[[[lastx lasty] a0] i] lim] tr].
    unfold passes_threshold, record_point in Hpass_r. simpl in Hpass_r.
    unfold record_point in p. simpl in p.
    unfold record_ref in a. simpl in a. subst a.
    simpl. rewrite Hpass_r, Ha'.
    set (w1 := zoom_axes event self lastx lasty a0 ax last_a' w').
    assert (Htx : twin shared_x_axes (figure w') ax last_a' = false).
    { apply twin_false. intros la lax Hin Hl. apply (Hiso la Hin lax Hl). }
    assert (Hty : twin shared_y_axes (figure w') ax last_a' = false).
    { apply twin_false. intros la lax Hin Hl. apply (Hiso la Hin lax Hl). }
    assert (Hfig1 := figure_zoom_in event self lastx lasty a0 ax last_a' w' Hb Hmx Hmy).
    cbv zeta in Hfig1. rewrite Htx, Hty in Hfig1. fold w1 p q in Hfig1.
    set (vx := zoom_to_rect (fst (get_xlim ax)) (snd (get_xlim ax)) (fst q) (fst p)) in *.
    set (vy := zoom_to_rect (fst (get_ylim ax)) (snd (get_ylim ax)) (snd q) (snd p)) in *.
    assert (Hgx : group_holds shared_x_axes get_xlim a0 (shared_x_axes ax) vx (figure w1)).
    { rewrite Hfig1. apply group_holds_other_axis; auto.
      apply group_holds_established; auto using get_xlim_with_xlim. }
    assert (Hgy : group_holds shared_y_axes get_ylim a0 (shared_y_axes ax) vy (figure w1)).
    { rewrite Hfig1.
      change (shared_y_axes ax) with (shared_y_axes (with_xlim vx ax)).
      apply group_holds_established; auto using get_ylim_with_ylim.
      apply set_lim_target. exact Ha'. }
    destruct (release_loop_keeps_groups event self a0 (shared_x_axes ax)
                (shared_y_axes ax) vx vy post Hb Hmx Hmy Hpost
                (last_a' ++ [a0]) w1)
      as [[(axa & Hla & _ & Hvx) _] [(axa' & Hla' & _ & Hvy) _]]; auto.
    { apply elem_of_app. right. apply list_elem_of_singleton. reflexivity. }
    exists axa. split; [exact Hla|].
    rewrite Hla in Hla'. injection Hla' as <-. split; assumption. }
  destruct Hloop as (axa & Hla & Hvx & Hvy).
  rewrite (release_completes event self w recs Hrecs)
    by (try assumption; intros ->; discriminate).
  fold w0. eexists _, _, axa. split; [reflexivity|].
  split; [exact Hla|]. rewrite Hvx, Hvy. split.
  - apply zoom_to_rect_spans; [exact Hqx | exact Hpx].
  - apply zoom_to_rect_spans; [exact Hqy | exact Hpy].
Qed.

End Sharing.

(** ** Zooming out after zooming in *)

Section RoundTrip.
Context `{B : Backend}.
Import ToolZoom.

Lemma press_records_from_app event i l1 l2 :
  press_records_from event i (l1 ++ l2)
  = press_records_from event i l1
      ++ press_records_from event (i + length l1) l2.
Proof.
  revert i. induction l1 as [|a l1 IH]; intros i; simpl.
  - rewrite Nat.add_0_r. reflexivity.
  - rewrite IH. replace (S i + length l1)%nat with (i + S (length l1))%nat by lia.
    destruct (in_axes a event && get_navigate a && can_zoom a); reflexivity.
Qed.

Lemma press_records_from_elem event i todo r' :
  r' ∈ press_records_from event i todo →
  ∃ j axj, todo !! j = Some axj ∧ recorded event axj = true ∧
           record_ref r' = (i + j)%nat ∧
           record_point r' = (event_x event, event_y event).
Proof.
  revert i. induction todo as [|a todo IH]; intros i Hin; simpl in Hin.
  - apply not_elem_of_nil in Hin. contradiction.
  - destruct (in_axes a event && get_navigate a && can_zoom a) eqn:Hrec.
    + apply elem_of_cons in Hin as [->|Hin].
      * exists 0%nat, a. rewrite Nat.add_0_r. repeat split. exact Hrec.
      * destruct (IH (S i) Hin) as (j & axj & Hj & Hr & Href & Hpt).
        exists (S j), axj. repeat split; auto. rewrite Href. lia.
    + destruct (IH (S i) Hin) as (j & axj & Hj & Hr & Href & Hpt).
      exists (S j), axj. repeat split; auto. rewrite Href. lia.
Qed.

Lemma press_records_split event fig a ax :
  fig !! a = Some ax → recorded event ax = true →
  press_records event fig
  = press_records_from event 0 (take a fig)
      ++ (event_x event, event_y event, a, a, viewLim ax, transData ax)
      :: press_records_from event (S a) (drop (S a) fig).
Proof.
  intros Ha Hrec. unfold press_records.
  rewrite <- (take_drop_middle fig a ax Ha) at 1.
  rewrite press_records_from_app. simpl.
  assert (Hlen : length (take a fig) = a).
  { apply length_take_le. apply lookup_lt_Some in Ha. lia. }
  rewrite Hlen. unfold recorded in Hrec. rewrite Hrec. reflexivity.
Qed.

Lemma press_arms_done event self w :
  _ids_zoom self = [] →
  button_is (event_button event) 1 || button_is (event_button event) 3 = true →
  movelock (navigation w) = None →
  ∃ ids w1,
    press event self w =
      (Done,
       {| _ids_zoom := ids;
          _button_pressed :=
            if button_is (event_button event) 1 then Some 1%Z else Some 3%Z;
          _xypress := Some (press_records event (figure w));
          _zoom_mode := event_key event |}, w1) ∧
    figure w1 = figure w ∧
    movelock (navigation w1) = Some Zoom.
Proof.
  intros Hidle Hbutton Hlock. unfold press. rewrite Hidle, Hbutton.
  destruct (empty (views (navigation w))); simpl; rewrite Hlock; simpl;
    eexists _, _; (split; [reflexivity|]); split; reflexivity.
Qed.

Lemma not_joined_static_l ax ax1 o :
  static ax = static ax1 → not_joined ax o → not_joined ax1 o.
Proof.
  intros Hs [Hx Hy].
  assert (Ex : shared_x_axes ax = shared_x_axes ax1)
    by exact (f_equal shared_x_axes Hs).
  assert (Ey : shared_y_axes ax = shared_y_axes ax1)
    by exact (f_equal shared_y_axes Hs).
  split; [rewrite <- Ex | rewrite <- Ey]; assumption.
Qed.

Lemma static_release_loop event self recs last_a w m :
  static <$> figure (release_loop event self recs last_a w).2 !! m
  = static <$> figure w !! m.
Proof.
  apply (release_loop_preserves
           (fun w' => static <$> figure w' !! m = static <$> figure w !! m));
    [|reflexivity].
  intros. rewrite static_zoom_axes. assumption.
Qed.

(** What a release does to everything but the ranges. *)
Lemma release_frame event self w :
  (∀ m, static <$> figure (release event self w).2 !! m = static <$> figure w !! m) ∧
  movelock (navigation (release event self w).2)
    = lock_release Zoom (movelock (navigation w)).
Proof.
  unfold release. cbn [_xypress _button_pressed _zoom_mode].
  set (w0 := disconnect_all (_ids_zoom self) (release_movelock w)).
  assert (Hf0 : figure w0 = figure w)
    by (unfold w0; rewrite figure_disconnect_all; reflexivity).
  assert (Hn0 : movelock (navigation w0) = lock_release Zoom (movelock (navigation w)))
    by (unfold w0; rewrite navigation_disconnect_all; reflexivity).
  destruct (_xypress self) as [[|r recs]|]; cbv beta iota;
    try (cbn [snd]; rewrite Hf0, Hn0; split; reflexivity).
  match goal with
  | |- context [release_loop event ?s0 (r :: recs) [] w0] =>
      pose proof (fun m => static_release_loop event s0 (r :: recs) [] w0 m) as Hs;
      pose proof (navigation_release_loop event s0 (r :: recs) [] w0) as Hn;
      destruct (release_loop event s0 (r :: recs) [] w0) as [[|] wl]
  end; simpl in *; rewrite Hn, Hn0; (split; [|reflexivity]);
    intros m; rewrite Hs, Hf0; reflexivity.
Qed.

Local Open Scope Q_scope.

Lemma not_singular_click event lastx lasty :
  5 <= Qabs (event_x event - lastx) → 5 <= Qabs (event_y event - lasty) →
  singular_click event lastx lasty = false.
Proof.
  intros Hx Hy. apply not_true_is_false. intros H.
  apply singular_click_iff in H as [H|H]; apply Qlt_not_le in H; contradiction.
Qed.

Lemma threshold_distinct (u v : Q) : 5 <= Qabs (u - v) → v < u ∨ u < v.
Proof.
  apply (Qabs_case (u - v) (fun z => 5 <= z → v < u ∨ u < v)); intros; [left | right]; lra.
Qed.

Lemma axis_round_trip b0 b1 lo hi p0 p1 :
  b0 < b1 → ¬ lo == hi →
  b0 <= p0 → p0 <= b1 → b0 <= p1 → p1 <= b1 →
  5 <= Qabs (p1 - p0) →
  let v := zoom_to_rect lo hi (pixel_to_data b0 b1 lo hi p1)
             (pixel_to_data b0 b1 lo hi p0) in
  let v' := zoom_to_rect (fst v) (snd v)
              (pixel_to_data b0 b1 (fst v) (snd v) p1)
              (pixel_to_data b0 b1 (fst v) (snd v) p0) in
  (v = (pixel_to_data b0 b1 lo hi p0, pixel_to_data b0 b1 lo hi p1) ∨
   v = (pixel_to_data b0 b1 lo hi p1, pixel_to_data b0 b1 lo hi p0)) ∧
  interval_eq (zoom_out LinearScale (fst v) (snd v) (fst v') (snd v')) (lo, hi).
Proof.
  intros Hb Hne H0 H0' H1 H1' Hthr.
  assert (Hcase : ∃ pa pb, pa < pb ∧ b0 <= pa ∧ pb <= b1 ∧
            ((p0 = pa ∧ p1 = pb) ∨ (p0 = pb ∧ p1 = pa))).
  { destruct (threshold_distinct p1 p0 Hthr) as [Hlt|Hlt].
    - exists p0, p1. repeat split; auto.
    - exists p1, p0. repeat split; auto. }
  destruct Hcase as (pa & pb & Hab & Ha & Hb1 & Hcase).
  destruct (zoom_to_rect_pixels b0 b1 Hb lo hi pa pb Hne Ha Hab Hb1) as [E1 E2].
  assert (Hne' : ¬ pixel_to_data b0 b1 lo hi pa == pixel_to_data b0 b1 lo hi pb).
  { destruct (pixel_to_data_order b0 b1 Hb lo hi pa pb Hab) as [Hinc Hdec].
    intros Heq. destruct (Qlt_le_dec lo hi) as [Hlt|Hge]; [specialize (Hinc Hlt); lra|].
    destruct (Qlt_le_dec hi lo) as [Hgt|Hle]; [specialize (Hdec Hgt); lra|].
    apply Hne. lra. }
  destruct (zoom_to_rect_pixels b0 b1 Hb _ _ pa pb Hne' Ha Hab Hb1) as [E1' E2'].
  destruct (zoom_out_inverts b0 b1 Hb lo hi pa pb Hne Hab) as [Z1 Z2].
  cbv zeta in Z1, Z2.
  destruct Hcase as [[-> ->]|[-> ->]]; cbv zeta.
  - rewrite E2. cbn [fst snd]. rewrite E2'. cbn [fst snd].
    split; [left; reflexivity | split; assumption].
  - rewrite E1. cbn [fst snd]. rewrite E1'. cbn [fst snd].
    split; [right; reflexivity | split; assumption].
Qed.

Lemma recorded_static e o1 o2 :
  static o1 = static o2 → recorded e o1 = recorded e o2.
Proof.
  intros H. unfold recorded, in_axes.
  rewrite (f_equal bbox H : bbox o1 = bbox o2).
  rewrite (f_equal get_navigate H : get_navigate o1 = get_navigate o2).
  rewrite (f_equal can_zoom H : can_zoom o1 = can_zoom o2).
  reflexivity.
Qed.

Lemma in_axes_bounds a e :
  in_axes a e = true →
  (bb_x0 (bbox a) <= event_x e ∧ event_x e <= bb_x1 (bbox a)) ∧
  (bb_y0 (bbox a) <= event_y e ∧ event_y e <= bb_y1 (bbox a)).
Proof.
  unfold in_axes. rewrite !andb_true_iff, !Qle_bool_iff. tauto.
Qed.

Lemma recorded_in_axes e a : recorded e a = true → in_axes a e = true.
Proof. unfold recorded. rewrite !andb_true_iff. tauto. Qed.

Lemma interval_eq_refl v : interval_eq v v.
Proof. split; reflexivity. Qed.

Lemma interval_eq_trans u v w : interval_eq u v → interval_eq v w → interval_eq u w.
Proof. intros [H1 H2] [H3 H4]. split; [rewrite H1 | rewrite H2]; assumption. Qed.

(** Zooming out on the whole range leaves it as it is. *)
Lemma zoom_out_whole_range (v : Interval) :
  ¬ fst v == snd v →
  interval_eq (zoom_out LinearScale (fst v) (snd v) (fst v) (snd v)) v.
Proof.
  intros Hne. unfold zoom_out, interval_eq. simpl.
  split; field; intros H; apply Hne; lra.
Qed.

Section AnyValue.
Variables (group : Axes -> option nat) (get : Axes -> Interval)
          (upd : Interval -> Axes -> Axes).
Hypothesis get_upd : ∀ v o, get (upd v o) = v.
Hypothesis group_upd : ∀ v o, group (upd v o) = group o.

(** A twin sets the range of the whole group, to whatever value. *)
Lemma group_holds_twin_any a g v fig j axj v' :
  group_holds group get a g v fig →
  fig !! j = Some axj → joined (group axj) g = true →
  group_holds group get a g v' (set_lim group upd j v' fig).
Proof.
  intros [(axa & Ha & Hg & Hv) Hall] Hj Hjg. split.
  - rewrite lookup_set_lim, Hj, Ha. simpl. rewrite Hg, Hjg, orb_true_r.
    eexists. split; [reflexivity|]. rewrite group_upd, get_upd. auto.
  - intros m axm Hm Hjm. rewrite lookup_set_lim, Hj in Hm.
    destruct (fig !! m) as [o|] eqn:Em; [|discriminate]. simpl in Hm.
    destruct (Nat.eqb m j || joined (group axj) (group o)) eqn:Ht;
      injection Hm as <-; [apply get_upd|].
    apply orb_false_elim in Ht as [_ Ht].
    rewrite (joined_trans _ _ _ Hjg Hjm) in Ht. discriminate.
Qed.

End AnyValue.

(** A zoom out on a later surface keeps the group ranges of [a] up to
    equality: a twin of [a] sets the shared range to the current range
    again, and takes the other range through a zoom out on the whole
    range. *)
Lemma zoom_out_keeps_groups event self lastx lasty j axj last_a w a gx gy vx vy :
  button_is (_button_pressed self) 1 = false →
  button_is (_button_pressed self) 3 = true →
  key_is (_zoom_mode self) "x" = false →
  key_is (_zoom_mode self) "y" = false →
  a ∈ last_a → a ≠ j → figure w !! j = Some axj →
  (joined (shared_x_axes axj) gx = true → get_xscale axj = LinearScale) →
  (joined (shared_y_axes axj) gy = true → get_yscale axj = LinearScale) →
  ¬ fst vx == snd vx → ¬ fst vy == snd vy →
  group_holds_eq shared_x_axes get_xlim a gx vx (figure w) →
  group_holds_eq shared_y_axes get_ylim a gy vy (figure w) →
  group_holds_eq shared_x_axes get_xlim a gx vx
    (figure (zoom_axes event self lastx lasty j axj last_a w)) ∧
  group_holds_eq shared_y_axes get_ylim a gy vy
    (figure (zoom_axes event self lastx lasty j axj last_a w)).
Proof.
  intros Hb1 Hb3 Hmx Hmy Hin Hne Hj Hlx Hly Hnx Hny
    (vx' & Hex & Hgx) (vy' & Hey & Hgy).
  rewrite figure_zoom_out by assumption. cbv zeta.
  set (tx := twin shared_x_axes (figure w) axj last_a).
  set (ty := twin shared_y_axes (figure w) axj last_a).
  set (zy := zoom_to_rect (fst (get_ylim axj)) _ _ _).
  set (zx := zoom_to_rect (fst (get_xlim axj)) _ _ _).
  set (ox := zoom_out (get_xscale axj) _ _ _ _).
  set (oy := zoom_out (get_yscale axj) _ _ _ _).
  assert (Hx1 : group_holds_eq shared_x_axes get_xlim a gx vx
                  (set_xlim j ox (figure w))).
  { destruct (joined (shared_x_axes axj) gx) eqn:Ej.
    - pose proof Hgx as [(axa & Ha & Hg & Hv) Hall].
      assert (Htx : tx = true).
      { apply (twin_true _ _ _ _ a axa); auto. rewrite Hg. exact Ej. }
      assert (Hxj : get_xlim axj = vx')
        by (apply (Hall j axj Hj); rewrite joined_sym; exact Ej).
      exists ox. split.
      + unfold ox. rewrite Htx, Hxj, (Hlx eq_refl).
        eapply interval_eq_trans; [apply zoom_out_whole_range | exact Hex].
        destruct Hex as [E1 E2]. rewrite E1, E2. exact Hnx.
      + apply group_holds_twin_any with (v := vx') (axj := axj);
          auto using get_xlim_with_xlim.
    - exists vx'. split; [exact Hex|].
      apply group_holds_other with (axj := axj); auto using get_xlim_with_xlim. }
  assert (Hy1 : group_holds_eq shared_y_axes get_ylim a gy vy
                  (set_xlim j ox (figure w))).
  { exists vy'. split; [exact Hey|]. apply group_holds_other_axis; auto. }
  assert (Hj1 : set_xlim j ox (figure w) !! j = Some (with_xlim ox axj))
    by (apply set_lim_target; exact Hj).
  split.
  - destruct Hx1 as (v & Hv & Hg). exists v. split; [exact Hv|].
    apply group_holds_other_axis; auto.
  - destruct Hy1 as (vy1 & Hey1 & Hgy1).
    destruct (joined (shared_y_axes axj) gy) eqn:Ej.
    + pose proof Hgy as [(axa & Ha & Hg & Hv) Hall].
      assert (Hty : ty = true).
      { apply (twin_true _ _ _ _ a axa); auto. rewrite Hg. exact Ej. }
      assert (Hyj : get_ylim axj = vy')
        by (apply (Hall j axj Hj); rewrite joined_sym; exact Ej).
      exists oy. split.
      * unfold oy. rewrite Hty, Hyj, (Hly eq_refl).
        eapply interval_eq_trans; [apply zoom_out_whole_range | exact Hey].
        destruct Hey as [E1 E2]. rewrite E1, E2. exact Hny.
      * eapply group_holds_twin_any with (v := vy1); eauto using get_ylim_with_ylim.
    + exists vy1. split; [exact Hey1|].
      eapply group_holds_other; eauto using get_ylim_with_ylim.
Qed.

(** [linear_twin_at] looks at nothing but the static part of the figure. *)
Lemma linear_twin_at_static fig fig' ax j :
  (∀ m, static <$> fig' !! m = static <$> fig !! m) →
  linear_twin_at fig ax j → linear_twin_at fig' ax j.
Proof.
  intros Hs H axj' Hl. specialize (Hs j). rewrite Hl in Hs.
  destruct (fig !! j) as [axj|] eqn:E; [|discriminate].
  change (Some (static axj') = Some (static axj)) in Hs.
  apply (inj Some) in Hs. destruct (H axj E) as [Hx Hy].
  unfold linear_twin.
  rewrite (f_equal shared_x_axes Hs : shared_x_axes axj' = shared_x_axes axj).
  rewrite (f_equal shared_y_axes Hs : shared_y_axes axj' = shared_y_axes axj).
  rewrite (f_equal get_xscale Hs : get_xscale axj' = get_xscale axj).
  rewrite (f_equal get_yscale Hs : get_yscale axj' = get_yscale axj).
  split; assumption.
Qed.

(** The rest of the loop of a zoom out keeps the group ranges of [a] up to
    equality. *)
Lemma release_loop_keeps_groups_out event self a ax vx vy post :
  button_is (_button_pressed self) 1 = false →
  button_is (_button_pressed self) 3 = true →
  key_is (_zoom_mode self) "x" = false →
  key_is (_zoom_mode self) "y" = false →
  ¬ fst vx == snd vx → ¬ fst vy == snd vy →
  ∀ last_a w,
    Forall (fun r' => record_ref r' ≠ a ∧
                      linear_twin_at (figure w) ax (record_ref r')) post →
    a ∈ last_a →
    group_holds_eq shared_x_axes get_xlim a (shared_x_axes ax) vx (figure w) →
    group_holds_eq shared_y_axes get_ylim a (shared_y_axes ax) vy (figure w) →
    group_holds_eq shared_x_axes get_xlim a (shared_x_axes ax) vx
      (figure (release_loop event self post last_a w).2) ∧
    group_holds_eq shared_y_axes get_ylim a (shared_y_axes ax) vy
      (figure (release_loop event self post last_a w).2).
Proof.
  intros Hb1 Hb3 Hmx Hmy Hnx Hny.
  induction post as [|r post IH]; intros last_a w Hpost Hin Hgx Hgy;
    [split; assumption|].
  apply Forall_cons in Hpost as [[Hr Hlin] Hpost].
  destruct r as [[[[[lastx lasty] j] i] lim] tr].
  unfold record_ref in Hr, Hlin. simpl in Hr, Hlin. simpl.
  destruct (singular_click event lastx lasty); [split; assumption|].
  destruct (figure w !! j) as [axj|] eqn:Ej; [|apply IH; assumption].
  destruct (Hlin axj Ej) as [Hlx Hly].
  destruct (zoom_out_keeps_groups event self lastx lasty j axj last_a w
              a (shared_x_axes ax) (shared_y_axes ax) vx vy)
    as [Hgx' Hgy']; auto.
  { intros H. apply Hlx. rewrite joined_sym. exact H. }
  { intros H. apply Hly. rewrite joined_sym. exact H. }
  apply IH; auto.
  - eapply Forall_impl; [exact Hpost|]. intros r' [H1 H2]. split; [exact H1|].
    eapply linear_twin_at_static; [|exact H2].
    intros m. apply static_zoom_axes.
  - apply elem_of_app. left; exact Hin.
Qed.

(** The release up to and including the first recorded surface of the
    groups of [a]: the records before it leave it alone, and the rest of
    the loop starts from the world its own pass leaves. *)
Lemma release_first_surface event self w pre r post ax :
  _xypress self = Some (pre ++ r :: post) →
  Forall (passes_threshold event) (pre ++ r :: post) →
  figure w !! record_ref r = Some ax →
  Forall (fun r' => record_ref r' ≠ record_ref r ∧
                    isolated_from (figure w) ax (record_ref r')) pre →
  ∃ last_a w',
    (∀ la, la ∈ last_a → isolated_from (figure w') ax la) ∧
    figure w' !! record_ref r = Some ax ∧
    (∀ m, static <$> figure w' !! m = static <$> figure w !! m) ∧
    release event self w =
      (Done,
       {| _ids_zoom := []; _button_pressed := None; _xypress := None;
          _zoom_mode := None |}, (release event self w).2) ∧
    figure (release event self w).2
    = figure (release_loop event self post (last_a ++ [record_ref r])
                (zoom_axes event self (fst (record_point r)) (snd (record_point r))
                   (record_ref r) ax last_a w')).2.
Proof.
  intros Hrecs Hpass Ha Hpre.
  set (a := record_ref r) in *.
  set (w0 := disconnect_all (_ids_zoom self) (release_movelock w)).
  assert (Hfig0 : figure w0 = figure w)
    by (unfold w0; rewrite figure_disconnect_all; reflexivity).
  rewrite (release_completes event self w _ Hrecs)
    by (try assumption; intros E; apply app_eq_nil in E as [_ E]; discriminate).
  fold w0. cbn [snd figure navigation_release push_current navigation_draw record
                with_navigation].
  apply Forall_app in Hpass as [Hpass_pre Hpass_r].
  apply Forall_cons in Hpass_r as [Hpass_r Hpass_post].
  rewrite <- Hfig0 in Ha, Hpre.
  destruct (release_loop_isolated event self a ax pre [] w0 (r :: post)
              Hpre Hpass_pre Ha) as (last_a' & w' & E & Ha' & Hst & Hl').
  exists last_a', w'. split.
  { intros la Hin. destruct (Hl' la Hin) as [Hnil|H]; [|exact H].
    apply not_elem_of_nil in Hnil. contradiction. }
  split; [exact Ha'|].
  split; [intros m; rewrite Hst, Hfig0; reflexivity|].
  split; [reflexivity|].
  rewrite E.
  destruct r as [[[[[lastx lasty] a0] i] lim] tr].
  unfold passes_threshold, record_point in Hpass_r. simpl in Hpass_r.
  unfold record_point. unfold record_ref in a. simpl in a. subst a.
  simpl. rewrite Hpass_r, Ha'. reflexivity.
Qed.

(** A press that arms the tool followed by the release, seen from a
    recorded surface that shares no axis with the surfaces recorded before
    it. *)
Lemma gesture_on_first_surface ep e1 self w a ax :
  _ids_zoom self = [] →
  button_is (event_button ep) 1 || button_is (event_button ep) 3 = true →
  movelock (navigation w) = None →
  figure w !! a = Some ax →
  recorded ep ax = true →
  (∀ j axj, (j < a)%nat → figure w !! j = Some axj → recorded ep axj = true →
            not_joined ax axj) →
  5 <= Qabs (event_x e1 - event_x ep) →
  5 <= Qabs (event_y e1 - event_y ep) →
  ∃ self1 w1 w2 last_a w' post,
    press ep self w = (Done, self1, w1) ∧
    _button_pressed self1
      = (if button_is (event_button ep) 1 then Some 1%Z else Some 3%Z) ∧
    _zoom_mode self1 = event_key ep ∧
    release e1 self1 w1 =
      (Done,
       {| _ids_zoom := []; _button_pressed := None; _xypress := None;
          _zoom_mode := None |}, w2) ∧
    movelock (navigation w2) = None ∧
    (∀ m, static <$> figure w2 !! m = static <$> figure w !! m) ∧
    (∀ la, la ∈ last_a → isolated_from (figure w') ax la) ∧
    figure w' !! a = Some ax ∧
    (∀ m, static <$> figure w' !! m = static <$> figure w !! m) ∧
    Forall (fun r' => ∃ axj, (a < record_ref r')%nat ∧
                             figure w !! record_ref r' = Some axj ∧
                             recorded ep axj = true) post ∧
    figure w2
    = figure (release_loop e1 self1 post (last_a ++ [a])
                (zoom_axes e1 self1 (event_x ep) (event_y ep) a ax last_a w')).2.
Proof.
  intros Hidle Hbutton Hlock Ha Hrec Hiso Hdx Hdy.
  destruct (press_arms_done ep self w Hidle Hbutton Hlock)
    as (ids & w1 & Hpress & Hfig1 & Hlock1).
  set (self1 := {| _ids_zoom := ids;
                   _button_pressed :=
                     if button_is (event_button ep) 1 then Some 1%Z else Some 3%Z;
                   _xypress := Some (press_records ep (figure w));
                   _zoom_mode := event_key ep |}) in *.
  set (r := (event_x ep, event_y ep, a, a, viewLim ax, transData ax) : XYPress).
  set (pre := press_records_from ep 0 (take a (figure w))).
  set (post := press_records_from ep (S a) (drop (S a) (figure w))).
  assert (Hsplit : press_records ep (figure w) = pre ++ r :: post)
    by (apply press_records_split; assumption).
  assert (Hrecs : _xypress self1 = Some (pre ++ r :: post)).
  { unfold self1. simpl. f_equal. exact Hsplit. }
  assert (Hpass : Forall (passes_threshold e1) (pre ++ r :: post)).
  { rewrite <- Hsplit.
    eapply Forall_impl; [apply (press_records_from_point ep 0 (figure w))|].
    intros r' Hr'. unfold passes_threshold. rewrite Hr'. simpl.
    apply not_singular_click; assumption. }
  assert (Hpre : Forall (fun r' => record_ref r' ≠ record_ref r ∧
                           isolated_from (figure w1) ax (record_ref r')) pre).
  { apply Forall_forall. intros r' Hin.
    apply press_records_from_elem in Hin as (j & axj & Hj & Hrj & Href & _).
    apply lookup_take_Some in Hj as [Hj Hlt]. simpl in Href.
    rewrite Href. unfold record_ref. simpl. split; [lia|].
    rewrite Hfig1. intros ax' Hl. rewrite Hj in Hl. injection Hl as <-.
    apply (Hiso j axj); auto. }
  assert (Hpost : Forall (fun r' => ∃ axj, (a < record_ref r')%nat ∧
                             figure w !! record_ref r' = Some axj ∧
                             recorded ep axj = true) post).
  { apply Forall_forall. intros r' Hin.
    apply press_records_from_elem in Hin as (j & axj & Hj & Hrj & Href & _).
    rewrite lookup_drop in Hj. exists axj. rewrite Href.
    split; [lia|]. split; [exact Hj | exact Hrj]. }
  destruct (release_first_surface e1 self1 w1 pre r post ax Hrecs Hpass)
    as (last_a & w' & Hl' & Ha' & Hst' & Hrel & Hres); auto.
  { rewrite Hfig1. exact Ha. }
  destruct (release_frame e1 self1 w1) as [Hst Hmove].
  exists self1, w1, (release e1 self1 w1).2, last_a, w', post.
  split; [exact Hpress|]. split; [reflexivity|]. split; [reflexivity|].
  split; [exact Hrel|].
  split; [rewrite Hmove, Hlock1; reflexivity|].
  split; [intros m; rewrite Hst, Hfig1; reflexivity|].
  split; [exact Hl'|]. split; [exact Ha'|].
  split; [intros m; rewrite Hst', Hfig1; reflexivity|].
  split; [exact Hpost|]. exact Hres.
Qed.

(** The group ranges right after the first surface of the groups has been
    handled: the values it has set. *)
Lemma first_surface_sets_groups a vx vy fig ax :
  fig !! a = Some ax →
  group_holds shared_x_axes get_xlim a (shared_x_axes ax) vx
    (set_ylim a vy (set_xlim a vx fig)) ∧
  group_holds shared_y_axes get_ylim a (shared_y_axes ax) vy
    (set_ylim a vy (set_xlim a vx fig)).
Proof.
  intros Ha. split.
  - apply group_holds_other_axis; auto.
    apply group_holds_established; auto using get_xlim_with_xlim.
  - change (shared_y_axes ax) with (shared_y_axes (with_xlim vx ax)).
    apply group_holds_established; auto using get_ylim_with_ylim.
    apply set_lim_target. exact Ha.
Qed.

(** A surface is its static part together with its two ranges. *)
Lemma axes_from_parts o ax vx vy :
  static o = static ax → get_xlim o = vx → get_ylim o = vy →
  o = with_ylim vy (with_xlim vx ax).
Proof.
  destruct o as [[ox0 oy0 ox1 oy1] ? ? ? ? ? ? ? ? ?], ax, vx, vy.
  unfold static, get_xlim, get_ylim, with_ylim, with_xlim, with_viewLim. simpl.
  intros [= -> -> -> -> -> -> -> -> ->] [= -> ->] [= -> ->]. reflexivity.
Qed.

(** [linear_twin] looks at nothing but the static parts of the surfaces. *)
Lemma linear_twin_static ax ax1 o1 o2 :
  static ax = static ax1 → static o1 = static o2 →
  linear_twin ax o1 → linear_twin ax1 o2.
Proof.
  intros Ha Ho [Hx Hy]. unfold linear_twin.
  rewrite <- (f_equal shared_x_axes Ha : shared_x_axes ax = shared_x_axes ax1).
  rewrite <- (f_equal shared_y_axes Ha : shared_y_axes ax = shared_y_axes ax1).
  rewrite <- (f_equal shared_x_axes Ho : shared_x_axes o1 = shared_x_axes o2).
  rewrite <- (f_equal shared_y_axes Ho : shared_y_axes o1 = shared_y_axes o2).
  rewrite <- (f_equal get_xscale Ho : get_xscale o1 = get_xscale o2).
  rewrite <- (f_equal get_yscale Ho : get_yscale o1 = get_yscale o2).
  split; assumption.
Qed.

(** A surface of a figure with the same static part as another has a
    counterpart there. *)
Lemma lookup_static_inv (fig fig' : list Axes) m o' :
  (∀ m, static <$> fig' !! m = static <$> fig !! m) →
  fig' !! m = Some o' →
  ∃ o, fig !! m = Some o ∧ static o' = static o.
Proof.
  intros Hs Hl. specialize (Hs m). rewrite Hl in Hs.
  destruct (fig !! m) as [o|] eqn:E; [|discriminate].
  change (Some (static o') = Some (static o)) in Hs.
  apply (inj Some) in Hs. exists o. split; [reflexivity | exact Hs].
Qed.

(** C2.  On a surface with linear axes whose pixel-to-data transform is
    the affine map of its bounding box onto its range, a button-1 zoom to
    a pixel rectangle inside the bounding box followed by a button-3 zoom
    on the same pixel rectangle, whose data coordinates are derived anew
    under the zoomed range, gives back the original x-range and y-range
    exactly.  After the zoom in the ranges are the intervals between the
    data points of the press and the release.  The surface is recorded by
    the press; it shares no axis with a surface recorded before it, and a
    surface recorded after it that shares one of its axes, as a [twinx]
    or [twiny] surface does, has a linear scale on that axis.  Both pixel
    deltas reach the 5-pixel threshold, so that the zooms take place. *)
Theorem zoom_out_inverts_zoom_in
    (e0 e1 : Event) (self : t) (w : World) (a : AxesRef) (ax : Axes) :
  linear_transform →
  _ids_zoom self = [] →
  movelock (navigation w) = None →
  key_is (event_key e0) "x" = false →
  key_is (event_key e0) "y" = false →
  figure w !! a = Some ax →
  get_xscale ax = LinearScale →
  get_yscale ax = LinearScale →
  recorded e0 ax = true →
  in_axes ax e1 = true →
  bb_x0 (bbox ax) < bb_x1 (bbox ax) →
  bb_y0 (bbox ax) < bb_y1 (bbox ax) →
  ¬ fst (get_xlim ax) == snd (get_xlim ax) →
  ¬ fst (get_ylim ax) == snd (get_ylim ax) →
  5 <= Qabs (event_x e1 - event_x e0) →
  5 <= Qabs (event_y e1 - event_y e0) →
  (∀ j axj, (j < a)%nat → figure w !! j = Some axj → recorded e0 axj = true →
            not_joined ax axj) →
  (∀ j axj, (a < j)%nat → figure w !! j = Some axj → recorded e0 axj = true →
            linear_twin ax axj) →
  let sw1 := zoom_gesture 1 e0 e1 (self, w) in
  let sw2 := zoom_gesture 3 e0 e1 sw1 in
  let p := inverted_transform_point (transData ax) (event_x e0, event_y e0) in
  let q := inverted_transform_point (transData ax) (event_x e1, event_y e1) in
  ∃ ax1 ax2,
    figure sw1.2 !! a = Some ax1 ∧
    (get_xlim ax1 = (fst p, fst q) ∨ get_xlim ax1 = (fst q, fst p)) ∧
    (get_ylim ax1 = (snd p, snd q) ∨ get_ylim ax1 = (snd q, snd p)) ∧
    figure sw2.2 !! a = Some ax2 ∧
    interval_eq (get_xlim ax2) (get_xlim ax) ∧
    interval_eq (get_ylim ax2) (get_ylim ax).
Proof.
  intros Hlin Hidle Hlock Hkx Hky Ha Hsx Hsy Hrec Hin1 Hbx Hby Hnx Hny Hdx Hdy
    Hbefore Hafter sw1 sw2 p q.
  destruct (in_axes_bounds ax e0 (recorded_in_axes e0 ax Hrec)) as [[Hx0 Hx0'] [Hy0 Hy0']].
  destruct (in_axes_bounds ax e1 Hin1) as [[Hx1 Hx1'] [Hy1 Hy1']].
  (* the zoom in *)
  destruct (gesture_on_first_surface (with_button 1 e0) e1 self w a ax
              Hidle eq_refl Hlock Ha Hrec Hbefore Hdx Hdy)
    as (self1 & w1 & w2 & last_a & w' & post & Hpress & Hbp & Hzm & Hrel & Hlock2
        & Hst2 & Hl' & Ha' & Hst' & Hpost & Hres).
  assert (Esw1 : sw1 = ({| _ids_zoom := []; _button_pressed := None;
                           _xypress := None; _zoom_mode := None |}, w2)).
  { unfold sw1, zoom_gesture. cbn [fst snd]. rewrite Hpress, Hrel. reflexivity. }
  simpl in Hbp, Hzm.
  change (event_x (with_button 1 e0)) with (event_x e0) in Hres.
  change (event_y (with_button 1 e0)) with (event_y e0) in Hres.
  assert (Hb1 : button_is (_button_pressed self1) 1 = true)
    by (rewrite Hbp; reflexivity).
  assert (Hmx1 : key_is (_zoom_mode self1) "x" = false)
    by (rewrite Hzm; exact Hkx).
  assert (Hmy1 : key_is (_zoom_mode self1) "y" = false)
    by (rewrite Hzm; exact Hky).
  pose proof (figure_zoom_in e1 self1 (event_x e0) (event_y e0) a ax last_a w'
                Hb1 Hmx1 Hmy1) as Hstep.
  cbv zeta in Hstep.
  rewrite !twin_false in Hstep
    by (intros la lax Hla Hlax; apply (Hl' la Hla lax Hlax)).
  fold p q in Hstep.
  destruct (Hlin ax (event_x e0, event_y e0)) as [Hpx Hpy].
  destruct (Hlin ax (event_x e1, event_y e1)) as [Hqx Hqy].
  specialize (Hpx Hsx). specialize (Hpy Hsy).
  specialize (Hqx Hsx). specialize (Hqy Hsy).
  fold p in Hpx, Hpy. fold q in Hqx, Hqy. cbn [fst snd] in Hpx, Hpy, Hqx, Hqy.
  rewrite Hpx, Hpy, Hqx, Hqy in Hstep. rewrite Hpx, Hpy, Hqx, Hqy.
  destruct (axis_round_trip _ _ (fst (get_xlim ax)) (snd (get_xlim ax))
              (event_x e0) (event_x e1) Hbx Hnx Hx0 Hx0' Hx1 Hx1' Hdx)
    as [Hvx Hrx].
  destruct (axis_round_trip _ _ (fst (get_ylim ax)) (snd (get_ylim ax))
              (event_y e0) (event_y e1) Hby Hny Hy0 Hy0' Hy1 Hy1' Hdy)
    as [Hvy Hry].
  set (vx := zoom_to_rect (fst (get_xlim ax)) (snd (get_xlim ax)) _ _) in *.
  set (vy := zoom_to_rect (fst (get_ylim ax)) (snd (get_ylim ax)) _ _) in *.
  assert (Hpost_ne : Forall (fun r' => record_ref r' ≠ a) post).
  { eapply Forall_impl; [exact Hpost|]. intros r' (axj & Hlt & _). lia. }
  destruct (first_surface_sets_groups a vx vy (figure w') ax Ha') as [Hgx Hgy].
  rewrite <- Hstep in Hgx, Hgy.
  destruct (release_loop_keeps_groups e1 self1 a (shared_x_axes ax)
              (shared_y_axes ax) vx vy post Hb1 Hmx1 Hmy1 Hpost_ne
              (last_a ++ [a]) _
              ltac:(apply elem_of_app; right; apply list_elem_of_singleton;
                    reflexivity) Hgx Hgy)
    as [[(ax1 & Hla & _ & Hvx1) _] [(ax1' & Hla' & _ & Hvy1) _]].
  rewrite <- Hres in Hla, Hla'. rewrite Hla in Hla'. injection Hla' as <-.
  destruct (lookup_static_inv (figure w) (figure w2) a ax1 Hst2 Hla)
    as (ax0 & Hax0 & Hst1).
  rewrite Ha in Hax0. injection Hax0 as <-.
  pose proof (axes_from_parts ax1 ax vx vy Hst1 Hvx1 Hvy1) as Eax1.
  (* the zoom out *)
  assert (Hbefore2 : ∀ j axj, (j < a)%nat → figure w2 !! j = Some axj →
                       recorded (with_button 3 e0) axj = true → not_joined ax1 axj).
  { intros j axj' Hlt Hj Hrj.
    destruct (lookup_static_inv (figure w) (figure w2) j axj' Hst2 Hj)
      as (axj & Hj0 & Hsj).
    apply (not_joined_static_l ax ax1 axj'); [symmetry; exact Hst1|].
    apply (not_joined_static ax axj axj'); [symmetry; exact Hsj|].
    apply (Hbefore j axj Hlt Hj0).
    assert (Hrj' : recorded e0 axj' = true) by exact Hrj.
    rewrite <- Hrj'. apply recorded_static. symmetry. exact Hsj. }
  assert (Hrec1 : recorded (with_button 3 e0) ax1 = true).
  { assert (Hr : recorded e0 ax = true) by exact Hrec.
    rewrite <- Hr. apply (recorded_static e0 ax1 ax Hst1). }
  destruct (gesture_on_first_surface (with_button 3 e0) e1
              {| _ids_zoom := []; _button_pressed := None; _xypress := None;
                 _zoom_mode := None |} w2 a ax1
              eq_refl eq_refl Hlock2 Hla Hrec1 Hbefore2 Hdx Hdy)
    as (self3 & w3 & w4 & last_a2 & w'' & post2 & Hpress2 & Hbp2 & Hzm2 & Hrel2 & _
        & _ & Hl'' & Ha'' & Hst'' & Hpost2 & Hres2).
  assert (Esw2 : sw2 = ({| _ids_zoom := []; _button_pressed := None;
                           _xypress := None; _zoom_mode := None |}, w4)).
  { unfold sw2. rewrite Esw1. unfold zoom_gesture. cbn [fst snd].
    rewrite Hpress2, Hrel2. reflexivity. }
  simpl in Hbp2, Hzm2.
  change (event_x (with_button 3 e0)) with (event_x e0) in Hres2.
  change (event_y (with_button 3 e0)) with (event_y e0) in Hres2.
  assert (Hb31 : button_is (_button_pressed self3) 1 = false)
    by (rewrite Hbp2; reflexivity).
  assert (Hb33 : button_is (_button_pressed self3) 3 = true)
    by (rewrite Hbp2; reflexivity).
  assert (Hmx3 : key_is (_zoom_mode self3) "x" = false)
    by (rewrite Hzm2; exact Hkx).
  assert (Hmy3 : key_is (_zoom_mode self3) "y" = false)
    by (rewrite Hzm2; exact Hky).
  pose proof (figure_zoom_out e1 self3 (event_x e0) (event_y e0) a ax1 last_a2 w''
                Hb31 Hb33 Hmx3 Hmy3) as Hstep2.
  cbv zeta in Hstep2.
  rewrite !twin_false in Hstep2
    by (intros la lax Hla2 Hlax; apply (Hl'' la Hla2 lax Hlax)).
  destruct (Hlin ax1 (event_x e0, event_y e0)) as [Hpx2 Hpy2].
  destruct (Hlin ax1 (event_x e1, event_y e1)) as [Hqx2 Hqy2].
  rewrite Eax1 in Hpx2, Hpy2, Hqx2, Hqy2.
  specialize (Hpx2 Hsx). specialize (Hpy2 Hsy).
  specialize (Hqx2 Hsx). specialize (Hqy2 Hsy).
  cbn [fst snd] in Hpx2, Hpy2, Hqx2, Hqy2.
  rewrite Eax1 in Hstep2.
  rewrite Hpx2, Hpy2, Hqx2, Hqy2 in Hstep2.
  change (get_xscale (with_ylim vy (with_xlim vx ax))) with (get_xscale ax) in Hstep2.
  change (get_yscale (with_ylim vy (with_xlim vx ax))) with (get_yscale ax) in Hstep2.
  rewrite Hsx, Hsy in Hstep2.
  match type of Hstep2 with
  | _ = set_ylim a ?oy (set_xlim a ?ox _) =>
      set (OX := ox) in *; set (OY := oy) in *
  end.
  assert (HOX : interval_eq OX (get_xlim ax)) by exact Hrx.
  assert (HOY : interval_eq OY (get_ylim ax)) by exact Hry.
  destruct (first_surface_sets_groups a OX OY (figure w'') ax1 Ha'') as [Hgx2 Hgy2].
  rewrite Eax1 in Hgx2, Hgy2. rewrite <- Hstep2 in Hgx2, Hgy2.
  rewrite <- Eax1 in Hgx2, Hgy2, Hstep2.
  assert (Hpost2' :
    Forall (fun r' => record_ref r' ≠ a ∧
              linear_twin_at
                (figure (zoom_axes e1 self3 (event_x e0) (event_y e0) a ax1
                           last_a2 w''))
                ax1 (record_ref r')) post2).
  { eapply Forall_impl; [exact Hpost2|].
    intros r' (axj2 & Hlt & Hj2 & Hrj2). split; [lia|].
    intros axj3 Hj3.
    destruct (lookup_static_inv (figure w'') _ (record_ref r') axj3
                (fun m => static_zoom_axes _ _ _ _ _ _ _ _ m) Hj3)
      as (axj3' & Hj3' & Hs3).
    destruct (lookup_static_inv (figure w2) (figure w'') (record_ref r') axj3'
                Hst'' Hj3') as (axj2' & Hj2' & Hs2).
    rewrite Hj2 in Hj2'. injection Hj2' as <-.
    destruct (lookup_static_inv (figure w) (figure w2) (record_ref r') axj2
                Hst2 Hj2) as (axj & Hj0 & Hs0).
    apply (linear_twin_static ax ax1 axj axj3); [symmetry; exact Hst1 | congruence|].
    apply (Hafter (record_ref r') axj Hlt Hj0).
    assert (Hr : recorded e0 axj2 = true) by exact Hrj2.
    rewrite <- Hr. apply recorded_static. symmetry. exact Hs0. }
  destruct (release_loop_keeps_groups_out e1 self3 a ax1 (get_xlim ax) (get_ylim ax)
              post2 Hb31 Hb33 Hmx3 Hmy3 Hnx Hny (last_a2 ++ [a]) _ Hpost2'
              ltac:(apply elem_of_app; right; apply list_elem_of_singleton;
                    reflexivity))
    as [(vx4 & Hex4 & (ax2 & Hl4 & _ & Hvx4) & _) (vy4 & Hey4 & (ax2' & Hl4' & _ & Hvy4) & _)].
  { exists OX. split; [exact HOX | exact Hgx2]. }
  { exists OY. split; [exact HOY | exact Hgy2]. }
  rewrite <- Hres2 in Hl4, Hl4'. rewrite Hl4 in Hl4'. injection Hl4' as <-.
  rewrite Esw1, Esw2. cbn [snd].
  exists ax1, ax2. split; [exact Hla|].
  split; [rewrite Hvx1; exact Hvx|]. split; [rewrite Hvy1; exact Hvy|].
  split; [exact Hl4|].
  rewrite Hvx4, Hvy4. split; assumption.
Qed.

End RoundTrip.

(** ** The arithmetic of the zoom *)

Section ZoomArithmetic.
Context `{B : Backend}.
Import ToolZoom.
Local Open Scope Q_scope.

(** X1.  When the data point of the press lies within the current range of
    an axis, the interval that a zoom to rectangle computes for the axis
    lies within the range, is oriented like it and still holds the press
    point, wherever the release point is: a drag that leaves the range is
    cut at its bound. *)
Theorem zoom_to_rect_clamps_to_range (Xmin Xmax x lastx : Q) :
  within (Xmin, Xmax) lastx →
  let v := zoom_to_rect Xmin Xmax x lastx in
  within (Xmin, Xmax) (fst v) ∧ within (Xmin, Xmax) (snd v) ∧
  within v lastx ∧
  (Xmin < Xmax → fst v <= snd v) ∧
  (Xmax < Xmin → snd v <= fst v).
Proof.
  unfold within, zoom_to_rect. cbn [fst snd]. intros Hin.
  split_comparisons; cbn [fst snd]; split_comparisons; cbn [fst snd];
    repeat split; try lra.
Qed.

(** X2.  The interval of a zoom to rectangle does not depend on which of
    the two data points is the press and which is the release. *)
Theorem zoom_to_rect_symmetric (Xmin Xmax x lastx : Q) :
  interval_eq (zoom_to_rect Xmin Xmax x lastx) (zoom_to_rect Xmin Xmax lastx x).
Proof.
  unfold interval_eq, zoom_to_rect.
  split_comparisons; cbn [fst snd]; split_comparisons; cbn [fst snd];
    split; lra.
Qed.

Lemma zoom_out_factor (Xmin Xmax x0 x1 : Q) :
  ¬ x0 == x1 →
  (Xmax - Xmin) / (x1 - x0) * (x1 - x0) == Xmax - Xmin.
Proof. intros H. field. intros E. apply H. lra. Qed.

(** X3.  On a linear axis, zooming out on a rectangle that lies within
    the range and is oriented like it gives a range that contains the old
    one, and the old range takes in the new range the place that the
    rectangle took in the old one. *)
Theorem zoom_out_enlarges (Xmin Xmax x0 x1 : Q) :
  (Xmin <= x0 ∧ x0 < x1 ∧ x1 <= Xmax) ∨ (Xmax <= x1 ∧ x1 < x0 ∧ x0 <= Xmin) →
  let v := zoom_out LinearScale Xmin Xmax x0 x1 in
  within v Xmin ∧ within v Xmax ∧
  (Xmin - fst v) * (Xmax - Xmin) == (x0 - Xmin) * (snd v - fst v) ∧
  (Xmax - fst v) * (Xmax - Xmin) == (x1 - Xmin) * (snd v - fst v).
Proof.
  intros Hrect. unfold zoom_out, within. cbn [is_log fst snd].
  assert (Hne : ¬ x0 == x1) by (intros E; lra).
  pose proof (zoom_out_factor Xmin Xmax x0 x1 Hne) as Hal.
  set (alpha := (Xmax - Xmin) / (x1 - x0)) in *.
  assert (H1 : 1 <= alpha).
  { destruct Hrect as [H|H]; nra. }
  split; [|split; [|split]].
  - destruct Hrect as [H|H]; [left | right]; split; nra.
  - destruct Hrect as [H|H]; [left | right]; split; nra.
  - nra.
  - nra.
Qed.

End ZoomArithmetic.

(** ** The rubber band *)

Section RubberBand.
Context `{B : Backend}.
Import ToolZoom.
Local Open Scope Q_scope.

Lemma py_clamp_low (x lastx b0 b1 : Q) :
  b0 <= lastx → lastx <= b1 →
  b0 <= py_max (py_min x lastx) b0 ∧ py_max (py_min x lastx) b0 <= lastx.
Proof. unfold py_max, py_min. intros. split_comparisons; lra. Qed.

Lemma py_clamp_high (x lastx b0 b1 : Q) :
  b0 <= lastx → lastx <= b1 →
  lastx <= py_min (py_max x lastx) b1 ∧ py_min (py_max x lastx) b1 <= b1.
Proof. unfold py_max, py_min. intros. split_comparisons; lra. Qed.

(** X4.  While the tool is armed with a press point inside the bounding
    box of the first recorded surface, every motion draws exactly one
    rubber band; it lies inside that bounding box, its corners are in
    order, and it holds the press point on every axis that is not
    constrained.  With the [x] key it spans the whole height of the box,
    with the [y] key the whole width.  Nothing else changes. *)
Theorem rubberband_stays_on_the_surface
    (event : Event) (self : t) (w : World) (lastx lasty : Q) (a : AxesRef)
    (i : nat) (lim : Bbox) (tr : Transform) (rest : list XYPress) (ax : Axes) :
  _xypress self = Some ((lastx, lasty, a, i, lim, tr) :: rest) →
  figure w !! a = Some ax →
  bb_x0 (bbox ax) <= lastx → lastx <= bb_x1 (bbox ax) →
  bb_y0 (bbox ax) <= lasty → lasty <= bb_y1 (bbox ax) →
  ∃ x y x' y',
    mouse_move event self w = (Done, self, draw_rubberband event x y x' y' w) ∧
    (bb_x0 (bbox ax) <= x ∧ x <= x' ∧ x' <= bb_x1 (bbox ax)) ∧
    (bb_y0 (bbox ax) <= y ∧ y <= y' ∧ y' <= bb_y1 (bbox ax)) ∧
    (key_is (_zoom_mode self) "x" = true →
     y = bb_y0 (bbox ax) ∧ y' = bb_y1 (bbox ax) ∧ x <= lastx ∧ lastx <= x') ∧
    (key_is (_zoom_mode self) "x" = false → key_is (_zoom_mode self) "y" = true →
     x = bb_x0 (bbox ax) ∧ x' = bb_x1 (bbox ax) ∧ y <= lasty ∧ lasty <= y') ∧
    (key_is (_zoom_mode self) "x" = false → key_is (_zoom_mode self) "y" = false →
     x <= lastx ∧ lastx <= x' ∧ y <= lasty ∧ lasty <= y').
Proof.
  intros Hrecs Ha Hx0 Hx1 Hy0 Hy1. unfold mouse_move. rewrite Hrecs, Ha.
  cbn [extents].
  destruct (py_clamp_low (event_x event) lastx _ _ Hx0 Hx1) as [Hxa Hxb].
  destruct (py_clamp_high (event_x event) lastx _ _ Hx0 Hx1) as [Hxc Hxd].
  destruct (py_clamp_low (event_y event) lasty _ _ Hy0 Hy1) as [Hya Hyb].
  destruct (py_clamp_high (event_y event) lasty _ _ Hy0 Hy1) as [Hyc Hyd].
  destruct (key_is (_zoom_mode self) "x") eqn:Hmx;
    [|destruct (key_is (_zoom_mode self) "y") eqn:Hmy];
    eexists _, _, _, _; (split; [reflexivity|]);
    repeat split; try discriminate; try lra.
Qed.

End RubberBand.

(** ** The records of a zoom press *)

Section PressRecords.
Context `{B : Backend}.
Import ToolZoom.

Lemma press_records_from_spec event i todo r :
  r ∈ press_records_from event i todo ↔
  ∃ j ax, todo !! j = Some ax ∧ recorded event ax = true ∧
          r = (event_x event, event_y event, (i + j)%nat, (i + j)%nat,
               viewLim ax, transData ax).
Proof.
  revert i. induction todo as [|a todo IH]; intros i; simpl.
  - split; [intros H; apply not_elem_of_nil in H; contradiction|].
    intros (j & ax & Hj & _). discriminate.
  - fold (recorded event a). destruct (recorded event a) eqn:Hrec.
    + rewrite elem_of_cons, IH. split.
      * intros [->|(j & ax & Hj & Hr & ->)].
        -- exists 0%nat, a. rewrite Nat.add_0_r. auto.
        -- exists (S j), ax. replace (i + S j)%nat with (S i + j)%nat by lia. auto.
      * intros ([|j] & ax & Hj & Hr & ->).
        -- left. injection Hj as <-. rewrite Nat.add_0_r. reflexivity.
        -- right. exists j, ax. replace (i + S j)%nat with (S i + j)%nat by lia. auto.
    + rewrite IH. split.
      * intros (j & ax & Hj & Hr & ->).
        exists (S j), ax. replace (i + S j)%nat with (S i + j)%nat by lia. auto.
      * intros ([|j] & ax & Hj & Hr & ->).
        -- injection Hj as <-. congruence.
        -- exists j, ax. replace (i + S j)%nat with (S i + j)%nat by lia. auto.
Qed.

Lemma press_records_from_increasing event i todo :
  (∀ r, r ∈ press_records_from event i todo → (i <= record_ref r)%nat) ∧
  (∀ j k r r', press_records_from event i todo !! j = Some r →
               press_records_from event i todo !! k = Some r' →
               (j < k)%nat → (record_ref r < record_ref r')%nat).
Proof.
  revert i. induction todo as [|a todo IH]; intros i; simpl.
  - split; [intros r H; apply not_elem_of_nil in H; contradiction|].
    intros j k r r' H; discriminate.
  - destruct (IH (S i)) as [Hge Hinc].
    destruct (in_axes a event && get_navigate a && can_zoom a).
    + split.
      * intros r [->|Hr]%elem_of_cons; [unfold record_ref; simpl; lia|].
        specialize (Hge r Hr). lia.
      * intros [|j] [|k] r r' Hj Hk Hlt; try lia.
        -- injection Hj as <-. simpl in Hk.
           apply list_elem_of_lookup_2 in Hk. specialize (Hge r' Hk).
           unfold record_ref at 1. simpl. lia.
        -- simpl in Hj, Hk. apply (Hinc j k); auto. lia.
    + split; [|exact Hinc]. intros r Hr. specialize (Hge r Hr). lia.
Qed.

(** X5.  The press records are the surfaces of the figure that are under
    the cursor, enabled for navigation and able to zoom: each of them once,
    in the order of the figure, with its index, the press point and its
    view limits at the press. *)
Theorem press_records_are_the_surfaces_under_the_cursor
    (event : Event) (fig : list Axes) :
  (∀ r, r ∈ press_records event fig ↔
        ∃ i ax, fig !! i = Some ax ∧ recorded event ax = true ∧
                r = (event_x event, event_y event, i, i, viewLim ax, transData ax)) ∧
  (∀ j k r r', press_records event fig !! j = Some r →
               press_records event fig !! k = Some r' →
               (j < k)%nat → (record_ref r < record_ref r')%nat).
Proof.
  split.
  - intros r. unfold press_records. rewrite press_records_from_spec. reflexivity.
  - apply press_records_from_increasing.
Qed.

End PressRecords.

(** ** Listeners and the move lock over a zoom gesture *)

Section ZoomListeners.
Context `{B : Backend}.
Import ToolZoom.

Lemma callbacks_zoom_axes event self lastx lasty a ax last_a w :
  callbacks (zoom_axes event self lastx lasty a ax last_a w) = callbacks w.
Proof. split_zoom_axes; reflexivity. Qed.

Lemma callbacks_release_loop event self recs last_a w :
  callbacks (release_loop event self recs last_a w).2 = callbacks w.
Proof.
  apply (release_loop_preserves (fun w' => callbacks w' = callbacks w));
    [|reflexivity].
  intros. rewrite callbacks_zoom_axes. assumption.
Qed.

Lemma callbacks_release event self w :
  callbacks (release event self w).2
  = callbacks (disconnect_all (_ids_zoom self) w).
Proof.
  unfold release. cbn [_xypress].
  assert (H0 : callbacks (disconnect_all (_ids_zoom self) (release_movelock w))
               = callbacks (disconnect_all (_ids_zoom self) w)).
  { generalize (_ids_zoom self). intros ids. revert w.
    induction ids as [|cid ids IH]; intros w; [reflexivity|]. simpl.
    rewrite <- (IH (mpl_disconnect cid w)). reflexivity. }
  destruct (_xypress self) as [[|r recs]|]; cbv beta iota; cbn [snd];
    try exact H0.
  match goal with
  | |- context [release_loop event ?s0 (r :: recs) [] ?w0] =>
      pose proof (callbacks_release_loop event s0 (r :: recs) [] w0) as Hc;
      destruct (release_loop event s0 (r :: recs) [] w0) as [[|] wl]
  end; simpl in *; rewrite Hc; exact H0.
Qed.

Lemma deliver_listeners m self w :
  callbacks (deliver m self w).2 = callbacks w ∧
  _ids_zoom (deliver m self w).1.2 = _ids_zoom self.
Proof.
  destruct m; simpl;
    unfold _switch_on_zoom_mode, _switch_off_zoom_mode, mouse_move;
    cbn [_xypress _zoom_mode with_zoom_mode _ids_zoom];
    repeat match goal with
           | |- context [match ?x with _ => _ end] => destruct x
           end; split; reflexivity.
Qed.

Lemma drag_listeners ms self w :
  callbacks (drag ms self w).2 = callbacks w ∧
  _ids_zoom (drag ms self w).1 = _ids_zoom self.
Proof.
  revert self w. induction ms as [|m ms IH]; intros self w; [split; reflexivity|].
  simpl. pose proof (deliver_listeners m self w) as [Hc Hi].
  destruct (deliver m self w) as [[o self'] w']. simpl in *.
  destruct (IH self' w') as [Hc' Hi']. rewrite Hc', Hi', Hc, Hi. split; reflexivity.
Qed.

Lemma filter_other_ids (cid : nat) (cbs : list (nat * string * Handler)) :
  (∀ c, c ∈ cbs → c.1.1 ≠ cid) →
  filter (fun c : nat * string * Handler => c.1.1 ≠ cid) cbs = cbs.
Proof.
  induction cbs as [|c cbs IH]; intros Hall; [reflexivity|].
  rewrite filter_cons_True by (apply Hall; left).
  rewrite IH; [reflexivity|]. intros c' Hc'. apply Hall. right. exact Hc'.
Qed.

(** X6.  An arming press on a canvas whose connection ids are all below
    the next free id takes the move lock and connects exactly the two key
    listeners.  However the gesture ends after any motion and key events,
    by the release or by a second press that cancels it, the registry of
    listeners is the one before the press again, the move lock is free and
    the tool keeps no listener id. *)
Theorem zoom_gesture_leaves_no_listener
    (e0 e1 : Event) (ms : list Motion) (self : t) (w : World) :
  _ids_zoom self = [] →
  button_is (event_button e0) 1 || button_is (event_button e0) 3 = true →
  movelock (navigation w) = None →
  (∀ c, c ∈ callbacks w → (c.1.1 < next_cid w)%nat) →
  ∃ self1 w1,
    press e0 self w = (Done, self1, w1) ∧
    movelock (navigation w1) = Some Zoom ∧
    callbacks w1
    = (S (next_cid w), "key_release_event"%string, _switch_off_zoom_mode_cb)
        :: (next_cid w, "key_press_event"%string, _switch_on_zoom_mode_cb)
        :: callbacks w ∧
    let sw := drag ms self1 w1 in
    let released := release e1 sw.1 sw.2 in
    let cancelled := press e1 sw.1 sw.2 in
    (released.1.1 = Done ∧ callbacks released.2 = callbacks w ∧
     movelock (navigation released.2) = None ∧ _ids_zoom released.1.2 = []) ∧
    (cancelled.1.1 = Done ∧ callbacks cancelled.2 = callbacks w ∧
     movelock (navigation cancelled.2) = None ∧ _ids_zoom cancelled.1.2 = []).
Proof.
  intros Hidle Hbutton Hlock Hfresh.
  assert (Hpress : ∃ w1,
    press e0 self w =
      (Done,
       {| _ids_zoom := [next_cid w; S (next_cid w)];
          _button_pressed :=
            if button_is (event_button e0) 1 then Some 1%Z else Some 3%Z;
          _xypress := Some (press_records e0 (figure w));
          _zoom_mode := event_key e0 |}, w1) ∧
    movelock (navigation w1) = Some Zoom ∧
    callbacks w1
    = (S (next_cid w), "key_release_event"%string, _switch_off_zoom_mode_cb)
        :: (next_cid w, "key_press_event"%string, _switch_on_zoom_mode_cb)
        :: callbacks w).
  { unfold press. rewrite Hidle, Hbutton.
    destruct (empty (views (navigation w))); simpl; rewrite Hlock; simpl;
      eexists; (split; [reflexivity|]); split; reflexivity. }
  destruct Hpress as (w1 & Hpress & Hlock1 & Hcb1).
  eexists _, w1. split; [exact Hpress|]. split; [exact Hlock1|].
  split; [exact Hcb1|].
  match type of Hpress with _ = (_, ?s, _) => set (self1 := s) in * end.
  destruct (drag_listeners ms self1 w1) as [Hc Hi].
  destruct (drag_frame ms self1 w1) as (_ & Hn & _ & _).
  set (sw := drag ms self1 w1) in *. cbv zeta.
  assert (Hne : ∀ c, c ∈ callbacks w → c.1.1 ≠ next_cid w ∧ c.1.1 ≠ S (next_cid w)).
  { intros c Hc0. specialize (Hfresh c Hc0). lia. }
  assert (Hdisc : callbacks (disconnect_all [next_cid w; S (next_cid w)] sw.2)
                  = callbacks w).
  { simpl. assert (Hcb : callbacks sw.2 = callbacks w1) by exact Hc.
    rewrite Hcb, Hcb1.
    rewrite filter_cons_True by (simpl; lia).
    rewrite filter_cons_False by (simpl; intros H; apply H; reflexivity).
    rewrite filter_cons_False by (simpl; intros H; apply H; reflexivity).
    rewrite (filter_other_ids (next_cid w)) by (intros c Hc0; apply Hne, Hc0).
    apply filter_other_ids. intros c Hc0. apply Hne, Hc0. }
  assert (Hi' : _ids_zoom sw.1 = [next_cid w; S (next_cid w)]) by exact Hi.
  assert (Hn' : movelock (navigation sw.2) = Some Zoom)
    by (rewrite Hn; exact Hlock1).
  split.
  - destruct (release_frame e1 sw.1 sw.2) as [_ Hm].
    rewrite callbacks_release, Hi', Hdisc, Hm, Hn'.
    assert (Hshape : (release e1 sw.1 sw.2).1.1 = Done
                     ∧ _ids_zoom (release e1 sw.1 sw.2).1.2 = []).
    { unfold release. cbn [_xypress].
      destruct (_xypress sw.1) as [[|r recs]|]; try (split; reflexivity).
      cbv beta iota.
      match goal with
      | |- context [release_loop e1 ?s0 ?l [] ?w0] =>
          destruct (release_loop e1 s0 l [] w0) as [[|] wl]
      end; split; reflexivity. }
    destruct Hshape as [Ho Hids].
    split; [exact Ho|]. split; [reflexivity|]. split; [|exact Hids].
    simpl. destruct (decide (Zoom = Zoom)); congruence.
  - unfold press. rewrite Hi'. cbn [fst snd _ids_zoom].
    split; [reflexivity|]. split.
    + exact Hdisc.
    + split; [|reflexivity].
      cbn [navigation_draw navigation_release record navigation].
      rewrite navigation_disconnect_all. cbn [release_movelock with_navigation navigation with_movelock movelock].
      rewrite Hn'. simpl. destruct (decide (Zoom = Zoom)); congruence.
Qed.

End ZoomListeners.

(** ** What every zoom release does *)

Section ZoomRelease.
Context `{B : Backend}.
Import ToolZoom.

Lemma not_joined_sym ax o : not_joined ax o → not_joined o ax.
Proof. intros [Hx Hy]. split; rewrite joined_sym; assumption. Qed.

Lemma release_loop_untouched event self (fig : list Axes) m axm recs :
  ∀ last_a w,
    figure w !! m = Some axm →
    (∀ k, static <$> figure w !! k = static <$> fig !! k) →
    (∀ r axr, r ∈ recs → fig !! record_ref r = Some axr →
              record_ref r ≠ m ∧ not_joined axr axm) →
    figure (release_loop event self recs last_a w).2 !! m = Some axm.
Proof.
  induction recs as [|[[[[[lastx lasty] a] i] lim] tr] recs IH];
    intros last_a w Hm Hst Hrecs; [exact Hm|].
  simpl. destruct (singular_click event lastx lasty); [exact Hm|].
  destruct (figure w !! a) as [ax|] eqn:Ha.
  - assert (Hfa : ∃ axr, fig !! a = Some axr ∧ static ax = static axr).
    { specialize (Hst a). rewrite Ha in Hst.
      destruct (fig !! a) as [axr|]; [|discriminate].
      exists axr. split; [reflexivity|].
      change (Some (static ax) = Some (static axr)) in Hst.
      apply (inj Some) in Hst. exact Hst. }
    destruct Hfa as (axr & Hfa & Hs).
    destruct (Hrecs (lastx, lasty, a, i, lim, tr) axr) as [Hne Hnj];
      [left | exact Hfa |].
    apply IH.
    + apply (zoom_axes_untouched event self lastx lasty a ax last_a w m axm Ha Hm).
      * intros E. apply Hne. symmetry. exact E.
      * apply not_joined_sym. apply (not_joined_static_l axr ax axm); [symmetry; exact Hs | exact Hnj].
    + intros k. rewrite static_zoom_axes. apply Hst.
    + intros r axr' Hr. apply Hrecs. right. exact Hr.
  - apply IH; auto. intros r axr' Hr. apply Hrecs. right. exact Hr.
Qed.

(** X7.  A zoom release changes nothing of a surface but its ranges, in
    whatever state the tool is: the figure keeps its surfaces and each one
    its bounding box, scales, flags and axis groups.  A surface that is not
    recorded and shares no axis with a recorded surface keeps its ranges
    too. *)
Theorem release_touches_only_recorded_groups
    (event : Event) (self : t) (w : World) :
  length (figure (release event self w).2) = length (figure w) ∧
  (∀ m, static <$> figure (release event self w).2 !! m = static <$> figure w !! m) ∧
  (∀ m axm,
      figure w !! m = Some axm →
      (∀ recs r axr, _xypress self = Some recs → r ∈ recs →
                     figure w !! record_ref r = Some axr →
                     record_ref r ≠ m ∧ not_joined axr axm) →
      figure (release event self w).2 !! m = Some axm).
Proof.
  pose proof (release_frame event self w) as [Hst _].
  split; [|split; [exact Hst|]].
  - apply Nat.le_antisymm; apply Nat.nlt_ge; intros Hlt.
    + specialize (Hst (length (figure w))).
      rewrite (lookup_ge_None_2 (figure w)) in Hst by lia.
      destruct (lookup_lt_is_Some_2 (figure (release event self w).2)
                  (length (figure w)) Hlt) as [x Hx].
      rewrite Hx in Hst. discriminate.
    + specialize (Hst (length (figure (release event self w).2))).
      rewrite (lookup_ge_None_2 (figure (release event self w).2)) in Hst by lia.
      destruct (lookup_lt_is_Some_2 (figure w) _ Hlt) as [x Hx].
      rewrite Hx in Hst. discriminate.
  - intros m axm Hm Hrecs. unfold release. cbn [_xypress].
    set (w0 := disconnect_all (_ids_zoom self) (release_movelock w)).
    assert (Hf0 : figure w0 = figure w)
      by (unfold w0; rewrite figure_disconnect_all; reflexivity).
    destruct (_xypress self) as [[|r recs]|] eqn:Hx; cbv beta iota;
      try (cbn [snd]; rewrite Hf0; exact Hm).
    match goal with
    | |- context [release_loop event ?s0 (r :: recs) [] w0] =>
        pose proof (release_loop_untouched event s0 (figure w) m axm (r :: recs) [] w0)
          as Hloop;
        destruct (release_loop event s0 (r :: recs) [] w0) as [[|] wl]
    end; simpl in *; apply Hloop;
      try (rewrite Hf0; exact Hm);
      try (intros k; rewrite Hf0; reflexivity);
      intros r' axr Hr Hl; apply (Hrecs (r :: recs) r' axr eq_refl Hr Hl).
Qed.


(** X9.  A press with a button other than 1 and 3 on the idle zoom tool
    starts nothing: the world is unchanged, no button and no record is
    kept, a motion draws nothing and the release that follows leaves the
    world unchanged as well. *)
Theorem press_with_another_button_starts_nothing
    (e0 e1 : Event) (self : t) (w : World) :
  _ids_zoom self = [] →
  _xypress self = None →
  button_is (event_button e0) 1 = false →
  button_is (event_button e0) 3 = false →
  movelock (navigation w) ≠ Some Zoom →
  ∃ self1,
    press e0 self w = (Done, self1, w) ∧
    _button_pressed self1 = None ∧ _xypress self1 = None ∧ _ids_zoom self1 = [] ∧
    (∀ e, mouse_move e self1 w = (Done, self1, w)) ∧
    release e1 self1 w = (Done, self1, w).
Proof.
  intros Hidle Hx Hb1 Hb3 Hlock. unfold press. rewrite Hidle, Hb1, Hb3, Hx.
  eexists. split; [reflexivity|]. repeat (split; [reflexivity|]).
  unfold release. simpl.
  assert (Hw : release_movelock w = w).
  { unfold release_movelock. destruct w as [fig [c p r m k v] cbs cid tr].
    simpl in *. destruct m as [h|]; [|reflexivity]. simpl.
    destruct (decide (h = Zoom)) as [->|]; [contradiction|reflexivity]. }
  rewrite Hw. reflexivity.
Qed.

End ZoomRelease.

(** ** The axis constraint and the view history *)

Section ZoomHistory.
Context `{B : Backend}.
Import ToolZoom.
Local Open Scope Q_scope.

Lemma deliver_mode m self w :
  _zoom_mode (deliver m self w).1.2 = mode_after (_zoom_mode self) m.
Proof.
  destruct m; simpl;
    unfold _switch_on_zoom_mode, _switch_off_zoom_mode, mouse_move;
    cbn [_xypress _zoom_mode with_zoom_mode];
    repeat match goal with
           | |- context [match ?x with _ => _ end] => destruct x
           end; reflexivity.
Qed.

(** X10.  During the drag the axis constraint follows the key events:
    after a key press it is the key of that event, after a key release it
    is cleared, whichever key was released; motions leave it alone. *)
Theorem zoom_mode_follows_the_last_key_event
    (ms : list Motion) (self : t) (w : World) :
  _zoom_mode (drag ms self w).1 = fold_left mode_after ms (_zoom_mode self) ∧
  (∀ event ms', ms = ms' ++ [KeyPress event] →
                _zoom_mode (drag ms self w).1 = event_key event) ∧
  (∀ event ms', ms = ms' ++ [KeyRelease event] →
                _zoom_mode (drag ms self w).1 = None).
Proof.
  assert (Hfold : ∀ ms self w,
             _zoom_mode (drag ms self w).1 = fold_left mode_after ms (_zoom_mode self)).
  { clear. intros ms. induction ms as [|m ms IH]; intros self w; [reflexivity|].
    simpl. pose proof (deliver_mode m self w) as Hm.
    destruct (deliver m self w) as [[o self'] w']. simpl in Hm.
    rewrite IH, Hm. reflexivity. }
  split; [apply Hfold|].
  split; intros event ms' ->; rewrite Hfold, fold_left_app; reflexivity.
Qed.

(** X11.  A zoom gesture that records a surface and passes the threshold
    pushes the view after the zoom on the view stack.  When the stack was
    empty at the press, it then holds the view before the gesture as home
    followed by the new view, with the cursor on the new view. *)
Theorem zoom_gesture_pushes_the_new_view
    (e0 e1 : Event) (ms : list Motion) (self : t) (w : World) :
  _ids_zoom self = [] →
  button_is (event_button e0) 1 || button_is (event_button e0) 3 = true →
  movelock (navigation w) = None →
  (∃ ax, ax ∈ figure w ∧ recorded e0 ax = true) →
  5 <= Qabs (event_x e1 - event_x e0) →
  5 <= Qabs (event_y e1 - event_y e0) →
  ∃ self1 w1 w3,
    press e0 self w = (Done, self1, w1) ∧
    release e1 (drag ms self1 w1).1 (drag ms self1 w1).2
    = (Done, {| _ids_zoom := []; _button_pressed := None; _xypress := None;
                _zoom_mode := None |}, w3) ∧
    views (navigation w3) = push (current_view (figure w3)) (views (navigation w1)) ∧
    (empty (views (navigation w)) = true →
     views (navigation w3)
     = {| elements := [current_view (figure w); current_view (figure w3)];
          pos := 1 |}) ∧
    (empty (views (navigation w)) = false →
     views (navigation w3)
     = push (current_view (figure w3)) (views (navigation w))).
Proof.
  intros Hidle Hbutton Hlock (ax0 & Hin0 & Hrec0) Hdx Hdy.
  destruct (press e0 self w) as [[o self1] w1] eqn:Hpress.
  destruct (press_arms e0 self w o self1 w1 Hidle Hbutton Hpress)
    as (Hx1 & Hf1 & Hv1).
  assert (Ho : o = Done).
  { unfold press in Hpress. rewrite Hidle, Hbutton in Hpress.
    destruct (empty (views (navigation w))); simpl in Hpress;
      rewrite Hlock in Hpress; simpl in Hpress; congruence. }
  subst o.
  destruct (drag_frame ms self1 w1) as (Hfd & Hnd & Hxd & _).
  set (sw := drag ms self1 w1) in *.
  assert (Hne : press_records e0 (figure w) ≠ []).
  { apply list_elem_of_lookup_1 in Hin0 as [i Hi].
    rewrite (press_records_split e0 (figure w) i ax0 Hi Hrec0).
    intros E. apply app_eq_nil in E as [_ E]. discriminate. }
  assert (Hpass : Forall (passes_threshold e1) (press_records e0 (figure w))).
  { eapply Forall_impl; [apply press_records_from_point|].
    intros r Hr. unfold passes_threshold. rewrite Hr. simpl.
    apply not_singular_click; assumption. }
  assert (Hxs : _xypress sw.1 = Some (press_records e0 (figure w)))
    by (rewrite Hxd; exact Hx1).
  pose proof (release_completes e1 sw.1 sw.2 _ Hxs Hne Hpass) as Hrel.
  eexists self1, w1, _. split; [reflexivity|]. split; [exact Hrel|].
  set (wl := (release_loop e1 sw.1 (press_records e0 (figure w)) []
                (disconnect_all (_ids_zoom sw.1) (release_movelock sw.2))).2).
  assert (Hnl : views (navigation wl) = views (navigation w1)).
  { unfold wl. rewrite navigation_release_loop, navigation_disconnect_all.
    simpl. rewrite Hnd. reflexivity. }
  assert (Hmain : views (navigation
                           (navigation_release e1 (push_current (navigation_draw wl))))
                  = push (current_view (figure wl)) (views (navigation w1))).
  { simpl. rewrite Hnl. reflexivity. }
  split; [exact Hmain|]. rewrite Hmain, Hv1.
  split; intros He; rewrite He; [|reflexivity].
  unfold push at 2. rewrite He. simpl.
  unfold push, empty. simpl. reflexivity.
Qed.

End ZoomHistory.

(** ** Toggle exclusivity *)

Section ToggleLocks.
Context `{B : Backend}.

(** X12.  With the canvas, press and release locks free, activating a
    toggle tool takes the three locks; while it holds them the activation
    of the other toggle tool raises at the first lock and changes nothing;
    deactivating gives back the world before the activation. *)
Theorem toggle_tools_exclude_each_other
    (event : Event) (z : ToolZoom.t) (p : ToolPan.t) (w : World) :
  canvaslock (navigation w) = None →
  presslock (navigation w) = None →
  releaselock (navigation w) = None →
  (∃ w1,
      ToolPan.activate event p w = (Done, p, w1) ∧
      canvaslock (navigation w1) = Some Pan ∧
      presslock (navigation w1) = Some Pan ∧
      releaselock (navigation w1) = Some Pan ∧
      ToolZoom.activate event z w1 = (Raised (LockContention Pan), z, w1) ∧
      ToolPan.deactivate event p w1 = (Done, p, w)) ∧
  (∃ w2,
      ToolZoom.activate event z w = (Done, z, w2) ∧
      canvaslock (navigation w2) = Some Zoom ∧
      presslock (navigation w2) = Some Zoom ∧
      releaselock (navigation w2) = Some Zoom ∧
      ToolPan.activate event p w2 = (Raised (LockContention Zoom), p, w2) ∧
      ToolZoom.deactivate event z w2 = (Done, z, w)).
Proof.
  intros Hc Hp Hr.
  destruct w as [fig [c pl rl m k v] cbs cid tr]. simpl in *. subst c pl rl.
  split; eexists; (split; [reflexivity|]); repeat split.
Qed.

End ToggleLocks.

(** ** The pan press *)

Section PanPress.
Context `{B : Backend}.
Import ToolPan.

Lemma press_loop_spec event :
  ∀ todo i recs w,
    drop i (figure w) = todo →
    movelock (navigation w) = None ∨ movelock (navigation w) = Some Pan →
    ∃ new w1,
      press_loop event i todo recs w = (Done, recs ++ new, w1) ∧
      (∀ r, r ∈ new ↔ ∃ j ax, todo !! j = Some ax ∧ pan_recorded event ax = true ∧
                              r = ((i + j)%nat, (i + j)%nat)) ∧
      (∀ r, r ∈ new → (i <= r.1)%nat) ∧
      (∀ j k r r', new !! j = Some r → new !! k = Some r' → (j < k)%nat →
                   (r.1 < r'.1)%nat) ∧
      figure w1 = take i (figure w) ++ map (started event) todo ∧
      movelock (navigation w1)
      = (match new with [] => movelock (navigation w) | _ => Some Pan end) ∧
      views (navigation w1) = views (navigation w) ∧
      canvaslock (navigation w1) = canvaslock (navigation w) ∧
      presslock (navigation w1) = presslock (navigation w) ∧
      releaselock (navigation w1) = releaselock (navigation w) ∧
      callbacks w1 = callbacks w ∧
      trace_extends (fun c => ∃ a, c = call_start_pan a (event_x event) (event_y event)
                                         (event_button event)) w w1.
Proof.
  induction todo as [|a todo IH]; intros i recs w Hdrop Hlock.
  - exists [], w. simpl. rewrite app_nil_r.
    split; [reflexivity|].
    split; [intros r; split; [intros H; apply not_elem_of_nil in H; contradiction
                             | intros (j & ax & Hj & _); discriminate]|].
    split; [intros r H; apply not_elem_of_nil in H; contradiction|].
    split; [intros j k r r' H; discriminate|].
    split.
    { rewrite app_nil_r. symmetry. apply take_ge.
      apply (f_equal length) in Hdrop. rewrite length_drop in Hdrop.
      simpl in Hdrop. lia. }
    repeat (split; [reflexivity|]). apply trace_extends_refl.
  - assert (Hi : figure w !! i = Some a).
    { rewrite <- (Nat.add_0_r i). rewrite <- lookup_drop, Hdrop. reflexivity. }
    assert (Hdrop' : drop (S i) (figure w) = todo).
    { rewrite <- (Nat.add_1_r i), <- drop_drop, Hdrop. reflexivity. }
    simpl. fold (pan_recorded event a). unfold started at 1.
    destruct (pan_recorded event a) eqn:Hrec.
    + set (w' := record _ (update_axes i _ w)).
      assert (Hacq : lock_acquire Pan (movelock (navigation w)) = inr (Some Pan)).
      { destruct Hlock as [-> | ->]; simpl; [reflexivity|].
        destruct (decide (Pan = Pan)); congruence. }
      rewrite Hacq.
      set (w'' := with_navigation _ w').
      destruct (IH (S i) (recs ++ [(i, i)]) w'') as (new & w1 & Hloop & Hmem & Hge & Hinc
        & Hfig & Hml & Hv & Hl1 & Hl2 & Hl3 & Hcb & Htr).
      { unfold w'', w'. simpl. rewrite drop_alter_lt by lia. exact Hdrop'. }
      { right. reflexivity. }
      exists ((i, i) :: new), w1.
      split; [rewrite Hloop, <- app_assoc; reflexivity|].
      split.
      { intros r. rewrite elem_of_cons, Hmem. split.
        - intros [->|(j & ax & Hj & Hr & ->)].
          + exists 0%nat, a. rewrite Nat.add_0_r. auto.
          + exists (S j), ax. replace (i + S j)%nat with (S i + j)%nat by lia. auto.
        - intros ([|j] & ax & Hj & Hr & ->).
          + left. rewrite Nat.add_0_r. reflexivity.
          + right. exists j, ax. replace (i + S j)%nat with (S i + j)%nat by lia. auto. }
      split.
      { intros r [->|Hr]%elem_of_cons; [simpl; lia|]. specialize (Hge r Hr). lia. }
      split.
      { intros [|j] [|k] r r' Hj Hk Hlt; try lia.
        - injection Hj as <-. simpl in Hk.
          apply list_elem_of_lookup_2 in Hk. specialize (Hge r' Hk). simpl. lia.
        - simpl in Hj, Hk. apply (Hinc j k); auto. lia. }
      split.
      { rewrite Hfig. unfold w'', w'. simpl.
        rewrite (take_S_r _ _ (start_pan a (event_x event) (event_y event)
                                 (event_button event)))
          by (rewrite list_lookup_alter_eq, Hi; reflexivity).
        rewrite take_alter_ge by lia. rewrite <- app_assoc. reflexivity. }
      split; [rewrite Hml; destruct new; reflexivity|].
      split; [rewrite Hv; reflexivity|].
      split; [rewrite Hl1; reflexivity|].
      split; [rewrite Hl2; reflexivity|].
      split; [rewrite Hl3; reflexivity|].
      split; [rewrite Hcb; reflexivity|].
      apply (trace_extends_trans _ w w'' w1); [|exact Htr].
      eexists [_]. split; [reflexivity|]. repeat constructor. eexists. reflexivity.
    + destruct (IH (S i) recs w Hdrop' Hlock) as (new & w1 & Hloop & Hmem & Hge & Hinc
        & Hfig & Hrest).
      exists new, w1. split; [exact Hloop|].
      split.
      { intros r. rewrite Hmem. split.
        - intros (j & ax & Hj & Hr & ->).
          exists (S j), ax. replace (i + S j)%nat with (S i + j)%nat by lia. auto.
        - intros ([|j] & ax & Hj & Hr & ->).
          + injection Hj as <-. congruence.
          + exists j, ax. replace (i + S j)%nat with (S i + j)%nat by lia. auto. }
      split; [intros r Hr; specialize (Hge r Hr); lia|].
      split; [exact Hinc|].
      split; [|exact Hrest].
      rewrite Hfig. rewrite (take_S_r _ _ a Hi), <- app_assoc. reflexivity.
Qed.


(** X13.  A pan press with button 1 or 3 starts a pan session, with the
    press point and the button of the event, on exactly the surfaces that
    are under the cursor, enabled for navigation and able to pan, and
    records them in the order of the figure, each once.  The tool takes the
    move lock when it has recorded a surface and leaves it alone when it
    has not.  The view stack gets the current view when it was empty.  The
    calls it makes are that push, the [start_pan] of each recorded surface
    and the notification of the navigation, in this order. *)
Theorem pan_press_starts_every_surface_under_the_cursor
    (event : Event) (self : t) (w : World) :
  button_is (event_button event) 1 || button_is (event_button event) 3 = true →
  movelock (navigation w) = None ∨ movelock (navigation w) = Some Pan →
  ∃ recs w1,
    press event self w =
      (Done,
       {| _button_pressed :=
            if button_is (event_button event) 1 then Some 1%Z else Some 3%Z;
          _xypress := Some recs |}, w1) ∧
    (∀ r, r ∈ recs ↔ ∃ i ax, figure w !! i = Some ax ∧
                             pan_recorded event ax = true ∧ r = (i, i)) ∧
    (∀ j k r r', recs !! j = Some r → recs !! k = Some r' → (j < k)%nat →
                 (r.1 < r'.1)%nat) ∧
    figure w1 = map (started event) (figure w) ∧
    movelock (navigation w1)
    = (match recs with [] => movelock (navigation w) | _ => Some Pan end) ∧
    views (navigation w1)
    = (if empty (views (navigation w))
       then push (current_view (figure w)) (views (navigation w))
       else views (navigation w)) ∧
    (∃ starts,
        trace w1
        = call_navigation_press
            :: starts
            ++ (if empty (views (navigation w)) then [call_push_current] else [])
            ++ trace w ∧
        Forall (fun c => ∃ a, c = call_start_pan a (event_x event) (event_y event)
                                    (event_button event)) starts).
Proof.
  intros Hbutton Hlock. unfold press. rewrite Hbutton.
  set (w0 := if empty (views (navigation w)) then push_current w else w).
  assert (H0 : figure w0 = figure w ∧
               movelock (navigation w0) = movelock (navigation w) ∧
               views (navigation w0)
               = (if empty (views (navigation w))
                  then push (current_view (figure w)) (views (navigation w))
                  else views (navigation w)) ∧
               trace w0
               = (if empty (views (navigation w)) then [call_push_current] else [])
                   ++ trace w)
    by (unfold w0; destruct (empty (views (navigation w))); repeat split).
  destruct H0 as (Hf0 & Hm0 & Hv0 & Ht0).
  destruct (press_loop_spec event (figure w0) 0 [] w0 eq_refl)
    as (new & w1 & Hloop & Hmem & _ & Hinc & Hfig & Hml & Hv & _ & _ & _ & _ & Htr);
    [rewrite Hm0; exact Hlock|].
  destruct Htr as (starts & Hstarts & Hall).
  rewrite Hloop. cbn [app]. exists new, (navigation_press event w1).
  split; [reflexivity|].
  split; [intros r; rewrite Hmem, Hf0; reflexivity|].
  split; [exact Hinc|].
  cbn [navigation_press record figure navigation trace].
  split; [rewrite Hfig, Hf0; reflexivity|].
  split; [rewrite Hml, Hm0; reflexivity|].
  split; [rewrite Hv, Hv0; reflexivity|].
  exists starts. split; [rewrite Hstarts, Ht0; reflexivity | exact Hall].
Qed.

End PanPress.

(** ** The pan gesture *)

Section PanSession.
Context `{B : Backend}.
Import ToolPan.






End PanSession.

(** ** Edges of the pan tool *)

Section PanEdges.
Context `{B : Backend}.
Import ToolPan.

Lemma press_loop_nothing_under_cursor event :
  ∀ todo i recs w,
    (∀ ax, ax ∈ todo → pan_recorded event ax = false) →
    press_loop event i todo recs w = (Done, recs, w).
Proof.
  induction todo as [|a todo IH]; intros i recs w Hall; [reflexivity|].
  simpl. fold (pan_recorded event a). rewrite (Hall a) by left.
  apply IH. intros ax Hax. apply Hall. right. exact Hax.
Qed.

Lemma lock_release_other (o : Owner) (l : Lock) : l ≠ Some o → lock_release o l = l.
Proof.
  intros Hne. destruct l as [h|]; [|reflexivity]. simpl.
  destruct (decide (h = o)) as [->|]; [contradiction | reflexivity].
Qed.

(** X15.  A pan press with button 1 or 3 that finds no surface under the
    cursor records the button and an empty list and notifies the
    navigation of the press.  The release that follows returns early: it
    leaves the recorded button in place, pushes no view and does not notify
    the navigation; a motion only asks for a dynamic update. *)
Theorem pan_press_on_no_surface_leaves_the_button_recorded
    (e0 e1 : Event) (self : t) (w : World) :
  button_is (event_button e0) 1 || button_is (event_button e0) 3 = true →
  (∀ ax, ax ∈ figure w → pan_recorded e0 ax = false) →
  movelock (navigation w) ≠ Some Pan →
  let self1 :=
    {| _button_pressed :=
         if button_is (event_button e0) 1 then Some 1%Z else Some 3%Z;
       _xypress := Some [] |} in
  let w1 :=
    navigation_press e0
      (if empty (views (navigation w)) then push_current w else w) in
  press e0 self w = (Done, self1, w1) ∧
  release e1 self1 w1 = (Done, self1, w1) ∧
  mouse_move e1 self1 w1 = (Done, self1, record call_dynamic_update w1).
Proof.
  intros Hbutton Hall Hlock self1 w1. unfold press. rewrite Hbutton.
  rewrite press_loop_nothing_under_cursor
    by (destruct (empty (views (navigation w))); exact Hall).
  split; [reflexivity|]. split; [|reflexivity].
  unfold release, self1. cbn [_button_pressed _xypress].
  assert (Hm : movelock (navigation w1) = movelock (navigation w))
    by (unfold w1; destruct (empty (views (navigation w))); reflexivity).
  destruct (button_is (event_button e0) 1);
    rewrite Hm, (lock_release_other Pan _ Hlock), <- Hm;
    destruct w1 as [fig [c p r m k v] cbs cid tr]; reflexivity.
Qed.

Lemma movelock_activate event self w :
  (activate event self w).1.2 = self ∧
  movelock (navigation (activate event self w).2) = movelock (navigation w).
Proof.
  unfold activate.
  repeat match goal with
         | |- context [match ?x with _ => _ end] => destruct x
         end; split; reflexivity.
Qed.

Lemma pan_press_records_some event self w :
  button_is (event_button event) 1 || button_is (event_button event) 3 = true →
  _xypress (press event self w).1.2 ≠ None.
Proof.
  intros Hb. unfold press. rewrite Hb.
  destruct (press_loop event 0 _ [] _) as [[[|e] recs] w']; discriminate.
Qed.

Lemma pan_deliver_keeps_records i self w :
  pan_records_present self w →
  pan_records_present (pan_deliver i self w).1.2 (pan_deliver i self w).2.
Proof.
  intros [Hb Hl]. destruct i as [e|e|e|e|e]; simpl.
  - destruct (movelock_activate e self w) as [Hs Hm].
    unfold pan_records_present. rewrite Hs, Hm. split; assumption.
  - split; assumption.
  - destruct (button_is (event_button e) 1 || button_is (event_button e) 3) eqn:Hbut.
    + pose proof (pan_press_records_some e self w Hbut). split; intros _; assumption.
    + unfold press. rewrite Hbut. simpl. split; [intros H; contradiction | exact Hl].
  - unfold release. destruct (_button_pressed self) as [b|] eqn:Eb;
      [|simpl; split; [rewrite Eb; exact Hb | exact Hl]].
    destruct (_xypress self) as [[|r recs]|] eqn:Ex.
    + simpl. split; intros _; rewrite Ex; discriminate.
    + simpl. split; intros _; discriminate.
    + exfalso. apply Hb; [discriminate | reflexivity].
  - unfold mouse_move. destruct (_xypress self) as [recs|] eqn:Ex.
    + simpl. split; intros _; rewrite Ex; discriminate.
    + simpl. unfold pan_records_present. rewrite Ex. split; assumption.
Qed.

Lemma pan_run_keeps_records ins :
  ∀ self w, pan_records_present self w →
            pan_records_present (pan_run ins self w).1 (pan_run ins self w).2.
Proof.
  induction ins as [|i ins IH]; intros self w Hinv; [exact Hinv|].
  simpl. pose proof (pan_deliver_keeps_records i self w Hinv) as Hstep.
  destruct (pan_deliver i self w) as [[o self'] w']. apply IH. exact Hstep.
Qed.

(** X16.  From the initial state of the pan tool and after any sequence
    of calls of its handlers, the release never iterates over missing
    records, and neither does a motion delivered while the tool holds the
    move lock: both return normally. *)
Theorem pan_handlers_never_iterate_missing_records
    (ins : list PanInput) (event : Event) (w : World) :
  movelock (navigation w) ≠ Some Pan →
  let sw := pan_run ins init w in
  (release event sw.1 sw.2).1.1 = Done ∧
  (movelock (navigation sw.2) = Some Pan →
   (mouse_move event sw.1 sw.2).1.1 = Done).
Proof.
  intros Hlock sw.
  assert (Hinv : pan_records_present sw.1 sw.2).
  { apply pan_run_keeps_records. split; [intros H; contradiction|].
    intros H. contradiction. }
  destruct Hinv as [Hb Hl]. split.
  - unfold release. destruct (_button_pressed sw.1) as [b|]; [|reflexivity].
    destruct (_xypress sw.1) as [[|r recs]|]; try reflexivity.
    exfalso. apply Hb; [discriminate | reflexivity].
  - intros Hm. unfold mouse_move.
    destruct (_xypress sw.1) as [recs|]; [reflexivity|].
    exfalso. apply (Hl Hm). reflexivity.
Qed.

End PanEdges.

(** ** Enabling navigation and toggling scales *)

Section KeyboardTools.
Context `{B : Backend}.

Lemma in_axes_set_navigate b a e : in_axes (set_navigate b a) e = in_axes a e.
Proof. reflexivity. Qed.

Lemma in_axes_same_point a e e' :
  event_x e' = event_x e → event_y e' = event_y e → in_axes a e' = in_axes a e.
Proof. unfold in_axes. intros -> ->. reflexivity. Qed.

(** X17.  With a surface under the cursor, [ToolEnableAllNavigation]
    enables navigation on every surface whose bounding box holds the event
    and leaves the other surfaces alone.  Running it twice is running it
    once, it overrides whatever [ToolEnableNavigation] had selected at the
    same event, and without a surface under the cursor it does nothing. *)
Theorem enable_all_enables_the_surfaces_under_the_cursor
    (event : KeyEvent) (w : World) (a : AxesRef) :
  inaxes event = Some a →
  let w' := ToolEnableAllNavigation.activate event w in
  (∀ i ax, figure w !! i = Some ax →
           figure w' !! i
           = Some (if in_axes ax (located event) then set_navigate true ax else ax)) ∧
  (∀ i ax', figure w' !! i = Some ax' → in_axes ax' (located event) = true →
            get_navigate ax' = true) ∧
  ToolEnableAllNavigation.activate event w' = w' ∧
  (∀ int w1, ToolEnableNavigation.activate int event w = inr w1 →
             ToolEnableAllNavigation.activate event w1 = w') ∧
  ToolEnableAllNavigation.activate
    {| located := located event; inaxes := None |} w = w.
Proof.
  intros Hin w'. unfold w', ToolEnableAllNavigation.activate. rewrite Hin.
  cbn [figure with_figure inaxes].
  split; [intros i ax Hi; rewrite list_lookup_fmap, Hi; reflexivity|].
  split.
  { intros i ax' Hi Hin'. rewrite list_lookup_fmap in Hi.
    destruct (figure w !! i) as [ax|]; [|discriminate]. simpl in Hi.
    injection Hi as <-. destruct (in_axes ax (located event)) eqn:E;
      [reflexivity | congruence]. }
  split.
  { unfold with_figure. cbn [figure navigation callbacks next_cid trace].
    f_equal. rewrite <- list_fmap_compose. apply list_fmap_ext.
    intros i ax _. simpl. destruct (in_axes ax (located event)) eqn:E.
    - rewrite in_axes_set_navigate, E. reflexivity.
    - rewrite E. reflexivity. }
  split; [|reflexivity].
  intros int w1. unfold ToolEnableNavigation.activate. rewrite Hin.
  destruct (event_key (located event)) as [key|]; [|discriminate].
  destruct (int key) as [k|]; [|discriminate]. intros [= <-].
  unfold with_figure. cbn [figure navigation callbacks next_cid trace].
  f_equal. apply list_eq. intros i.
  rewrite !list_lookup_fmap, list_lookup_imap.
  destruct (figure w !! i) as [ax|]; [|reflexivity]. simpl.
  destruct (in_axes ax (located event)) eqn:E.
  - rewrite in_axes_set_navigate, E. reflexivity.
  - rewrite E. reflexivity.
Qed.

(** X18.  With a surface under the cursor and the key [k],
    [ToolEnableNavigation] changes at most the navigation flag of a
    surface, and only of the surfaces whose bounding box holds the event;
    among those, surface [k - 1] of the figure is the only one left enabled
    for navigation.  A zoom or pan press at the same point that follows
    records no other surface. *)
Theorem enable_one_leaves_one_surface_under_the_cursor
    (int : string → option Z) (event : KeyEvent) (w : World)
    (a : AxesRef) (key : string) (k : Z) :
  inaxes event = Some a →
  event_key (located event) = Some key →
  int key = Some k →
  ∃ w',
    ToolEnableNavigation.activate int event w = inr w' ∧
    (∀ i ax, figure w !! i = Some ax →
             ∃ ax', figure w' !! i = Some ax' ∧
                    set_navigate (get_navigate ax) ax' = ax ∧
                    (in_axes ax (located event) = false → ax' = ax)) ∧
    (∀ i ax', figure w' !! i = Some ax' → in_axes ax' (located event) = true →
              (get_navigate ax' = true ↔ Z.of_nat i = (k - 1)%Z)) ∧
    (∀ e i ax',
        event_x e = event_x (located event) → event_y e = event_y (located event) →
        figure w' !! i = Some ax' →
        recorded e ax' = true ∨ pan_recorded e ax' = true →
        Z.of_nat i = (k - 1)%Z) ∧
    navigation w' = navigation w ∧ trace w' = trace w.
Proof.
  intros Hin Hkey Hint. unfold ToolEnableNavigation.activate.
  rewrite Hin, Hkey, Hint. eexists. split; [reflexivity|].
  cbn [figure with_figure navigation trace].
  assert (Hone : ∀ i ax', imap (fun i a =>
                                 if in_axes a (located event)
                                 then set_navigate (Z.of_nat i =? k - 1)%Z a
                                 else a) (figure w) !! i = Some ax' →
                  in_axes ax' (located event) = true →
                  (get_navigate ax' = true ↔ Z.of_nat i = (k - 1)%Z)).
  { intros i ax' Hi Hin'. rewrite list_lookup_imap in Hi.
    destruct (figure w !! i) as [ax|]; [|discriminate]. simpl in Hi.
    injection Hi as <-. destruct (in_axes ax (located event)) eqn:E; [|congruence].
    simpl. apply Z.eqb_eq. }
  split.
  { intros i ax Hi. rewrite list_lookup_imap, Hi. simpl. eexists.
    split; [reflexivity|].
    destruct (in_axes ax (located event)); destruct ax; split;
      try reflexivity; discriminate. }
  split; [exact Hone|]. split; [|split; reflexivity].
  intros e i ax' Hx Hy Hi Hr.
  assert (Hboth : in_axes ax' (located event) = true ∧ get_navigate ax' = true).
  { unfold recorded, pan_recorded in Hr.
    rewrite (in_axes_same_point ax' (located event) e Hx Hy) in Hr.
    destruct Hr as [Hr|Hr]; apply andb_true_iff in Hr as [Hr _];
      apply andb_true_iff in Hr; exact Hr. }
  destruct Hboth as [Hia Hnav]. apply (Hone i ax' Hi Hia). exact Hnav.
Qed.

(** X19.  On a surface whose scale setters store the name they are given,
    a scale toggle takes [log] to [linear] and [linear] to [log] and draws
    the canvas once, so that two toggles give the scale back; a surface
    with any other scale is left alone and nothing is drawn. *)
Theorem scale_toggles_are_involutions
    {A : Type} `{ScaledAxes A} (ax : A) :
  (∀ s a, yscale (set_yscale s a) = s) →
  (∀ s a, xscale (set_xscale s a) = s) →
  (yscale ax = "log"%string ∨ yscale ax = "linear"%string →
   ∃ ax1 ax2,
     ToolToggleYScale.activate (Some ax) = (Some ax1, 1%nat) ∧
     yscale ax1 ≠ yscale ax ∧
     ToolToggleYScale.activate (Some ax1) = (Some ax2, 1%nat) ∧
     yscale ax2 = yscale ax) ∧
  (yscale ax ≠ "log"%string → yscale ax ≠ "linear"%string →
   ToolToggleYScale.activate (Some ax) = (Some ax, 0%nat)) ∧
  (xscale ax = "log"%string ∨ xscale ax = "linear"%string →
   ∃ ax1 ax2,
     ToolToggleXScale.activate (Some ax) = (Some ax1, 1%nat) ∧
     xscale ax1 ≠ xscale ax ∧
     ToolToggleXScale.activate (Some ax1) = (Some ax2, 1%nat) ∧
     xscale ax2 = xscale ax) ∧
  (xscale ax ≠ "log"%string → xscale ax ≠ "linear"%string →
   ToolToggleXScale.activate (Some ax) = (Some ax, 0%nat)).
Proof.
  intros Hy Hx.
  split; [|split; [|split]].
  - intros [E|E]; unfold ToolToggleYScale.activate; rewrite E; simpl;
      eexists _, _; (split; [reflexivity|]); rewrite ?Hy; simpl; rewrite ?Hy;
      (split; [discriminate|]); split; reflexivity.
  - intros H1 H2. unfold ToolToggleYScale.activate.
    apply String.eqb_neq in H1, H2. rewrite H1, H2. reflexivity.
  - intros [E|E]; unfold ToolToggleXScale.activate; rewrite E; simpl;
      eexists _, _; (split; [reflexivity|]); rewrite ?Hx; simpl; rewrite ?Hx;
      (split; [discriminate|]); split; reflexivity.
  - intros H1 H2. unfold ToolToggleXScale.activate.
    apply String.eqb_neq in H1, H2. rewrite H1, H2. reflexivity.
Qed.

End KeyboardTools.

(** ** What the release reads of a press record *)

Section RecordsRead.
Context `{B : Backend}.
Import ToolZoom.

Lemma release_loop_same_point_and_surface event self1 self2 recs1 recs2 last_a w :
  _button_pressed self1 = _button_pressed self2 →
  _zoom_mode self1 = _zoom_mode self2 →
  same_point_and_surface recs1 recs2 →
  release_loop event self1 recs1 last_a w = release_loop event self2 recs2 last_a w.
Proof.
  intros Hb Hm Hrecs. revert last_a w.
  induction Hrecs as [|r1 r2 recs1 recs2 [Hp Hr] _ IH]; intros last_a w;
    [reflexivity|].
  destruct r1 as [[[[[lastx lasty] a] i1] lim1] tr1],
           r2 as [[[[[lastx2 lasty2] a2] i2] lim2] tr2].
  unfold record_point, record_ref in Hp, Hr. simpl in Hp, Hr.
  injection Hp as Hpx Hpy. subst lastx2 lasty2 a2. simpl.
  destruct (singular_click event lastx lasty); [reflexivity|].
  destruct (figure w !! a) as [ax|]; [|apply IH].
  rewrite IH. f_equal. unfold zoom_axes. rewrite Hb, Hm. reflexivity.
Qed.

(** X20.  The release and the drag read nothing of a press record but its
    press point and its surface: two tool states whose records agree on
    those give the same release and the same rubber band.  The view limits
    frozen at the press and the recorded index are not consulted, so the
    zoom is computed against the ranges the surface has at the release. *)
Theorem release_reads_only_point_and_surface
    (event : Event) (self1 self2 : t) (recs1 recs2 : list XYPress) (w : World) :
  _ids_zoom self1 = _ids_zoom self2 →
  _button_pressed self1 = _button_pressed self2 →
  _zoom_mode self1 = _zoom_mode self2 →
  _xypress self1 = Some recs1 →
  _xypress self2 = Some recs2 →
  same_point_and_surface recs1 recs2 →
  release event self1 w = release event self2 w ∧
  (mouse_move event self1 w).2 = (mouse_move event self2 w).2.
Proof.
  intros Hids Hb Hm H1 H2 Hrecs. split.
  - unfold release. rewrite H1, H2, Hids. cbn [_xypress _button_pressed _zoom_mode].
    destruct Hrecs as [|r1 r2 recs1 recs2 Hr Hrecs]; [rewrite Hb, Hm; reflexivity|].
    rewrite (release_loop_same_point_and_surface event
               {| _ids_zoom := []; _button_pressed := _button_pressed self1;
                  _xypress := Some (r1 :: recs1); _zoom_mode := _zoom_mode self1 |}
               {| _ids_zoom := []; _button_pressed := _button_pressed self2;
                  _xypress := Some (r2 :: recs2); _zoom_mode := _zoom_mode self2 |}
               (r1 :: recs1) (r2 :: recs2) [] _ Hb Hm)
      by (constructor; assumption).
    rewrite Hb, Hm. reflexivity.
  - unfold mouse_move. rewrite H1, H2, Hm.
    destruct Hrecs as [|r1 r2 recs1 recs2 [Hp Hr] Hrecs]; [reflexivity|].
    destruct r1 as [[[[[lastx lasty] a] i1] lim1] tr1],
             r2 as [[[[[lastx2 lasty2] a2] i2] lim2] tr2].
    unfold record_point, record_ref in Hp, Hr. simpl in Hp, Hr.
    injection Hp as Hpx Hpy. subst lastx2 lasty2 a2.
    destruct (figure w !! a) as [ax|]; [|reflexivity].
    cbn [extents].
    destruct (key_is (_zoom_mode self2) "x"); [reflexivity|].
    destruct (key_is (_zoom_mode self2) "y"); reflexivity.
Qed.

End RecordsRead.

Section ConstrainedZoomIn.
Context `{B : Backend}.
Import ToolZoom.
Local Open Scope Q_scope.

(** X21.  A button-1 release with the [x] or the [y] key held, on a single
    recorded surface and past the threshold on both pixel axes, sets the
    range of the constrained axis to the interval between the data
    coordinates of the press and of the release, cut at the current range,
    and leaves the range of the other axis as it is. *)
Theorem constrained_zoom_in_sets_the_dragged_interval
    (c : AxisName) (event : Event) (self : t) (w : World)
    (lastx lasty : Q) (a : AxesRef) (i : nat) (lim : Bbox) (tr : Transform)
    (ax : Axes) :
  _xypress self = Some [(lastx, lasty, a, i, lim, tr)] →
  button_is (_button_pressed self) 1 = true →
  _zoom_mode self = Some (axis_key c) →
  5 <= Qabs (event_x event - lastx) →
  5 <= Qabs (event_y event - lasty) →
  figure w !! a = Some ax →
  let p := inverted_transform_point (transData ax) (lastx, lasty) in
  let q := inverted_transform_point (transData ax) (event_x event, event_y event) in
  ∃ ax',
    figure (release event self w).2 !! a = Some ax' ∧
    constrained_lim c ax'
    = zoom_to_rect (fst (constrained_lim c ax)) (snd (constrained_lim c ax))
        (coordinate c q) (coordinate c p) ∧
    unconstrained_lim c ax' = unconstrained_lim c ax.
Proof.
  intros Hx Hb Hmode Hdx Hdy Ha p q.
  pose proof (not_singular_click event lastx lasty Hdx Hdy) as Hns.
  unfold release. rewrite Hx. cbn [_xypress _button_pressed _zoom_mode].
  set (w0 := disconnect_all (_ids_zoom self) (release_movelock w)).
  assert (Hf0 : figure w0 = figure w)
    by (unfold w0; rewrite figure_disconnect_all; reflexivity).
  cbn [release_loop]. rewrite Hns, Hf0, Ha. cbn [snd fst].
  unfold zoom_axes. cbn [_button_pressed _zoom_mode twin existsb].
  rewrite Hb, Hmode. fold p q.
  destruct p as [px py] eqn:Ep, q as [qx qy] eqn:Eq.
  destruct (get_xlim ax) as [Xmin Xmax] eqn:EX.
  destruct (get_ylim ax) as [Ymin Ymax] eqn:EY.
  destruct c; unfold constrained_lim, unconstrained_lim, coordinate;
    cbn [axis_key key_is String.eqb Ascii.eqb Bool.eqb fst snd];
    rewrite ?EX, ?EY; cbn [fst snd].
  - destruct (zoom_to_rect Xmin Xmax qx px) as [x0 x1] eqn:Ez.
    destruct (zoom_to_rect Ymin Ymax qy py) as [y0 y1].
    cbn [figure record with_figure navigation_draw push_current
         navigation_release with_navigation].
    rewrite Hf0. unfold set_xlim. rewrite (set_lim_target _ _ a (x0, x1) _ ax Ha).
    eexists. split; [reflexivity|]. split; [reflexivity|].
    unfold get_ylim in *. simpl. exact EY.
  - destruct (zoom_to_rect Xmin Xmax qx px) as [x0 x1].
    destruct (zoom_to_rect Ymin Ymax qy py) as [y0 y1] eqn:Ez.
    cbn [figure record with_figure navigation_draw push_current
         navigation_release with_navigation].
    rewrite Hf0. unfold set_ylim. rewrite (set_lim_target _ _ a (y0, y1) _ ax Ha).
    eexists. split; [reflexivity|]. split; [reflexivity|].
    unfold get_xlim in *. simpl. exact EX.
Qed.

End ConstrainedZoomIn.

(** * The properties on the sample figures *)

Section OnSamples.
Local Open Scope Q_scope.
Local Existing Instance linear_backend.

Lemma linear_backend_is_linear : linear_transform (B := linear_backend).
Proof. intros ax p. split; intros _; reflexivity. Qed.

(** A second press on the armed sample cancels the gesture. *)
Lemma press_while_armed_cancels_witness :
  ∃ self' w',
    ToolZoom.press (mouse 3 50 50) armed.1 armed.2 = (Done, self', w') ∧
    movelock (navigation w') = lock_release Zoom (movelock (navigation armed.2)) ∧
    movelock (navigation w') ≠ Some Zoom ∧
    (∀ c, c ∈ callbacks w' →
          c ∈ callbacks armed.2 ∧ c.1.1 ∉ ToolZoom._ids_zoom armed.1) ∧
    ToolZoom._xypress self' = None ∧ ToolZoom._button_pressed self' = None ∧
    ToolZoom._ids_zoom self' = [] ∧
    figure w' = figure armed.2 ∧
    views (navigation w') = views (navigation armed.2).
Proof.
  apply (press_while_armed_cancels (mouse 3 50 50) armed.1 armed.2).
  vm_compute. discriminate.
Defined.

(** A release on the freshly made tools of the sample figure. *)
Lemma release_without_press_is_noop_witness :
  (∃ z' w',
      ToolZoom.release (mouse 1 50 50) ToolZoom.init sample_world = (Done, z', w') ∧
      figure w' = figure sample_world ∧
      views (navigation w') = views (navigation sample_world) ∧
      trace w' = trace sample_world) ∧
  (∃ p' w',
      ToolPan.release (mouse 1 50 50) ToolPan.init sample_world = (Done, p', w') ∧
      figure w' = figure sample_world ∧
      views (navigation w') = views (navigation sample_world) ∧
      trace w' = trace sample_world).
Proof.
  apply (release_without_press_is_noop (mouse 1 50 50) ToolZoom.init
           ToolPan.init sample_world); left; reflexivity.
Defined.

(** A wide but flat drag, from pixel (20, 20) to (80, 22), with the x key
    held. *)
Lemma release_below_threshold_on_either_axis_witness :
  ∃ self' w',
    ToolZoom.release (mouse 1 80 22) armed_x.1 armed_x.2 = (Done, self', w') ∧
    figure w' = figure armed_x.2 ∧
    views (navigation w') = views (navigation armed_x.2) ∧
    trace_extends (fun c => ¬ sets_range c ∧ c ≠ call_push_current) armed_x.2 w'.
Proof.
  apply (release_below_threshold_on_either_axis (mouse 1 80 22) armed_x.1 armed_x.2
           [(20, 20, 0%nat, 0%nat, viewLim sample_axes,
             (bbox sample_axes, viewLim sample_axes))] 20 20).
  - reflexivity.
  - repeat constructor.
  - right. reflexivity.
Defined.

(** A click on the sample figure: press at (20, 20), one motion event,
    release at (22, 23). *)
Lemma singular_click_keeps_view_witness :
  ∃ self3 w3,
    ToolZoom.release (mouse 1 22 23)
      (drag [MouseMove (mouse 1 21 21)] armed.1 armed.2).1
      (drag [MouseMove (mouse 1 21 21)] armed.1 armed.2).2 = (Done, self3, w3) ∧
    figure w3 = figure sample_world ∧
    views (navigation w3) = views (navigation armed.2) ∧
    (empty (views (navigation sample_world)) = false →
     views (navigation w3) = views (navigation sample_world)) ∧
    trace_extends (fun c => ¬ sets_range c ∧ c ≠ call_push_current)
      (drag [MouseMove (mouse 1 21 21)] armed.1 armed.2).2 w3.
Proof.
  apply (singular_click_keeps_view (mouse 1 20 20) (mouse 1 22 23)
           [MouseMove (mouse 1 21 21)] ToolZoom.init armed.1 sample_world armed.2);
    reflexivity.
Defined.

(** A zoom on the sample figure with the x key held. *)
Lemma constrained_zoom_keeps_other_axis_witness :
  (∀ i, unconstrained_lim XAxis
          <$> figure (ToolZoom.release (mouse 1 80 80) armed_x.1 armed_x.2).2 !! i
        = unconstrained_lim XAxis <$> figure armed_x.2 !! i) ∧
  trace_extends (fun call => ¬ sets_unconstrained XAxis call) armed_x.2
    (ToolZoom.release (mouse 1 80 80) armed_x.1 armed_x.2).2 ∧
  figure (ToolZoom.mouse_move (mouse 1 80 80) armed_x.1 armed_x.2).2
  = figure armed_x.2.
Proof.
  apply (constrained_zoom_keeps_other_axis XAxis (mouse 1 80 80) armed_x.1 armed_x.2).
  reflexivity.
Defined.

(** Two motion events over the panning sample figure that differ in their
    button only. *)
Lemma pan_move_uses_recorded_button_witness :
  ToolPan.mouse_move (mouse 1 30 30) panning.1 panning.2
  = ToolPan.mouse_move (mouse 3 30 30) panning.1 panning.2 ∧
  trace_extends (drags_with (ToolPan._button_pressed panning.1)) panning.2
    (ToolPan.mouse_move (mouse 1 30 30) panning.1 panning.2).2.
Proof.
  apply (pan_move_uses_recorded_button (mouse 1 30 30) (mouse 3 30 30)
           panning.1 panning.2); reflexivity.
Defined.

(** The sample zoom from pixel (20, 20) to (80, 80). *)
Lemma zoom_in_sets_spanned_intervals_witness :
  let r : ToolZoom.XYPress :=
    (20, 20, 0%nat, 0%nat, viewLim sample_axes,
     (bbox sample_axes, viewLim sample_axes)) in
  let p := inverted_transform_point (transData sample_axes) (record_point r) in
  let q := inverted_transform_point (transData sample_axes) (80, 80) in
  ∃ self' w' ax',
    ToolZoom.release (mouse 1 80 80) armed.1 armed.2 = (Done, self', w') ∧
    figure w' !! record_ref r = Some ax' ∧
    spans (get_xlim sample_axes) (fst p) (fst q) (get_xlim ax') ∧
    spans (get_ylim sample_axes) (snd p) (snd q) (get_ylim ax').
Proof.
  intros r p q.
  apply (zoom_in_sets_spanned_intervals (mouse 1 80 80) armed.1 armed.2 [r] 0 r
           sample_axes); try reflexivity.
  - repeat constructor.
  - intros [|k'] r' Hk' _; [reflexivity | discriminate].
  - intros k' r' Hlt. inversion Hlt.
  - left. split; reflexivity.
  - left. split; reflexivity.
  - left. split; reflexivity.
  - left. split; reflexivity.
Defined.

(** The round trip on the figure of two surfaces that share their x axis,
    seen from the first one: x-range (0, 10), drag from data x = 2 to
    x = 8. *)
Lemma zoom_out_inverts_zoom_in_witness :
  let sw1 := zoom_gesture 1 (mouse 1 20 20) (mouse 1 80 80)
               (ToolZoom.init, twin_world) in
  let sw2 := zoom_gesture 3 (mouse 1 20 20) (mouse 1 80 80) sw1 in
  let p := inverted_transform_point (transData twin_first) (20, 20) in
  let q := inverted_transform_point (transData twin_first) (80, 80) in
  ∃ ax1 ax2,
    figure sw1.2 !! 0%nat = Some ax1 ∧
    (get_xlim ax1 = (fst p, fst q) ∨ get_xlim ax1 = (fst q, fst p)) ∧
    (get_ylim ax1 = (snd p, snd q) ∨ get_ylim ax1 = (snd q, snd p)) ∧
    figure sw2.2 !! 0%nat = Some ax2 ∧
    interval_eq (get_xlim ax2) (get_xlim twin_first) ∧
    interval_eq (get_ylim ax2) (get_ylim twin_first).
Proof.
  apply (zoom_out_inverts_zoom_in (mouse 1 20 20) (mouse 1 80 80)
           ToolZoom.init twin_world 0 twin_first);
    try reflexivity; try discriminate.
  - apply linear_backend_is_linear.
  - intros j axj Hlt. inversion Hlt.
  - intros [|[|j]] axj Hlt Hj _; [inversion Hlt | | discriminate].
    injection Hj as <-. split; intros _; reflexivity.
Defined.

(** The example of the round trip, evaluated: the x-range (0, 10) becomes
    (2, 8) and then (0, 10) again. *)
Example zoom_round_trip_on_sample :
  let sw1 := zoom_gesture 1 (mouse 1 20 20) (mouse 1 80 80)
               (ToolZoom.init, sample_world) in
  let sw2 := zoom_gesture 3 (mouse 1 20 20) (mouse 1 80 80) sw1 in
  ∃ ax1 ax2,
    figure sw1.2 !! 0%nat = Some ax1 ∧ interval_eq (get_xlim ax1) (2, 8) ∧
    figure sw2.2 !! 0%nat = Some ax2 ∧ interval_eq (get_xlim ax2) (0, 10).
Proof.
  eexists _, _. split; [vm_compute; reflexivity|].
  split; [split; reflexivity|].
  split; [vm_compute; reflexivity|]. split; reflexivity.
Qed.

(** The same on the first of the two surfaces that share their x axis. *)
Example zoom_round_trip_on_twins :
  let sw1 := zoom_gesture 1 (mouse 1 20 20) (mouse 1 80 80)
               (ToolZoom.init, twin_world) in
  let sw2 := zoom_gesture 3 (mouse 1 20 20) (mouse 1 80 80) sw1 in
  ∃ ax1 ax2,
    figure sw1.2 !! 0%nat = Some ax1 ∧ interval_eq (get_xlim ax1) (2, 8) ∧
    figure sw2.2 !! 0%nat = Some ax2 ∧ interval_eq (get_xlim ax2) (0, 10).
Proof.
  eexists _, _. split; [vm_compute; reflexivity|].
  split; [split; reflexivity|].
  split; [vm_compute; reflexivity|]. split; reflexivity.
Qed.

(** On an inverted range the zoom keeps the inverted orientation. *)
Example zoom_to_rect_on_inverted_range :
  ToolZoom.zoom_to_rect 10 0 2 8 = (8, 2) ∧
  ToolZoom.zoom_to_rect 10 0 8 2 = (8, 2) ∧
  ToolZoom.zoom_to_rect 10 0 12 (-3) = (10, 0).
Proof. repeat split; reflexivity. Qed.

(** The sample release with two different frozen transforms. *)
Lemma release_ignores_frozen_transform_witness :
  ToolZoom.release (mouse 1 80 80) armed.1 armed.2
  = ToolZoom.release (mouse 1 80 80) armed_refrozen armed.2.
Proof.
  apply (release_ignores_frozen_transform (mouse 1 80 80) armed.1 armed_refrozen
           [(20, 20, 0%nat, 0%nat, viewLim sample_axes,
             (bbox sample_axes, viewLim sample_axes))]
           [(20, 20, 0%nat, 0%nat, viewLim sample_axes,
             (mkBbox 0 0 50 50, mkBbox 0 0 1 1))] armed.2);
    try reflexivity.
  repeat constructor.
Defined.

(** C1, counterexample.  Two recorded surfaces share their x axis.  The
    press at pixel (20, 20) and the release at (80, 80) map, for the second
    surface, to the data points x = 1 and x = 4 of its range (0, 10), and
    to x = 2.6 and x = 4.4 when they are converted at the moment the loop
    reaches the surface.  The x-range it ends with is (2, 8), the range
    the first surface has set for the shared axis: it is not the interval
    spanned by its own points. *)
Lemma twin_surface_keeps_shared_range :
  let event := mouse 1 80 80 in
  let w' := (ToolZoom.release event twin_armed.1 twin_armed.2).2 in
  let p := inverted_transform_point (transData twin_second) (20, 20) in
  let q := inverted_transform_point (transData twin_second) (80, 80) in
  ToolZoom._button_pressed twin_armed.1 = Some 1%Z ∧
  ToolZoom._zoom_mode twin_armed.1 = None ∧
  map record_ref (default [] (ToolZoom._xypress twin_armed.1)) = [0; 1]%nat ∧
  figure twin_armed.2 !! 1%nat = Some twin_second ∧
  strictly_inside (get_xlim twin_second) (fst p) ∧
  strictly_inside (get_xlim twin_second) (fst q) ∧
  strictly_inside (get_ylim twin_second) (snd p) ∧
  strictly_inside (get_ylim twin_second) (snd q) ∧
  interval_eq (fst p, fst q) (1, 4) ∧
  ∃ handled ax',
    figure (ToolZoom.zoom_axes event twin_armed.1 20 20 0 twin_first []
              twin_armed.2) !! 1%nat = Some handled ∧
    interval_eq
      (fst (inverted_transform_point (transData handled) (20, 20)),
       fst (inverted_transform_point (transData handled) (80, 80)))
      (26 # 10, 44 # 10) ∧
    figure w' !! 1%nat = Some ax' ∧
    interval_eq (get_xlim ax') (2, 8) ∧
    ¬ spans (get_xlim twin_second) (fst p) (fst q) (get_xlim ax') ∧
    ¬ spans (get_xlim handled)
        (fst (inverted_transform_point (transData handled) (20, 20)))
        (fst (inverted_transform_point (transData handled) (80, 80)))
        (get_xlim ax').
Proof.
  cbv zeta.
  split; [reflexivity|]. split; [reflexivity|]. split; [reflexivity|].
  split; [reflexivity|].
  split; [left; split; reflexivity|]. split; [left; split; reflexivity|].
  split; [left; split; reflexivity|]. split; [left; split; reflexivity|].
  split; [split; reflexivity|].
  eexists _, _.
  split; [vm_compute; reflexivity|]. split; [split; reflexivity|].
  split; [vm_compute; reflexivity|]. split; [split; reflexivity|].
  split; intros ([H|H] & _); vm_compute in H; discriminate H.
Qed.

(** C3, counterexample.  Between the press and the release the x-range of
    the surface becomes (0, 20), so its current transform differs from the
    one frozen in the press record.  The frozen transform maps the press
    and release points to x = 2 and x = 8; the release sets the x-range
    (4, 16), which comes from the current transform. *)
Lemma release_converts_with_current_transform :
  let event := mouse 1 80 80 in
  let w' := (ToolZoom.release event armed_moved.1 armed_moved.2).2 in
  ∃ lim tr ax ax',
    ToolZoom._xypress armed_moved.1 = Some [(20, 20, 0%nat, 0%nat, lim, tr)] ∧
    figure armed_moved.2 !! 0%nat = Some ax ∧
    tr ≠ transData ax ∧
    figure w' !! 0%nat = Some ax' ∧
    get_xlim ax'
    = ToolZoom.zoom_to_rect (fst (get_xlim ax)) (snd (get_xlim ax))
        (fst (inverted_transform_point (transData ax) (80, 80)))
        (fst (inverted_transform_point (transData ax) (20, 20))) ∧
    interval_eq (get_xlim ax') (4, 16) ∧
    interval_eq
      (ToolZoom.zoom_to_rect (fst (get_xlim ax)) (snd (get_xlim ax))
         (fst (inverted_transform_point tr (80, 80)))
         (fst (inverted_transform_point tr (20, 20))))
      (2, 8) ∧
    ¬ interval_eq (get_xlim ax')
        (ToolZoom.zoom_to_rect (fst (get_xlim ax)) (snd (get_xlim ax))
           (fst (inverted_transform_point tr (80, 80)))
           (fst (inverted_transform_point tr (20, 20)))).
Proof.
  cbv zeta. eexists _, _, _, _.
  split; [vm_compute; reflexivity|]. split; [vm_compute; reflexivity|].
  split; [discriminate|].
  split; [vm_compute; reflexivity|].
  split; [vm_compute; reflexivity|].
  split; [split; reflexivity|]. split; [split; reflexivity|].
  intros [H _]. vm_compute in H. discriminate H.
Qed.

(** C4, counterexample.  The zoom tool is activated, a button-1 press arms
    it and takes the move lock, and the tool is deactivated before the
    release: it still holds the move lock. *)
Lemma deactivate_mid_gesture_keeps_move_lock :
  let '(_, z1, w1) := ToolZoom.activate (mouse 1 0 0) ToolZoom.init sample_world in
  let '(_, z2, w2) := ToolZoom.press (mouse 1 20 20) z1 w1 in
  let '(_, z3, w3) := ToolZoom.deactivate (mouse 1 0 0) z2 w2 in
  movelock (navigation w3) = Some Zoom ∧
  ¬ holds_no_lock Zoom (navigation w3).
Proof.
  split; [reflexivity|]. intros (_ & _ & _ & H & _). apply H. reflexivity.
Qed.

End OnSamples.

(** ** The further properties on the sample figures *)

Section OnMoreSamples.
Local Existing Instance linear_backend.
Local Existing Instance scale_names.
Local Open Scope Q_scope.

(** A drag from data 3 to data 25 on the range (0, 10) zooms to (3, 10). *)
Lemma zoom_to_rect_clamps_to_range_witness :
  let v := ToolZoom.zoom_to_rect 0 10 25 3 in
  within (0, 10) (fst v) ∧ within (0, 10) (snd v) ∧ within v 3 ∧
  (0 < 10 → fst v <= snd v) ∧ (10 < 0 → snd v <= fst v).
Proof.
  apply (zoom_to_rect_clamps_to_range 0 10 25 3).
  left. split; discriminate.
Defined.

(** Zooming out of the range (0, 10) on the rectangle (2, 8). *)
Lemma zoom_out_enlarges_witness :
  let v := ToolZoom.zoom_out LinearScale 0 10 2 8 in
  within v 0 ∧ within v 10 ∧
  (0 - fst v) * (10 - 0) == (2 - 0) * (snd v - fst v) ∧
  (10 - fst v) * (10 - 0) == (8 - 0) * (snd v - fst v).
Proof.
  apply (zoom_out_enlarges 0 10 2 8).
  left. repeat split; try discriminate; reflexivity.
Defined.

(** The armed sample with the mouse to the right of the surface. *)
Lemma rubberband_stays_on_the_surface_witness :
  ∃ x y x' y',
    ToolZoom.mouse_move (mouse 1 150 50) armed.1 armed.2
    = (Done, armed.1, draw_rubberband (mouse 1 150 50) x y x' y' armed.2) ∧
    (0 <= x ∧ x <= x' ∧ x' <= 100) ∧ (0 <= y ∧ y <= y' ∧ y' <= 100).
Proof.
  destruct (rubberband_stays_on_the_surface (mouse 1 150 50) armed.1 armed.2
              20 20 0 0 (viewLim sample_axes) (transData sample_axes) []
              sample_axes eq_refl eq_refl)
    as (x & y & x' & y' & Hm & Hx & Hy & _); try discriminate.
  exists x, y, x', y'. split; [exact Hm|]. split; assumption.
Defined.

(** The sample gesture, ended by the release or by a second press. *)
Lemma zoom_gesture_leaves_no_listener_witness :
  ∃ self1 w1,
    ToolZoom.press (mouse 1 20 20) ToolZoom.init sample_world = (Done, self1, w1) ∧
    movelock (navigation w1) = Some Zoom ∧
    callbacks w1
    = [(1%nat, "key_release_event"%string, _switch_off_zoom_mode_cb);
       (0%nat, "key_press_event"%string, _switch_on_zoom_mode_cb)] ∧
    let sw := drag [MouseMove (mouse 1 50 50)] self1 w1 in
    let released := ToolZoom.release (mouse 1 80 80) sw.1 sw.2 in
    let cancelled := ToolZoom.press (mouse 1 80 80) sw.1 sw.2 in
    (released.1.1 = Done ∧ callbacks released.2 = [] ∧
     movelock (navigation released.2) = None ∧
     ToolZoom._ids_zoom released.1.2 = []) ∧
    (cancelled.1.1 = Done ∧ callbacks cancelled.2 = [] ∧
     movelock (navigation cancelled.2) = None ∧
     ToolZoom._ids_zoom cancelled.1.2 = []).
Proof.
  apply (zoom_gesture_leaves_no_listener (mouse 1 20 20) (mouse 1 80 80)
           [MouseMove (mouse 1 50 50)] ToolZoom.init sample_world);
    try reflexivity.
  intros c Hc. apply not_elem_of_nil in Hc. contradiction.
Defined.

(** A middle-button press on the sample. *)
Lemma press_with_another_button_starts_nothing_witness :
  ∃ self1,
    ToolZoom.press (mouse 2 20 20) ToolZoom.init sample_world
    = (Done, self1, sample_world) ∧
    ToolZoom._button_pressed self1 = None ∧ ToolZoom._xypress self1 = None ∧
    ToolZoom._ids_zoom self1 = [] ∧
    (∀ e, ToolZoom.mouse_move e self1 sample_world = (Done, self1, sample_world)) ∧
    ToolZoom.release (mouse 2 80 80) self1 sample_world = (Done, self1, sample_world).
Proof.
  apply (press_with_another_button_starts_nothing (mouse 2 20 20) (mouse 2 80 80)
           ToolZoom.init sample_world); try reflexivity.
  discriminate.
Defined.

(** The first zoom on the sample defines home and adds the zoomed view. *)
Lemma zoom_gesture_pushes_the_new_view_witness :
  ∃ self1 w1 w3,
    ToolZoom.press (mouse 1 20 20) ToolZoom.init sample_world = (Done, self1, w1) ∧
    ToolZoom.release (mouse 1 80 80) (drag [] self1 w1).1 (drag [] self1 w1).2
    = (Done, {| ToolZoom._ids_zoom := []; ToolZoom._button_pressed := None;
                ToolZoom._xypress := None; ToolZoom._zoom_mode := None |}, w3) ∧
    views (navigation w3) = push (current_view (figure w3)) (views (navigation w1)) ∧
    (empty (views (navigation sample_world)) = true →
     views (navigation w3)
     = {| elements := [current_view (figure sample_world); current_view (figure w3)];
          pos := 1 |}) ∧
    (empty (views (navigation sample_world)) = false →
     views (navigation w3)
     = push (current_view (figure w3)) (views (navigation sample_world))).
Proof.
  apply (zoom_gesture_pushes_the_new_view (mouse 1 20 20) (mouse 1 80 80) []
           ToolZoom.init sample_world); try reflexivity; try discriminate.
  exists sample_axes. split; [left | reflexivity].
Defined.

(** The two tools on the idle sample. *)
Lemma toggle_tools_exclude_each_other_witness :
  (∃ w1,
      ToolPan.activate (mouse 1 0 0) ToolPan.init sample_world
      = (Done, ToolPan.init, w1) ∧
      canvaslock (navigation w1) = Some Pan ∧
      presslock (navigation w1) = Some Pan ∧
      releaselock (navigation w1) = Some Pan ∧
      ToolZoom.activate (mouse 1 0 0) ToolZoom.init w1
      = (Raised (LockContention Pan), ToolZoom.init, w1) ∧
      ToolPan.deactivate (mouse 1 0 0) ToolPan.init w1
      = (Done, ToolPan.init, sample_world)) ∧
  (∃ w2,
      ToolZoom.activate (mouse 1 0 0) ToolZoom.init sample_world
      = (Done, ToolZoom.init, w2) ∧
      canvaslock (navigation w2) = Some Zoom ∧
      presslock (navigation w2) = Some Zoom ∧
      releaselock (navigation w2) = Some Zoom ∧
      ToolPan.activate (mouse 1 0 0) ToolPan.init w2
      = (Raised (LockContention Zoom), ToolPan.init, w2) ∧
      ToolZoom.deactivate (mouse 1 0 0) ToolZoom.init w2
      = (Done, ToolZoom.init, sample_world)).
Proof.
  apply (toggle_tools_exclude_each_other (mouse 1 0 0) ToolZoom.init ToolPan.init
           sample_world); reflexivity.
Defined.

(** The pan press on the figure of two surfaces. *)
Lemma pan_press_starts_every_surface_under_the_cursor_witness :
  ∃ recs w1,
    ToolPan.press (mouse 1 150 20) ToolPan.init twin_world
    = (Done, {| ToolPan._button_pressed := Some 1%Z; ToolPan._xypress := Some recs |},
       w1) ∧
    (∀ r, r ∈ recs ↔ ∃ i ax, figure twin_world !! i = Some ax ∧
                             pan_recorded (mouse 1 150 20) ax = true ∧ r = (i, i)) ∧
    (∀ j k r r', recs !! j = Some r → recs !! k = Some r' → (j < k)%nat →
                 (r.1 < r'.1)%nat) ∧
    figure w1 = map (started (mouse 1 150 20)) (figure twin_world) ∧
    movelock (navigation w1)
    = (match recs with [] => movelock (navigation twin_world) | _ => Some Pan end) ∧
    views (navigation w1)
    = (if empty (views (navigation twin_world))
       then push (current_view (figure twin_world)) (views (navigation twin_world))
       else views (navigation twin_world)) ∧
    (∃ starts,
        trace w1
        = call_navigation_press
            :: starts
            ++ (if empty (views (navigation twin_world))
                then [call_push_current] else [])
            ++ trace twin_world ∧
        Forall (fun c => ∃ a, c = call_start_pan a (event_x (mouse 1 150 20))
                                    (event_y (mouse 1 150 20))
                                    (event_button (mouse 1 150 20))) starts).
Proof.
  apply (pan_press_starts_every_surface_under_the_cursor (mouse 1 150 20)
           ToolPan.init twin_world); [reflexivity | left; reflexivity].
Defined.


(** A press beside the sample surface, then the release. *)
Lemma pan_press_on_no_surface_leaves_the_button_recorded_witness :
  let self1 := {| ToolPan._button_pressed := Some 3%Z; ToolPan._xypress := Some [] |} in
  let w1 := navigation_press (mouse 3 500 500) (push_current sample_world) in
  ToolPan.press (mouse 3 500 500) ToolPan.init sample_world = (Done, self1, w1) ∧
  ToolPan.release (mouse 3 600 600) self1 w1 = (Done, self1, w1) ∧
  ToolPan.mouse_move (mouse 3 600 600) self1 w1
  = (Done, self1, record call_dynamic_update w1).
Proof.
  apply (pan_press_on_no_surface_leaves_the_button_recorded (mouse 3 500 500)
           (mouse 3 600 600) ToolPan.init sample_world); [reflexivity | | discriminate].
  intros ax Hax. apply list_elem_of_singleton in Hax. subst ax. reflexivity.
Defined.

(** A run with a press that takes the move lock. *)
Lemma pan_handlers_never_iterate_missing_records_witness :
  let sw := pan_run [PanMouseMove (mouse 1 10 10); PanPress (mouse 1 20 20)]
              ToolPan.init sample_world in
  (ToolPan.release (mouse 1 30 30) sw.1 sw.2).1.1 = Done ∧
  (movelock (navigation sw.2) = Some Pan →
   (ToolPan.mouse_move (mouse 1 30 30) sw.1 sw.2).1.1 = Done).
Proof.
  apply (pan_handlers_never_iterate_missing_records
           [PanMouseMove (mouse 1 10 10); PanPress (mouse 1 20 20)]
           (mouse 1 30 30) sample_world).
  discriminate.
Defined.

(** The key [a] over the first of the two surfaces. *)
Lemma enable_all_enables_the_surfaces_under_the_cursor_witness :
  let event := key_at "a" 150 20 (Some 1%nat) in
  let w' := ToolEnableAllNavigation.activate event twin_world in
  (∀ i ax, figure twin_world !! i = Some ax →
           figure w' !! i
           = Some (if in_axes ax (located event) then set_navigate true ax else ax)) ∧
  (∀ i ax', figure w' !! i = Some ax' → in_axes ax' (located event) = true →
            get_navigate ax' = true) ∧
  ToolEnableAllNavigation.activate event w' = w' ∧
  (∀ int w1, ToolEnableNavigation.activate int event twin_world = inr w1 →
             ToolEnableAllNavigation.activate event w1 = w') ∧
  ToolEnableAllNavigation.activate
    {| located := located event; inaxes := None |} twin_world = twin_world.
Proof.
  apply (enable_all_enables_the_surfaces_under_the_cursor
           (key_at "a" 150 20 (Some 1%nat)) twin_world 1%nat).
  reflexivity.
Defined.

(** The key [2] where the two surfaces overlap. *)
Lemma enable_one_leaves_one_surface_under_the_cursor_witness :
  let event := key_at "2" 50 50 (Some 1%nat) in
  ∃ w',
    ToolEnableNavigation.activate int_of_digit event twin_world = inr w' ∧
    (∀ i ax, figure twin_world !! i = Some ax →
             ∃ ax', figure w' !! i = Some ax' ∧
                    set_navigate (get_navigate ax) ax' = ax ∧
                    (in_axes ax (located event) = false → ax' = ax)) ∧
    (∀ i ax', figure w' !! i = Some ax' → in_axes ax' (located event) = true →
              (get_navigate ax' = true ↔ Z.of_nat i = (2 - 1)%Z)) ∧
    (∀ e i ax',
        event_x e = event_x (located event) → event_y e = event_y (located event) →
        figure w' !! i = Some ax' →
        recorded e ax' = true ∨ pan_recorded e ax' = true →
        Z.of_nat i = (2 - 1)%Z) ∧
    navigation w' = navigation twin_world ∧ trace w' = trace twin_world.
Proof.
  apply (enable_one_leaves_one_surface_under_the_cursor int_of_digit
           (key_at "2" 50 50 (Some 1%nat)) twin_world 1%nat "2" 2); reflexivity.
Defined.

(** A surface with a linear x axis and a logarithmic y axis. *)
Lemma scale_toggles_are_involutions_witness :
  let ax := ("linear"%string, "log"%string) in
  (yscale ax = "log"%string ∨ yscale ax = "linear"%string →
   ∃ ax1 ax2,
     ToolToggleYScale.activate (Some ax) = (Some ax1, 1%nat) ∧
     yscale ax1 ≠ yscale ax ∧
     ToolToggleYScale.activate (Some ax1) = (Some ax2, 1%nat) ∧
     yscale ax2 = yscale ax) ∧
  (yscale ax ≠ "log"%string → yscale ax ≠ "linear"%string →
   ToolToggleYScale.activate (Some ax) = (Some ax, 0%nat)) ∧
  (xscale ax = "log"%string ∨ xscale ax = "linear"%string →
   ∃ ax1 ax2,
     ToolToggleXScale.activate (Some ax) = (Some ax1, 1%nat) ∧
     xscale ax1 ≠ xscale ax ∧
     ToolToggleXScale.activate (Some ax1) = (Some ax2, 1%nat) ∧
     xscale ax2 = xscale ax) ∧
  (xscale ax ≠ "log"%string → xscale ax ≠ "linear"%string →
   ToolToggleXScale.activate (Some ax) = (Some ax, 0%nat)).
Proof.
  apply (scale_toggles_are_involutions ("linear"%string, "log"%string));
    reflexivity.
Defined.

(** The armed sample against a state whose record has other frozen view
    limits and another index. *)
Lemma release_reads_only_point_and_surface_witness :
  let other :=
    {| ToolZoom._ids_zoom := [0; 1]%nat;
       ToolZoom._button_pressed := Some 1%Z;
       ToolZoom._xypress :=
         Some [(20, 20, 0%nat, 7%nat, mkBbox 1 2 3 4, transData sample_axes)];
       ToolZoom._zoom_mode := None |} in
  ToolZoom.release (mouse 1 80 80) armed.1 armed.2
  = ToolZoom.release (mouse 1 80 80) other armed.2 ∧
  (ToolZoom.mouse_move (mouse 1 80 80) armed.1 armed.2).2
  = (ToolZoom.mouse_move (mouse 1 80 80) other armed.2).2.
Proof.
  apply (release_reads_only_point_and_surface (mouse 1 80 80) armed.1 _
           [(20, 20, 0%nat, 0%nat, viewLim sample_axes, transData sample_axes)]
           [(20, 20, 0%nat, 7%nat, mkBbox 1 2 3 4, transData sample_axes)]
           armed.2); try reflexivity.
  repeat constructor.
Defined.

(** The sample with the x key held: the x-range becomes (2, 8). *)
Lemma constrained_zoom_in_sets_the_dragged_interval_witness :
  let p := inverted_transform_point (transData sample_axes) (20, 20) in
  let q := inverted_transform_point (transData sample_axes) (80, 80) in
  ∃ ax',
    figure (ToolZoom.release (mouse 1 80 80) armed_x.1 armed_x.2).2 !! 0%nat
    = Some ax' ∧
    constrained_lim XAxis ax'
    = ToolZoom.zoom_to_rect (fst (constrained_lim XAxis sample_axes))
        (snd (constrained_lim XAxis sample_axes))
        (coordinate XAxis q) (coordinate XAxis p) ∧
    unconstrained_lim XAxis ax' = unconstrained_lim XAxis sample_axes.
Proof.
  apply (constrained_zoom_in_sets_the_dragged_interval XAxis (mouse 1 80 80)
           armed_x.1 armed_x.2 20 20 0 0 (viewLim sample_axes)
           (transData sample_axes) sample_axes);
    try reflexivity; discriminate.
Defined.

End OnMoreSamples.
